(** * A platformer's player physics, sprite animation and level loading

    Shallow embedding of [level_objects.py] and [levels.py].

    - Python [int] is [Z]; Python [float] is the kernel's binary64 [float],
      so [FALL_ACCELERATION] is the very double the source's literal [0.3]
      denotes.
    - Exceptions are the [Raise] branch of [result].
    - Sprites are objects with identity: a level keeps them in a store and its
      groups hold references, in insertion order (a [pygame.sprite.Group]
      keeps its members in a dict keyed by the sprite).
    - [pygame] itself is outside the repository.  [Rect], [Group.add] and the
      number conversion of [Rect.move_ip] follow pygame 2's behaviour; image
      decoding, the clock and the random generator are inputs ([World]).
    - Coordinates are mathematical integers: the 32-bit range of a
      [pygame.Rect] field lies far beyond any level and is not modelled. *)

From Stdlib Require Import ZArith Floats Ascii DecimalString.
From stdpp Require Import base tactics option list strings.

Local Open Scope Z_scope.

(** ** Exceptions

    [Undefined] is no Python exception: it marks the one place where pygame's
    C code leaves the outcome open, the cast to [int] of a float that is not
    finite.  Speeds of the game are finite, so no run reaches it. *)

Inductive exn : Type :=
| ValueError (msg : string)
| IndexError
| AttributeError
| Undefined.

Inductive result (A : Type) : Type :=
| Ok (a : A)
| Raise (e : exn).

Arguments Ok {A} a.
Arguments Raise {A} e.

#[global] Instance result_ret : MRet result := fun A a => Ok a.

#[global] Instance result_bind : MBind result := fun A B k m =>
  match m with
  | Ok a => k a
  | Raise e => Raise e
  end.

(** ** Python numbers: [int] and [float] *)

Module PyNum.

Inductive t : Type :=
| PyInt (z : Z)
| PyFloat (f : float).

(** [float(z)]: the nearest double, ties to even. *)
Definition float_of_int (z : Z) : float :=
  SF2Prim (binary_normalize prec emax z 0 false).

Definition to_float (v : t) : float :=
  match v with
  | PyInt z => float_of_int z
  | PyFloat f => f
  end.

(** [a + b]: exact on two ints, in binary64 as soon as one side is a float. *)
Definition add (a b : t) : t :=
  match a, b with
  | PyInt x, PyInt y => PyInt (x + y)
  | _, _ => PyFloat (PrimFloat.add (to_float a) (to_float b))
  end.

(** [-a] *)
Definition neg (a : t) : t :=
  match a with
  | PyInt x => PyInt (- x)
  | PyFloat f => PyFloat (PrimFloat.opp f)
  end.

(** [v > 0] *)
Definition gt0 (v : t) : bool :=
  match v with
  | PyInt z => 0 <? z
  | PyFloat f => PrimFloat.ltb PrimFloat.zero f
  end.

(** [v < 0] *)
Definition lt0 (v : t) : bool :=
  match v with
  | PyInt z => z <? 0
  | PyFloat f => PrimFloat.ltb f PrimFloat.zero
  end.

(** The integer a [pygame.Rect] method reads from a number argument: an int
    as it is, a finite float cut towards zero (a C cast); nothing for an
    infinity or a NaN, which no cast defines. *)
Definition to_c_int (v : t) : option Z :=
  match v with
  | PyInt z => Some z
  | PyFloat f =>
      match Prim2SF f with
      | S754_zero _ => Some 0
      | S754_finite s m e =>
          let a := if 0 <=? e then Z.shiftl (Z.pos m) e
                   else Z.shiftr (Z.pos m) (- e) in
          Some (if s then - a else a)
      | S754_infinity _ | S754_nan => None
      end
  end.

End PyNum.

(** ** [pygame.Rect]: integer rectangles *)

Module Rect.

Record t : Type := mk { x : Z; y : Z; w : Z; h : Z }.

Definition left (r : t) : Z := x r.
Definition top (r : t) : Z := y r.
Definition right (r : t) : Z := x r + w r.
Definition bottom (r : t) : Z := y r + h r.

(** [r.move_ip(dx, dy)] on integers. *)
Definition move_ip (dx dy : Z) (r : t) : t :=
  {| x := x r + dx; y := y r + dy; w := w r; h := h r |}.

(** [a.colliderect(b)]: the interiors meet.  A rectangle of zero width or
    height collides with nothing, and rectangles that only share an edge do
    not collide. *)
Definition colliderect (a b : t) : bool :=
  if (w a =? 0) || (h a =? 0) || (w b =? 0) || (h b =? 0) then false
  else (Z.min (x a) (x a + w a) <? Z.max (x b) (x b + w b))
       && (Z.min (y a) (y a + h a) <? Z.max (y b) (y b + h b))
       && (Z.max (x a) (x a + w a) >? Z.min (x b) (x b + w b))
       && (Z.max (y a) (y a + h a) >? Z.min (y b) (y b + h b)).

(** What a surface's [get_rect] gives: sizes are never negative. *)
Definition wf (r : t) : Prop := 0 <= w r /\ 0 <= h r.

End Rect.

(** ** Surfaces, and what the program reads from outside *)

(** A decoded image: the file it came from, whether it was mirrored, and its
    size in pixels. *)
Record Surface : Type := {
  image : string;
  flip_x : bool;
  get_size : Z * Z
}.

(** [pygame.transform.flip(sprite, True, False)] *)
Definition flip (s : Surface) : Surface :=
  {| image := image s; flip_x := negb (flip_x s); get_size := get_size s |}.

(** [image_size f]: the size of the image in file [f];
    [get_ticks k] and [randint k]: what [pygame.time.get_ticks()] and
    [random.randint(0, 500)] return in the constructor of the [k]-th object
    of a level. *)
Record World : Type := {
  image_size : string -> Z * Z;
  get_ticks : nat -> Z;
  randint : nat -> Z
}.

(** [pygame.image.load(filename).convert_alpha()] *)
Definition image_load (W : World) (filename : string) : Surface :=
  {| image := filename; flip_x := false; get_size := image_size W filename |}.

(** [surf.get_rect(left=x, top=y)] *)
Definition get_rect (s : Surface) (x y : Z) : Rect.t :=
  Rect.mk x y (fst (get_size s)) (snd (get_size s)).

(** ** level_objects.py *)

(** The classes of level objects; each overrides [sprite_filenames] only. *)
Inductive cls : Type := Block | LevelExit | Fire | BlueFire | PlayerCls.

#[global] Instance cls_eq_dec : EqDecision cls.
Proof. solve_decision. Defined.

Definition sprite_filenames (c : cls) : list string :=
  match c with
  | Block => ["sprites/block.png"]
  | LevelExit => ["sprites/door.png"]
  | Fire => ["sprites/fire.png"; "sprites/fire1.png"; "sprites/fire2.png";
             "sprites/fire3.png"; "sprites/fire4.png"; "sprites/fire5.png";
             "sprites/fire6.png"]
  | BlueFire => ["sprites/bluefire.png"; "sprites/bluefire1.png";
                 "sprites/bluefire2.png"; "sprites/bluefire3.png";
                 "sprites/bluefire4.png"; "sprites/bluefire5.png";
                 "sprites/bluefire6.png"]
  | PlayerCls => ["sprites/player.png"; "sprites/player1.png";
                  "sprites/player2.png"; "sprites/player3.png"]
  end%string.

Definition ANIMATION_SPEED : Z := 150.

Module BaseObject.

Record t : Type := mk {
  class_of : cls;
  sprite_size : Z;
  sprites : list Surface;
  sprite_animation_index : Z;
  next_animation_time : Z;
  surf : Surface;
  rect : Rect.t
}.

(** [_load_sprites]: one surface per file name, in order. *)
Definition _load_sprites (W : World) (c : cls) : list Surface :=
  map (image_load W) (sprite_filenames c).

(** [__init__(x, y, sprite_size)] for an object of class [c]; [now] and
    [jitter] are the readings of the clock and of [random.randint(0, 500)].
    [self.sprites[0]] raises on an empty list. *)
Definition __init__ (W : World) (c : cls) (now jitter : Z)
    (x y sprite_size : Z) : result t :=
  let sprites := _load_sprites W c in
  match sprites with
  | [] => Raise IndexError
  | s0 :: _ =>
      Ok {| class_of := c;
            sprite_size := sprite_size;
            sprites := sprites;
            sprite_animation_index := 0;
            next_animation_time := now + jitter;
            surf := s0;
            rect := get_rect s0 x y |}
  end.

(** [animate()], with [now] the reading of [pygame.time.get_ticks()].
    The new index has just been reduced modulo the length, so
    [self.sprites[index]] cannot raise: the lookup's [None] branch is dead
    code (see [animate_lookup]). *)
Definition animate (now : Z) (o : t) : t :=
  if (Z.of_nat (length (sprites o)) >? 1)
     && (now - next_animation_time o >? 0) then
    let index := (sprite_animation_index o + 1)
                 mod Z.of_nat (length (sprites o)) in
    {| class_of := class_of o;
       sprite_size := sprite_size o;
       sprites := sprites o;
       sprite_animation_index := index;
       next_animation_time := next_animation_time o + ANIMATION_SPEED;
       surf := match sprites o !! Z.to_nat index with
               | Some s => s
               | None => surf o
               end;
       rect := rect o |}
  else o.

(** The frame index is a valid position of the frame list. *)
Definition index_in_bounds (o : t) : Prop :=
  0 <= sprite_animation_index o < Z.of_nat (length (sprites o)).

End BaseObject.

(** Key state: the three entries of [pygame.key.get_pressed()] the player
    reads. *)
Record ScancodeWrapper : Type := {
  K_UP : bool;
  K_LEFT : bool;
  K_RIGHT : bool
}.

Module Player.

Definition FALL_ACCELERATION : PyNum.t := PyNum.PyFloat 0x1.3333333333333p-2.
Definition MOVE_SPEED : Z := 2.
Definition JUMP_SPEED : Z := 10.

Record t : Type := mk {
  base : BaseObject.t;
  sprites_right : list Surface;
  sprites_left : list Surface;
  bottom_collision : bool;
  horizontal_speed : Z;
  vertical_speed : PyNum.t
}.

Definition rect (p : t) : Rect.t := BaseObject.rect (base p).

Definition with_rect (r : Rect.t) (p : t) : t :=
  let b := base p in
  {| base := {| BaseObject.class_of := BaseObject.class_of b;
                BaseObject.sprite_size := BaseObject.sprite_size b;
                BaseObject.sprites := BaseObject.sprites b;
                BaseObject.sprite_animation_index :=
                  BaseObject.sprite_animation_index b;
                BaseObject.next_animation_time :=
                  BaseObject.next_animation_time b;
                BaseObject.surf := BaseObject.surf b;
                BaseObject.rect := r |};
     sprites_right := sprites_right p;
     sprites_left := sprites_left p;
     bottom_collision := bottom_collision p;
     horizontal_speed := horizontal_speed p;
     vertical_speed := vertical_speed p |}.

Definition with_sprites (l : list Surface) (p : t) : t :=
  let b := base p in
  {| base := {| BaseObject.class_of := BaseObject.class_of b;
                BaseObject.sprite_size := BaseObject.sprite_size b;
                BaseObject.sprites := l;
                BaseObject.sprite_animation_index :=
                  BaseObject.sprite_animation_index b;
                BaseObject.next_animation_time :=
                  BaseObject.next_animation_time b;
                BaseObject.surf := BaseObject.surf b;
                BaseObject.rect := BaseObject.rect b |};
     sprites_right := sprites_right p;
     sprites_left := sprites_left p;
     bottom_collision := bottom_collision p;
     horizontal_speed := horizontal_speed p;
     vertical_speed := vertical_speed p |}.

Definition with_bottom_collision (b : bool) (p : t) : t :=
  {| base := base p;
     sprites_right := sprites_right p;
     sprites_left := sprites_left p;
     bottom_collision := b;
     horizontal_speed := horizontal_speed p;
     vertical_speed := vertical_speed p |}.

Definition with_horizontal_speed (v : Z) (p : t) : t :=
  {| base := base p;
     sprites_right := sprites_right p;
     sprites_left := sprites_left p;
     bottom_collision := bottom_collision p;
     horizontal_speed := v;
     vertical_speed := vertical_speed p |}.

Definition with_vertical_speed (v : PyNum.t) (p : t) : t :=
  {| base := base p;
     sprites_right := sprites_right p;
     sprites_left := sprites_left p;
     bottom_collision := bottom_collision p;
     horizontal_speed := horizontal_speed p;
     vertical_speed := v |}.

(** [__init__]: the base constructor runs the player's [_load_sprites],
    which keeps the loaded frames as the right-facing set and their mirror
    images as the left-facing set. *)
Definition __init__ (W : World) (now jitter : Z) (x y sprite_size : Z)
    : result t :=
  b ← BaseObject.__init__ W PlayerCls now jitter x y sprite_size;
  Ok {| base := b;
        sprites_right := BaseObject.sprites b;
        sprites_left := map flip (BaseObject.sprites b);
        bottom_collision := false;
        horizontal_speed := 0;
        vertical_speed := PyNum.PyInt 0 |}.

(** Body of the first loop of [_movement_with_collision] (lines 164-175). *)
Definition collide_horizontal (p : t) (level_object : BaseObject.t) : t :=
  let o := BaseObject.rect level_object in
  if Rect.colliderect o (rect p) then
    if (horizontal_speed p >? 0) && (Rect.right (rect p) >=? Rect.left o) then
      let p := with_horizontal_speed 0 p in
      with_rect (Rect.move_ip (Rect.left o - Rect.right (rect p)) 0 (rect p)) p
    else if (horizontal_speed p <? 0)
            && (Rect.left (rect p) <=? Rect.right o) then
      let p := with_horizontal_speed 0 p in
      with_rect (Rect.move_ip (Rect.right o - Rect.left (rect p)) 0 (rect p)) p
    else p
  else p.

(** Body of the second loop (lines 180-194). *)
Definition collide_vertical (p : t) (level_object : BaseObject.t) : t :=
  let o := BaseObject.rect level_object in
  if Rect.colliderect o (rect p) then
    if PyNum.gt0 (vertical_speed p) && (Rect.bottom (rect p) >? Rect.top o) then
      let p := with_vertical_speed (PyNum.PyInt 0) p in
      let p := with_bottom_collision true p in
      with_rect (Rect.move_ip 0 (Rect.top o - Rect.bottom (rect p)) (rect p)) p
    else if PyNum.lt0 (vertical_speed p)
            && (Rect.top (rect p) <=? Rect.bottom o) then
      let p := with_vertical_speed (PyNum.PyInt 0) p in
      with_rect (Rect.move_ip 0 (Rect.bottom o - Rect.top (rect p)) (rect p)) p
    else p
  else p.

(** Lines 162-175: the horizontal move and its collisions. *)
Definition move_horizontal (level_objects : list BaseObject.t) (p : t) : t :=
  let p := with_rect (Rect.move_ip (horizontal_speed p) 0 (rect p)) p in
  foldl collide_horizontal p level_objects.

(** Lines 178-194: the vertical move and its collisions.  [move_ip] reads
    the speed through [PyNum.to_c_int]. *)
Definition move_vertical (level_objects : list BaseObject.t) (p : t)
    : result t :=
  match PyNum.to_c_int (vertical_speed p) with
  | None => Raise Undefined
  | Some dy =>
      let p := with_rect (Rect.move_ip 0 dy (rect p)) p in
      Ok (foldl collide_vertical p level_objects)
  end.

Definition _movement_with_collision (level_objects : list BaseObject.t)
    (p : t) : result t :=
  let p := with_bottom_collision false p in
  let p := move_horizontal level_objects p in
  move_vertical level_objects p.

(** Lines 131-144 of [update]: the speeds and the frame set the pressed keys
    ask for. *)
Definition apply_keys (pressed_keys : ScancodeWrapper) (p : t) : t :=
  let p := with_horizontal_speed 0 p in
  let p := if K_UP pressed_keys && bottom_collision p
           then with_vertical_speed (PyNum.neg (PyNum.PyInt JUMP_SPEED)) p
           else p in
  let p := if K_LEFT pressed_keys
           then with_horizontal_speed (- MOVE_SPEED)
                  (with_sprites (sprites_left p) p)
           else p in
  if K_RIGHT pressed_keys
  then with_horizontal_speed MOVE_SPEED (with_sprites (sprites_right p) p)
  else p.

(** [update(pressed_keys, level_objects)]; [level_objects] are the group's
    sprites in iteration order. *)
Definition update (pressed_keys : ScancodeWrapper)
    (level_objects : list BaseObject.t) (p : t) : result t :=
  let p := apply_keys pressed_keys p in
  p ← _movement_with_collision level_objects p;
  Ok (if negb (bottom_collision p)
      then with_vertical_speed
             (PyNum.add (vertical_speed p) FALL_ACCELERATION) p
      else p).

End Player.

(** ** [pygame.sprite.Group] *)

Module Group.

(** The sprites of a group, as references into the level's store, in the
    order they were added. *)
Abbreviation t := (list nat).

(** What [Group.add] may be handed: a sprite, [None], or a group. *)
Inductive arg : Type :=
| Sprite (r : nat)
| PyNone
| Sprites (g : t).

(** [add_internal] behind [has_internal]: a sprite enters a group once. *)
Definition add_internal (g : t) (r : nat) : t :=
  if decide (r ∈ g) then g else g ++ [r].

(** [g.add(a)].  A sprite is added; a group is iterated and its sprites are
    added one by one; [None] is no sprite and not iterable, and the fallback
    branch's [sprite.add_internal(self)] raises [AttributeError] on it. *)
Definition add (a : arg) (g : t) : result t :=
  match a with
  | Sprite r => Ok (add_internal g r)
  | Sprites g' => Ok (foldl add_internal g g')
  | PyNone => Raise AttributeError
  end.

End Group.

(** ** levels.py *)

Module Level.

(** A stored sprite: a plain level object, or the player. *)
Inductive sprite : Type :=
| Object (o : BaseObject.t)
| ThePlayer (p : Player.t).

Definition base_of (s : sprite) : BaseObject.t :=
  match s with
  | Object o => o
  | ThePlayer p => Player.base p
  end.

Record t : Type := mk {
  name : string;
  _sprite_size : Z;
  store : list sprite;
  player : option nat;
  all_objects : Group.t;
  safe_objects : Group.t;
  traps : Group.t;
  exits : Group.t
}.

Definition with_store (s : list sprite) (lv : t) : t :=
  {| name := name lv; _sprite_size := _sprite_size lv; store := s;
     player := player lv; all_objects := all_objects lv;
     safe_objects := safe_objects lv; traps := traps lv;
     exits := exits lv |}.

Definition with_player (p : option nat) (lv : t) : t :=
  {| name := name lv; _sprite_size := _sprite_size lv; store := store lv;
     player := p; all_objects := all_objects lv;
     safe_objects := safe_objects lv; traps := traps lv;
     exits := exits lv |}.

Definition with_all_objects (g : Group.t) (lv : t) : t :=
  {| name := name lv; _sprite_size := _sprite_size lv; store := store lv;
     player := player lv; all_objects := g;
     safe_objects := safe_objects lv; traps := traps lv;
     exits := exits lv |}.

Definition with_safe_objects (g : Group.t) (lv : t) : t :=
  {| name := name lv; _sprite_size := _sprite_size lv; store := store lv;
     player := player lv; all_objects := all_objects lv;
     safe_objects := g; traps := traps lv;
     exits := exits lv |}.

Definition with_traps (g : Group.t) (lv : t) : t :=
  {| name := name lv; _sprite_size := _sprite_size lv; store := store lv;
     player := player lv; all_objects := all_objects lv;
     safe_objects := safe_objects lv; traps := g;
     exits := exits lv |}.

Definition with_exits (g : Group.t) (lv : t) : t :=
  {| name := name lv; _sprite_size := _sprite_size lv; store := store lv;
     player := player lv; all_objects := all_objects lv;
     safe_objects := safe_objects lv; traps := traps lv;
     exits := g |}.

(** [C(x, y, self._sprite_size)] for a class other than the player: the new
    object gets the next free reference. *)
Definition new_object (W : World) (c : cls) (x y : Z) (lv : t)
    : result (nat * t) :=
  let k := length (store lv) in
  o ← BaseObject.__init__ W c (get_ticks W k) (randint W k) x y
        (_sprite_size lv);
  Ok (k, with_store (store lv ++ [Object o]) lv).

(** [Player(x, y, self._sprite_size)] *)
Definition new_player (W : World) (x y : Z) (lv : t) : result (nat * t) :=
  let k := length (store lv) in
  p ← Player.__init__ W (get_ticks W k) (randint W k) x y (_sprite_size lv);
  Ok (k, with_store (store lv ++ [ThePlayer p]) lv).

(** The message of the configuration error. *)
Definition only_one_player : string :=
  "You can have only one player on the level. Please check your map.".

(** Body of the inner loop of [load_map] (lines 48-71): five independent
    [if]s on the cell. *)
Definition load_cell (W : World) (row_num column_num : Z) (cell : ascii)
    (lv : t) : result t :=
  let x := column_num * _sprite_size lv in
  let y := row_num * _sprite_size lv in
  lv ← (if decide (cell = "B"%char) then
          '(block, lv) ← new_object W Block x y lv;
          g ← Group.add (Group.Sprite block) (safe_objects lv);
          Ok (with_safe_objects g lv)
        else Ok lv);
  lv ← (if decide (cell = "T"%char) then
          '(trap, lv) ← new_object W Fire x y lv;
          g ← Group.add (Group.Sprite trap) (traps lv);
          Ok (with_traps g lv)
        else Ok lv);
  lv ← (if decide (cell = "t"%char) then
          '(trap, lv) ← new_object W BlueFire x y lv;
          g ← Group.add (Group.Sprite trap) (traps lv);
          Ok (with_traps g lv)
        else Ok lv);
  lv ← (if decide (cell = "E"%char) then
          '(level_exit, lv) ← new_object W LevelExit x y lv;
          g ← Group.add (Group.Sprite level_exit) (exits lv);
          Ok (with_exits g lv)
        else Ok lv);
  if decide (cell = "P"%char) then
    match player lv with
    | Some _ =>
        Raise (ValueError only_one_player)
    | None =>
        '(p, lv) ← new_player W x y lv;
        Ok (with_player (Some p) lv)
    end
  else Ok lv.

(** [for column_num, cell in enumerate(row)] *)
Fixpoint load_row (W : World) (row_num column_num : Z) (row : list ascii)
    (lv : t) : result t :=
  match row with
  | [] => Ok lv
  | cell :: row =>
      lv ← load_cell W row_num column_num cell lv;
      load_row W row_num (column_num + 1) row lv
  end.

(** [for row_num, row in enumerate(level_map)] *)
Fixpoint load_rows (W : World) (row_num : Z) (level_map : list (list ascii))
    (lv : t) : result t :=
  match level_map with
  | [] => Ok lv
  | row :: level_map =>
      lv ← load_row W row_num 0 row lv;
      load_rows W (row_num + 1) level_map lv
  end.

(** The argument [self.player] of [Group.add]. *)
Definition player_arg (lv : t) : Group.arg :=
  match player lv with
  | Some p => Group.Sprite p
  | None => Group.PyNone
  end.

(** The level [__init__] hands to [load_map]: no player, empty groups. *)
Definition blank (name : string) (sprite_size : Z) : t :=
  {| name := name; _sprite_size := sprite_size; store := [];
     player := None; all_objects := []; safe_objects := [];
     traps := []; exits := [] |}.

(** [load_map], from the rows [_read_from_file] returns: one list of
    characters per line of the map file, each line stripped of the blanks
    around it (reading the file is left outside). *)
Definition load_map (W : World) (level_map : list (list ascii)) (lv : t)
    : result t :=
  lv ← load_rows W 0 level_map lv;
  g ← Group.add (player_arg lv) (all_objects lv);
  g ← Group.add (Group.Sprites (safe_objects lv)) g;
  g ← Group.add (Group.Sprites (traps lv)) g;
  g ← Group.add (Group.Sprites (exits lv)) g;
  Ok (with_all_objects g lv).

(** [Level(name, map_filename, sprite_size)], with [level_map] the rows of
    the map file.  An exception leaves the caller without a level. *)
Definition __init__ (W : World) (name : string)
    (level_map : list (list ascii)) (sprite_size : Z) : result t :=
  load_map W level_map (blank name sprite_size).

(** [obj.animate()] on a stored sprite. *)
Definition animate_sprite (now : Z) (s : sprite) : sprite :=
  match s with
  | Object o => Object (BaseObject.animate now o)
  | ThePlayer p =>
      ThePlayer
        {| Player.base := BaseObject.animate now (Player.base p);
           Player.sprites_right := Player.sprites_right p;
           Player.sprites_left := Player.sprites_left p;
           Player.bottom_collision := Player.bottom_collision p;
           Player.horizontal_speed := Player.horizontal_speed p;
           Player.vertical_speed := Player.vertical_speed p |}
  end.

(** The sprites of a group, looked up in the store. *)
Definition sprites_of (lv : t) (g : Group.t) : list BaseObject.t :=
  omap (fun r => base_of <$> store lv !! r) g.

(** [for obj in self.all_objects: obj.animate()]; the [k]-th call reads the
    clock as [now k]. *)
Fixpoint animate_all (now : nat -> Z) (k : nat) (g : Group.t)
    (s : list sprite) : list sprite :=
  match g with
  | [] => s
  | r :: g => animate_all now (S k) g (alter (animate_sprite (now k)) r s)
  end.

(** [update(pressed_keys)].  With no player, [self.player.update] raises
    [AttributeError]. *)
Definition update (now : nat -> Z) (pressed_keys : ScancodeWrapper) (lv : t)
    : result t :=
  match player lv with
  | None => Raise AttributeError
  | Some r =>
      match store lv !! r with
      | Some (ThePlayer p) =>
          p ← Player.update pressed_keys (sprites_of lv (safe_objects lv)) p;
          let s := <[r := ThePlayer p]> (store lv) in
          Ok (with_store (animate_all now 0 (all_objects lv) s) lv)
      | _ => Raise AttributeError
      end
  end.

(** Class and screen position (left, top) of the sprite behind a
    reference. *)
Definition entity_at (lv : t) (r : nat) : option (cls * (Z * Z)) :=
  s ← store lv !! r;
  Some (BaseObject.class_of (base_of s),
        (Rect.left (BaseObject.rect (base_of s)),
         Rect.top (BaseObject.rect (base_of s)))).

(** The sprites of a group, each with its class and position. *)
Definition describe (lv : t) (g : Group.t) : list (option (cls * (Z * Z))) :=
  map (entity_at lv) g.

(** The two loops of [load_map] as one pass over the cells in scan order,
    each with its row and column number. *)
Fixpoint load_cells (W : World) (cells : list (Z * Z * ascii)) (lv : t)
    : result t :=
  match cells with
  | [] => Ok lv
  | (row_num, column_num, cell) :: cells =>
      lv ← load_cell W row_num column_num cell lv;
      load_cells W cells lv
  end.

End Level.

(** ** Observations on a level map *)

(** Number of cells holding the character [ch]. *)
Definition count_cells (ch : ascii) (level_map : list (list ascii)) : nat :=
  length (filter (fun c => c = ch) (concat level_map)).

(** The character at row [r], column [c], if the map has such a cell. *)
Definition cell_at (level_map : list (list ascii)) (r c : nat)
    : option ascii :=
  row ← level_map !! r;
  row !! c.

(** The characters that create an object. *)
Definition is_entity (ch : ascii) : bool :=
  bool_decide (ch ∈ ["B"; "T"; "t"; "E"; "P"]%char).

(** The class [load_cell] instantiates for a character. *)
Definition cell_class (ch : ascii) : option cls :=
  if decide (ch = "B"%char) then Some Block
  else if decide (ch = "T"%char) then Some Fire
  else if decide (ch = "t"%char) then Some BlueFire
  else if decide (ch = "E"%char) then Some LevelExit
  else if decide (ch = "P"%char) then Some PlayerCls
  else None.

(** [enumerate(row)] from [column_num] on, tagged with the row number. *)
Fixpoint row_cells (row_num column_num : Z) (row : list ascii)
    : list (Z * Z * ascii) :=
  match row with
  | [] => []
  | cell :: row =>
      (row_num, column_num, cell) :: row_cells row_num (column_num + 1) row
  end.

(** The cells of a map in scan order: row by row, left to right. *)
Fixpoint map_cells (row_num : Z) (level_map : list (list ascii))
    : list (Z * Z * ascii) :=
  match level_map with
  | [] => []
  | row :: level_map =>
      row_cells row_num 0 row ++ map_cells (row_num + 1) level_map
  end.

(** The objects a scan of [cells] creates among the classes [keep], in
    order: class and screen position. *)
Definition entities (size : Z) (keep : cls -> bool)
    (cells : list (Z * Z * ascii)) : list (cls * (Z * Z)) :=
  omap (fun '(row_num, column_num, cell) =>
          c ← cell_class cell;
          if keep c then Some (c, (column_num * size, row_num * size))
          else None) cells.

Definition is_block (c : cls) : bool :=
  match c with Block => true | _ => false end.
Definition is_trap (c : cls) : bool :=
  match c with Fire | BlueFire => true | _ => false end.
Definition is_exit (c : cls) : bool :=
  match c with LevelExit => true | _ => false end.
Definition is_player (c : cls) : bool :=
  match c with PlayerCls => true | _ => false end.

(** What holds of the level after [load_map] has scanned the cells [done]:
    each group lists, in scan order, the objects of its classes at their
    cells' positions; the store holds one object per entity cell. *)
Record scanned (size : Z) (nm : string) (done : list (Z * Z * ascii))
    (lv : Level.t) : Prop := {
  scanned_size : Level._sprite_size lv = size;
  scanned_name : Level.name lv = nm;
  scanned_all : Level.all_objects lv = [];
  scanned_safe :
    Level.describe lv (Level.safe_objects lv)
    = Some <$> entities size is_block done;
  scanned_traps :
    Level.describe lv (Level.traps lv) = Some <$> entities size is_trap done;
  scanned_exits :
    Level.describe lv (Level.exits lv) = Some <$> entities size is_exit done;
  scanned_player :
    Level.describe lv (option_list (Level.player lv))
    = Some <$> entities size is_player done;
  scanned_store :
    length (Level.store lv) = length (entities size (fun _ => true) done);
  scanned_nodup :
    NoDup (Level.safe_objects lv) /\ NoDup (Level.traps lv)
    /\ NoDup (Level.exits lv)
}.

(** ** Repeated calls *)

(** [animate] called once per reading of [times], in order. *)
Definition animate_calls (times : list Z) (o : BaseObject.t) : BaseObject.t :=
  foldl (fun o now => BaseObject.animate now o) o times.

(** ** Sample inputs *)

(** A world with 32 by 32 images, a clock at 1000 ms and jitters 0, 7, 14,
    and so on. *)
Definition sample_world : World :=
  {| image_size := fun _ => (32, 32);
     get_ticks := fun _ => 1000;
     randint := fun k => 7 * Z.of_nat k |}.

(** What [C(x, y, 32)] builds in the sample world, with jitter 0. *)
Definition sample_object (c : cls) (x y : Z) : BaseObject.t :=
  let s := BaseObject._load_sprites sample_world c in
  {| BaseObject.class_of := c;
     BaseObject.sprite_size := 32;
     BaseObject.sprites := s;
     BaseObject.sprite_animation_index := 0;
     BaseObject.next_animation_time := 1000;
     BaseObject.surf :=
       image_load sample_world (default "" (head (sprite_filenames c)));
     BaseObject.rect := Rect.mk x y 32 32 |}.

(** The sample player: 32 by 32, at (0, 0), at rest. *)
Definition sample_player : Player.t :=
  {| Player.base := sample_object PlayerCls 0 0;
     Player.sprites_right := BaseObject._load_sprites sample_world PlayerCls;
     Player.sprites_left :=
       map flip (BaseObject._load_sprites sample_world PlayerCls);
     Player.bottom_collision := false;
     Player.horizontal_speed := 0;
     Player.vertical_speed := PyNum.PyInt 0 |}.

Definition no_keys : ScancodeWrapper :=
  {| K_UP := false; K_LEFT := false; K_RIGHT := false |}.

Definition key_up : ScancodeWrapper :=
  {| K_UP := true; K_LEFT := false; K_RIGHT := false |}.

Definition key_right : ScancodeWrapper :=
  {| K_UP := false; K_LEFT := false; K_RIGHT := true |}.

(** Three maps, as rows without surrounding blanks ("." is an empty tile):
    one with two player cells, one without any, and one with a block, a
    player, an exit and two traps. *)
Definition map_two_players : list (list ascii) :=
  [["."; "P"; "."; "P"]; ["B"; "B"; "B"; "B"]]%char.

Definition map_no_player : list (list ascii) :=
  [["."; "."; "E"]; ["B"; "T"; "t"]]%char.

Definition map_one_each : list (list ascii) :=
  [["."; "P"; "."; "E"]; ["T"; "B"; "t"]]%char.

(** ** Reading the map file *)

(** Python strings as lists of characters; a character is a code point
    below 256.  [text] arguments are the file's content as decoded
    characters. *)
Module PyStr.

Definition LF : ascii := "010"%char.
Definition CR : ascii := "013"%char.

(** [c.isspace()] on code points below 256: tab to carriage return, the
    separators 28 to 31, the space, NEL (133) and the no-break space
    (160). *)
Definition isspace (c : ascii) : bool :=
  let n := N_of_ascii c in
  ((9 <=? n) && (n <=? 13) || (28 <=? n) && (n <=? 32)
   || (n =? 133) || (n =? 160))%N.

(** [s.lstrip()] *)
Fixpoint lstrip (s : list ascii) : list ascii :=
  match s with
  | [] => []
  | c :: s' => if isspace c then lstrip s' else s
  end.

(** [s.rstrip()]: a character stays when it is no blank or when something
    stays after it. *)
Fixpoint rstrip (s : list ascii) : list ascii :=
  match s with
  | [] => []
  | c :: s' =>
      match rstrip s' with
      | [] => if isspace c then [] else [c]
      | r => c :: r
      end
  end.

(** [s.strip()] *)
Definition strip (s : list ascii) : list ascii := rstrip (lstrip s).

(** What a file opened in text mode hands out: "\r\n" and a lone "\r"
    read as "\n" (universal newlines). *)
Fixpoint universal_newlines (s : list ascii) : list ascii :=
  match s with
  | [] => []
  | c :: s' =>
      if decide (c = CR) then
        LF :: match s' with
              | c' :: s'' =>
                  if decide (c' = LF) then universal_newlines s''
                  else universal_newlines s'
              | [] => []
              end
      else c :: universal_newlines s'
  end.

(** [f.readlines()] on translated text: a line ends with its "\n", which it
    keeps; the last line may have none.  [line] holds the characters of the
    current line read so far. *)
Fixpoint readlines_from (line s : list ascii) : list (list ascii) :=
  match s with
  | [] => match line with [] => [] | _ => [line] end
  | c :: s' =>
      if decide (c = LF) then (line ++ [c]) :: readlines_from [] s'
      else readlines_from (line ++ [c]) s'
  end.

Definition readlines (s : list ascii) : list (list ascii) :=
  readlines_from [] s.

End PyStr.

Module MapFile.

(** [Level._read_from_file(filename)], with [text] the content of the
    file: [[list(row.strip()) for row in f.readlines()]]. *)
Definition _read_from_file (text : list ascii) : list (list ascii) :=
  map PyStr.strip (PyStr.readlines (PyStr.universal_newlines text)).

(** [Level(name, map_filename, sprite_size)] from the content of the map
    file. *)
Definition open_level (W : World) (name : string) (text : list ascii)
    (sprite_size : Z) : result Level.t :=
  Level.__init__ W name (_read_from_file text) sprite_size.

(** A map file written row by row: each row between blanks [pre] and
    [post], closed by a newline. *)
Definition write_rows (rows : list (list ascii * list ascii * list ascii))
    : list ascii :=
  concat (map (fun '(pre, row, post) => pre ++ row ++ post ++ [PyStr.LF])
            rows).

(** Blanks that stay inside one line. *)
Definition padding (s : list ascii) : Prop :=
  Forall (fun c => PyStr.isspace c = true
                   /\ c <> PyStr.LF /\ c <> PyStr.CR) s.

(** A row as [strip] leaves it: no newline inside, no blank at either
    end. *)
Definition stripped_row (row : list ascii) : Prop :=
  Forall (fun c => c <> PyStr.LF /\ c <> PyStr.CR) row
  /\ (forall c, head row = Some c -> PyStr.isspace c = false)
  /\ (forall c, last row = Some c -> PyStr.isspace c = false).

End MapFile.

(** The text of a map file: an indented first row with a trailing blank, a
    second row ending in "\r\n". *)
Definition sample_map_text : list ascii :=
  String.list_ascii_of_string "  .P.E " ++ [PyStr.LF]
  ++ String.list_ascii_of_string "TBt" ++ [PyStr.CR; PyStr.LF].

(** ** Several frames of the player *)

(** [update] once per entry of [keys], against the same solids; the states
    after each frame, in order. *)
Fixpoint player_frames (keys : list ScancodeWrapper)
    (level_objects : list BaseObject.t) (p : Player.t)
    : result (list Player.t) :=
  match keys with
  | [] => Ok []
  | k :: keys =>
      p ← Player.update k level_objects p;
      ps ← player_frames keys level_objects p;
      Ok (p :: ps)
  end.

(** The horizontal speed the pressed keys ask for (lines 131-144). *)
Definition key_speed (keys : ScancodeWrapper) : Z :=
  if K_RIGHT keys then Player.MOVE_SPEED
  else if K_LEFT keys then - Player.MOVE_SPEED
  else 0.

(** What the player looks like: its frame sets, the frame on display and
    the animation clock. *)
Definition look (p : Player.t)
    : list Surface * Z * Z * Surface * list Surface * list Surface :=
  (BaseObject.sprites (Player.base p),
   BaseObject.sprite_animation_index (Player.base p),
   BaseObject.next_animation_time (Player.base p),
   BaseObject.surf (Player.base p),
   Player.sprites_right p, Player.sprites_left p).

(** The player's two frame sets are as long as the frame list in use. *)
Definition same_frame_count (p : Player.t) : Prop :=
  length (Player.sprites_left p)
  = length (BaseObject.sprites (Player.base p))
  /\ length (Player.sprites_right p)
     = length (BaseObject.sprites (Player.base p)).

(** ** Levels in play *)

(** The store keeps the player as the player and everything else as a plain
    object. *)
Definition stored_by_class (lv : Level.t) : Prop :=
  Forall (fun s =>
    match s with
    | Level.Object o => BaseObject.class_of o <> PlayerCls
    | Level.ThePlayer p => BaseObject.class_of (Player.base p) = PlayerCls
    end) (Level.store lv).

(** A level one can play: its player reference leads to the player,
    [all_objects] lists the player and then the three groups without
    repeats, and the sprites of the groups are plain objects. *)
Record playable (lv : Level.t) : Prop := {
  playable_player :
    exists r p,
      Level.player lv = Some r
      /\ Level.store lv !! r = Some (Level.ThePlayer p)
      /\ Level.all_objects lv
         = r :: Level.safe_objects lv ++ Level.traps lv ++ Level.exits lv;
  playable_static :
    Forall (fun r => exists o, Level.store lv !! r = Some (Level.Object o))
      (Level.safe_objects lv ++ Level.traps lv ++ Level.exits lv);
  playable_all : NoDup (Level.all_objects lv)
}.

(** [update] once per frame: the keys held in the frame and the clock
    readings of its [animate] calls. *)
Fixpoint level_frames (frames : list (ScancodeWrapper * (nat -> Z)))
    (lv : Level.t) : result Level.t :=
  match frames with
  | [] => Ok lv
  | (keys, now) :: frames =>
      lv ← Level.update now keys lv;
      level_frames frames lv
  end.

(** Two states of one sprite that differ by animation only: same kind,
    same class, same box, and for the player the same speeds and flag. *)
Definition same_place (s s' : Level.sprite) : Prop :=
  match s, s' with
  | Level.Object o, Level.Object o' =>
      BaseObject.rect o' = BaseObject.rect o
      /\ BaseObject.class_of o' = BaseObject.class_of o
  | Level.ThePlayer p, Level.ThePlayer p' =>
      Player.rect p' = Player.rect p
      /\ Player.horizontal_speed p' = Player.horizontal_speed p
      /\ Player.vertical_speed p' = Player.vertical_speed p
      /\ Player.bottom_collision p' = Player.bottom_collision p
  | _, _ => False
  end.

(** ** main.py *)

Module Main.

Definition SPRITE_SIZE : Z := 32.
Definition GREEN : Z * Z * Z := (95, 133, 117).
Definition RED : Z * Z * Z := (255, 69, 0).

(** An event of [pygame.event.get()], by its type. *)
Inductive event : Type := QUIT | OtherEvent.

Definition is_QUIT (e : event) : bool :=
  match e with QUIT => true | OtherEvent => false end.

(** What one pass of the loop of [play] reads from outside: the queued
    events, the held keys, and the clock readings of the pass's [animate]
    calls. *)
Record frame : Type := {
  events : list event;
  pressed_keys : ScancodeWrapper;
  ticks : nat -> Z
}.

(** What reaches the screen: the message screen of a [show_message] call,
    or the [blit]s of one pass of the loop, shown by its [flip]. *)
Inductive shown : Type :=
| Message (text : string) (text_color : Z * Z * Z)
| Frame (blits : list (Surface * Rect.t)).

(** How [play] ends: it returns, [sys.exit()] raises [SystemExit], another
    exception escapes, or the frames we follow have run out and the loop
    waits for its next pass. *)
Inductive outcome : Type :=
| Returns (win : bool)
| SystemExit
| Raises (e : exn)
| Running (level : Level.t).

(** [pygame.sprite.spritecollideany(sprite, group)]: [sprite.rect] is read
    first, which raises on [None]; then the first sprite of the group
    whose box [sprite.rect.colliderect] accepts is returned, or [None].  A
    reference outside the store stands for no sprite. *)
Definition spritecollideany (lv : Level.t) (sprite : option nat)
    (group : Group.t) : result (option BaseObject.t) :=
  match sprite with
  | None => Raise AttributeError
  | Some r =>
      match Level.store lv !! r with
      | None => Raise AttributeError
      | Some s =>
          Ok (List.find
                (fun group_sprite =>
                   Rect.colliderect (BaseObject.rect (Level.base_of s))
                     (BaseObject.rect group_sprite))
                (Level.sprites_of lv group))
      end
  end.

(** The [while True] loop of [play], one pass per frame.  A sprite is
    true as a condition, [None] is false. *)
Fixpoint play_loop (frames : list frame) (level : Level.t)
    : outcome * list shown :=
  match frames with
  | [] => (Running level, [])
  | f :: frames =>
      if existsb is_QUIT (events f) then (SystemExit, [])
      else
        match spritecollideany level (Level.player level)
                (Level.exits level) with
        | Raise e => (Raises e, [])
        | Ok (Some _) =>
            (Returns true,
             [Message ("You've completed " +:+ Level.name level +:+ ".")
                GREEN])
        | Ok None =>
            match spritecollideany level (Level.player level)
                    (Level.traps level) with
            | Raise e => (Raises e, [])
            | Ok (Some _) => (Returns false, [Message "GAME OVER" RED])
            | Ok None =>
                let blits :=
                  map (fun entity =>
                         (BaseObject.surf entity, BaseObject.rect entity))
                    (Level.sprites_of level (Level.all_objects level)) in
                match Level.update (ticks f) (pressed_keys f) level with
                | Raise e => (Raises e, [])
                | Ok level =>
                    let '(o, out) := play_loop frames level in
                    (o, Frame blits :: out)
                end
            end
        end
  end.

(** [play(level)]: the level's name is shown, then the loop runs. *)
Definition play (frames : list frame) (level : Level.t)
    : outcome * list shown :=
  let '(o, out) := play_loop frames level in
  (o, Message (Level.name level) GREEN :: out).

(** The keys and clock readings [Level.update] is given in each pass. *)
Definition inputs_of (frames : list frame)
    : list (ScancodeWrapper * (nat -> Z)) :=
  map (fun f => (pressed_keys f, ticks f)) frames.

(** The player's box meets the box of a sprite of the group. *)
Definition overlaps (lv : Level.t) (group : Group.t) : Prop :=
  exists r s o,
    Level.player lv = Some r /\ Level.store lv !! r = Some s
    /\ o ∈ Level.sprites_of lv group
    /\ Rect.colliderect (BaseObject.rect (Level.base_of s))
         (BaseObject.rect o) = true.

(** No pass of [frames] has a [QUIT] event queued. *)
Definition no_QUIT (frames : list frame) : Prop :=
  Forall (fun f => existsb is_QUIT (events f) = false) frames.

(** In none of the first [n] passes does the player meet an exit or a
    trap: the level as it is after [k] updates, for every [k] below [n]. *)
Definition untouched (frames : list frame) (lv : Level.t) (n : nat) : Prop :=
  forall k lvk,
    (k < n)%nat ->
    level_frames (inputs_of (take k frames)) lv = Ok lvk ->
    ~ overlaps lvk (Level.exits lvk) /\ ~ overlaps lvk (Level.traps lvk).

(** What decides a level: an exit is met, or a trap and no exit. *)
Definition decided (lv : Level.t) (win : bool) : Prop :=
  if win then overlaps lv (Level.exits lv)
  else overlaps lv (Level.traps lv) /\ ~ overlaps lv (Level.exits lv).

(** The message screen that ends a level. *)
Definition verdict (name : string) (win : bool) : shown :=
  if win then Message ("You've completed " +:+ name +:+ ".") GREEN
  else Message "GAME OVER" RED.

(** *** The script *)

(** What one round of the [while not win] loop reads from outside: the
    files as they are when the level is built, the world its sprites are
    built in, and the passes of its [play]. *)
Record attempt : Type := {
  files : string -> option (list ascii);
  world : World;
  passes : list frame
}.

(** How the script ends: [sys.exit()] raises [SystemExit], [open] finds no
    file, another exception escapes, or the attempts we follow have run
    out.  The script has no other end. *)
Inductive ending : Type :=
| Exits
| FileNotFoundError (file_name : string)
| Fails (e : exn)
| Waits.

Definition levels : list string := ["maps/level1.txt"; "maps/level2.txt"].

Definition VICTORY : shown :=
  Message "VICTORY! You've finished the game." GREEN.

(** [str(i)] *)
Definition str (i : nat) : string := NilZero.string_of_uint (Nat.to_uint i).

(** [enumerate(l, start)] *)
Fixpoint enumerate {A : Type} (l : list A) (start : nat) : list (nat * A) :=
  match l with
  | [] => []
  | x :: l => (start, x) :: enumerate l (S start)
  end.

(** [win = False; while not win: ...] for the level [name] of [file_name]:
    the ending if the script ends in the loop, [None] once an attempt is
    won; with what was shown and the attempts left. *)
Fixpoint while_not_win (name file_name : string) (attempts : list attempt)
    : option ending * list shown * list attempt :=
  match attempts with
  | [] => (Some Waits, [], [])
  | a :: attempts =>
      match files a file_name with
      | None => (Some (FileNotFoundError file_name), [], attempts)
      | Some text =>
          match MapFile.open_level (world a) name text SPRITE_SIZE with
          | Raise e => (Some (Fails e), [], attempts)
          | Ok current_level =>
              match play (passes a) current_level with
              | (Returns true, out) => (None, out, attempts)
              | (Returns false, out) =>
                  let '(e, out', rest) :=
                    while_not_win name file_name attempts in
                  (e, out ++ out', rest)
              | (SystemExit, out) => (Some Exits, out, attempts)
              | (Raises e, out) => (Some (Fails e), out, attempts)
              | (Running _, out) => (Some Waits, out, attempts)
              end
          end
      end
  end.

(** [for i, file_name in enumerate(levels, start=1): ...], then the
    victory message and [sys.exit()]. *)
Fixpoint for_levels (levels : list (nat * string)) (attempts : list attempt)
    : ending * list shown :=
  match levels with
  | [] => (Exits, [VICTORY])
  | (i, file_name) :: levels =>
      match while_not_win ("Level " +:+ str i) file_name attempts with
      | (Some e, out, _) => (e, out)
      | (None, out, attempts) =>
          let '(e, out') := for_levels levels attempts in
          (e, out ++ out')
      end
  end.

Definition main (attempts : list attempt) : ending * list shown :=
  for_levels (enumerate levels 1) attempts.

(** What [play] shows for a level called [name]. *)
Definition level_shown (name : string) (s : shown) : Prop :=
  s = Message name GREEN \/ (exists blits, s = Frame blits)
  \/ s = verdict name true \/ s = verdict name false.


End Main.

(** A map whose player stands next to the exit. *)
Definition map_player_exit : list (list ascii) := [["P"; "E"]]%char.

(** An attempt in which both map files hold the row "PE" and the right key
    is held for three passes. *)
Definition sample_attempt : Main.attempt :=
  {| Main.files := fun _ => Some ["P"; "E"; PyStr.LF]%char;
     Main.world := sample_world;
     Main.passes :=
       replicate 3 {| Main.events := []; Main.pressed_keys := key_right;
                      Main.ticks := fun _ => 1200 |} |}.

(** Frames in which only the right key is held and nothing is queued. *)
Definition run_right (n : nat) : list Main.frame :=
  replicate n {| Main.events := []; Main.pressed_keys := key_right;
                 Main.ticks := fun _ => 1200 |}.

(** ** Proof automation *)

(** Unfolds the player's field updates and projects through them. *)
Ltac player_simpl :=
  unfold Player.rect, Player.with_rect, Player.with_horizontal_speed,
    Player.with_vertical_speed, Player.with_bottom_collision,
    Player.with_sprites in *;
  cbn [Player.base Player.sprites_right Player.sprites_left
       Player.bottom_collision Player.horizontal_speed Player.vertical_speed
       BaseObject.rect BaseObject.sprites BaseObject.class_of
       BaseObject.sprite_size BaseObject.sprite_animation_index
       BaseObject.next_animation_time BaseObject.surf
       Rect.move_ip Rect.x Rect.y Rect.w Rect.h] in *.

(* ===================================================================== *)
(** * Properties *)
(* ===================================================================== *)

(** ** The sample inputs are what the constructors build *)

Lemma sample_object_built (c : cls) (x y : Z) :
  BaseObject.__init__ sample_world c 1000 0 x y 32 = Ok (sample_object c x y).
Proof. by destruct c. Qed.

Lemma sample_player_built :
  Player.__init__ sample_world 1000 0 0 0 32 = Ok sample_player.
Proof. reflexivity. Qed.

(** ** Animation *)

Section Animate.

Import BaseObject.

Implicit Types (o : BaseObject.t) (now : Z).

Lemma animate_due now o :
  1 < Z.of_nat (length (sprites o)) ->
  next_animation_time o < now ->
  animate now o =
    let index := (sprite_animation_index o + 1)
                 mod Z.of_nat (length (sprites o)) in
    {| class_of := class_of o;
       sprite_size := sprite_size o;
       sprites := sprites o;
       sprite_animation_index := index;
       next_animation_time := next_animation_time o + ANIMATION_SPEED;
       surf := match sprites o !! Z.to_nat index with
               | Some s => s
               | None => surf o
               end;
       rect := rect o |}.
Proof.
  intros Hn Hd. unfold animate.
  replace (Z.of_nat (length (sprites o)) >? 1) with true
    by (symmetry; apply Z.gtb_lt; lia).
  replace (now - next_animation_time o >? 0) with true
    by (symmetry; apply Z.gtb_lt; lia).
  reflexivity.
Qed.

Lemma animate_idle now o :
  Z.of_nat (length (sprites o)) <= 1 \/ now <= next_animation_time o ->
  animate now o = o.
Proof.
  intros H. unfold animate.
  destruct H as [H | H].
  - replace (Z.of_nat (length (sprites o)) >? 1) with false; [done |].
    symmetry. rewrite Z.gtb_ltb. apply Z.ltb_ge. lia.
  - replace (now - next_animation_time o >? 0) with false.
    + by rewrite andb_false_r.
    + symmetry. rewrite Z.gtb_ltb. apply Z.ltb_ge. lia.
Qed.

(** The frame list is never changed by [animate]. *)
Lemma animate_sprites now o : sprites (animate now o) = sprites o.
Proof. unfold animate. by case_match. Qed.

(** The lookup [self.sprites[index]] of [animate] always finds a frame: the
    displayed surface is the frame at the new index. *)
Lemma animate_lookup now o :
  1 < Z.of_nat (length (sprites o)) ->
  next_animation_time o < now ->
  sprites o !! Z.to_nat (sprite_animation_index (animate now o))
  = Some (surf (animate now o)).
Proof.
  intros Hn Hd. rewrite (animate_due now o Hn Hd). cbn.
  set (i := (sprite_animation_index o + 1) mod _).
  assert (Hi : 0 <= i < Z.of_nat (length (sprites o)))
    by (apply Z.mod_pos_bound; lia).
  destruct (lookup_lt_is_Some_2 (sprites o) (Z.to_nat i)) as [s Hs]; [lia |].
  by rewrite Hs.
Qed.

(** [k] calls, each at a time when at least [k] cadence intervals have gone
    by since the due time, advance the index [k] times. *)
Lemma animate_calls_catch_up (times : list Z) o :
  1 < Z.of_nat (length (sprites o)) ->
  Forall (fun now =>
    next_animation_time o + Z.of_nat (length times) * ANIMATION_SPEED <= now)
    times ->
  sprite_animation_index (animate_calls times o)
  = (if decide (times = []) then sprite_animation_index o
     else (sprite_animation_index o + Z.of_nat (length times))
          mod Z.of_nat (length (sprites o)))
  /\ next_animation_time (animate_calls times o)
     = next_animation_time o + Z.of_nat (length times) * ANIMATION_SPEED.
Proof.
  revert o. induction times as [| now times IH]; intros o Hn Hall.
  - cbn. split; [done | lia].
  - apply Forall_cons in Hall as [Hnow Hall].
    unfold animate_calls in *. cbn [foldl].
    assert (Hc : 0 < ANIMATION_SPEED) by done.
    assert (Hdue : next_animation_time o < now).
    { rewrite length_cons in Hnow. nia. }
    pose proof (animate_due now o Hn Hdue) as Hstep. cbn zeta in Hstep.
    destruct (IH (animate now o)) as [IHi IHt].
    { by rewrite animate_sprites. }
    { eapply Forall_impl; [exact Hall |]. intros t Ht. cbn beta in *.
      rewrite Hstep. cbn. rewrite length_cons in Ht. lia. }
    rewrite (decide_False (P := now :: times = [])) by done.
    rewrite IHi, IHt, animate_sprites, Hstep.
    cbn [sprite_animation_index next_animation_time].
    rewrite length_cons.
    split; [| lia].
    destruct (decide (times = [])) as [-> | _].
    + reflexivity.
    + rewrite Zplus_mod_idemp_l. f_equal. lia.
Qed.

(** C5: an animator with at least two frames, queried at a time at or after
    its due time plus the cadence, moves to the next frame exactly once,
    wrapping modulo the frame count, shows that frame, and its next due time
    is the previous due time plus the cadence, whatever the current time.
    Calls that come after [k] cadence intervals have gone by catch up one
    frame per call: [k] such calls advance the index [k] times and the due
    time by [k] cadences. *)
Theorem animate_advances_once now o :
  (2 <= length (sprites o))%nat ->
  next_animation_time o + ANIMATION_SPEED <= now ->
  sprite_animation_index (animate now o)
  = (sprite_animation_index o + 1) mod Z.of_nat (length (sprites o))
  /\ next_animation_time (animate now o)
     = next_animation_time o + ANIMATION_SPEED
  /\ sprites o !! Z.to_nat (sprite_animation_index (animate now o))
     = Some (surf (animate now o))
  /\ (forall times : list Z,
      times <> [] ->
      Forall (fun t =>
        next_animation_time o + Z.of_nat (length times) * ANIMATION_SPEED
        <= t) times ->
      sprite_animation_index (animate_calls times o)
      = (sprite_animation_index o + Z.of_nat (length times))
        mod Z.of_nat (length (sprites o))
      /\ next_animation_time (animate_calls times o)
         = next_animation_time o
           + Z.of_nat (length times) * ANIMATION_SPEED).
Proof.
  intros Hn Hnow.
  assert (Hn' : 1 < Z.of_nat (length (sprites o))) by lia.
  assert (Hdue : next_animation_time o < now).
  { unfold ANIMATION_SPEED in Hnow. lia. }
  split_and!.
  - by rewrite (animate_due now o Hn' Hdue).
  - by rewrite (animate_due now o Hn' Hdue).
  - by apply animate_lookup.
  - intros times Hne Hall.
    destruct (animate_calls_catch_up times o Hn' Hall) as [Hi Ht].
    by rewrite decide_False in Hi.
Qed.

Lemma __init___ok (W : World) (c : cls) (now jitter x y size : Z) :
  exists s0 rest,
    _load_sprites W c = s0 :: rest
    /\ __init__ W c now jitter x y size =
       Ok {| class_of := c;
             sprite_size := size;
             sprites := s0 :: rest;
             sprite_animation_index := 0;
             next_animation_time := now + jitter;
             surf := s0;
             rect := get_rect s0 x y |}.
Proof. destruct c; do 2 eexists; split; reflexivity. Qed.

Lemma animate_index_in_bounds now o :
  index_in_bounds o -> index_in_bounds (animate now o).
Proof.
  unfold index_in_bounds, animate. intros Hb.
  case_match eqn:Hc; [| done]. cbn.
  apply Z.mod_pos_bound.
  apply andb_true_iff in Hc as [Hc _]. apply Z.gtb_lt in Hc. lia.
Qed.

End Animate.

(** C9: the frame index of every entity is a valid position of its frame
    list when the entity is constructed (constructing never fails), and each
    call of [animate] keeps it so, at every current time; so it stays valid
    over any sequence of calls. *)
Theorem index_in_bounds_invariant :
  (forall W c now jitter x y size,
      exists o, BaseObject.__init__ W c now jitter x y size = Ok o
                /\ BaseObject.index_in_bounds o)
  /\ (forall W now jitter x y size,
      exists p, Player.__init__ W now jitter x y size = Ok p
                /\ BaseObject.index_in_bounds (Player.base p))
  /\ (forall now o,
      BaseObject.index_in_bounds o ->
      BaseObject.index_in_bounds (BaseObject.animate now o))
  /\ (forall times o,
      BaseObject.index_in_bounds o ->
      BaseObject.index_in_bounds (animate_calls times o)).
Proof.
  split_and!.
  - intros. destruct (__init___ok W c now jitter x y size)
      as (s0 & rest & _ & ->).
    eexists. split; [done |]. unfold BaseObject.index_in_bounds. cbn. lia.
  - intros. unfold Player.__init__.
    destruct (__init___ok W PlayerCls now jitter x y size)
      as (s0 & rest & _ & ->).
    eexists. split; [done |]. unfold BaseObject.index_in_bounds. cbn. lia.
  - intros. by apply animate_index_in_bounds.
  - intros times. induction times as [| now times IH]; intros o Ho; [done |].
    apply IH. by apply animate_index_in_bounds.
Qed.

Lemma animate_advances_once_witness :
  (2 <= length (BaseObject.sprites (sample_object Fire 0 0)))%nat
  /\ 1000 + ANIMATION_SPEED <= 1150
  /\ BaseObject.sprite_animation_index
       (BaseObject.animate 1150 (sample_object Fire 0 0)) = 1
  /\ BaseObject.next_animation_time
       (BaseObject.animate 1150 (sample_object Fire 0 0)) = 1150
  /\ BaseObject.sprite_animation_index
       (animate_calls [1320; 1400] (sample_object Fire 0 0)) = 2.
Proof.
  assert (H1 : (2 <= length (BaseObject.sprites (sample_object Fire 0 0)))%nat)
    by (cbn; lia).
  assert (H2 : BaseObject.next_animation_time (sample_object Fire 0 0)
               + ANIMATION_SPEED <= 1150) by (cbn; unfold ANIMATION_SPEED; lia).
  destruct (animate_advances_once 1150 (sample_object Fire 0 0) H1 H2)
    as (Hi & Ht & _ & Hcalls).
  destruct (Hcalls [1320; 1400]) as [Hi2 _];
    [done | repeat constructor; cbn; unfold ANIMATION_SPEED; lia |].
  split_and!; [exact H1 | exact H2 | exact Hi | exact Ht | exact Hi2].
Defined.

(** ** Rectangles *)

Section RectFacts.

Implicit Types a b r : Rect.t.

Lemma colliderect_true a b :
  Rect.wf a -> Rect.wf b -> Rect.colliderect a b = true ->
  0 < Rect.w a /\ 0 < Rect.h a /\ 0 < Rect.w b /\ 0 < Rect.h b
  /\ Rect.left a < Rect.right b /\ Rect.top a < Rect.bottom b
  /\ Rect.left b < Rect.right a /\ Rect.top b < Rect.bottom a.
Proof.
  unfold Rect.wf, Rect.colliderect, Rect.left, Rect.right, Rect.top,
    Rect.bottom.
  intros [Hwa Hha] [Hwb Hhb] H.
  destruct (Z.eqb_spec (Rect.w a) 0), (Z.eqb_spec (Rect.h a) 0),
    (Z.eqb_spec (Rect.w b) 0), (Z.eqb_spec (Rect.h b) 0);
    cbn in H; try discriminate.
  rewrite !andb_true_iff, !Z.ltb_lt, !Z.gtb_lt in H. lia.
Qed.

(** Rectangles that only touch along an edge, or lie apart, do not
    collide. *)
Lemma colliderect_apart a b :
  Rect.wf a -> Rect.wf b ->
  Rect.right b <= Rect.left a \/ Rect.right a <= Rect.left b
  \/ Rect.bottom b <= Rect.top a \/ Rect.bottom a <= Rect.top b ->
  Rect.colliderect a b = false.
Proof.
  intros Ha Hb H. destruct (Rect.colliderect a b) eqn:Hc; [| done].
  pose proof (colliderect_true a b Ha Hb Hc). lia.
Qed.

Lemma move_ip_wf dx dy r : Rect.wf r -> Rect.wf (Rect.move_ip dx dy r).
Proof. by intros [? ?]. Qed.

End RectFacts.

(** ** Collision resolution *)

Section Collision.

Import Player.

Implicit Types (p : Player.t) (lo o : BaseObject.t).
Implicit Types (los pre post : list BaseObject.t).

(** *** One solid, horizontal pass *)

Lemma collide_horizontal_miss p lo :
  Rect.colliderect (BaseObject.rect lo) (rect p) = false ->
  collide_horizontal p lo = p.
Proof. intros H. unfold collide_horizontal. by rewrite H. Qed.

Lemma collide_horizontal_stopped p lo :
  horizontal_speed p = 0 -> collide_horizontal p lo = p.
Proof.
  intros H. unfold collide_horizontal. rewrite H. cbn. by case_match.
Qed.

Lemma collide_horizontal_right p lo :
  Rect.wf (rect p) -> Rect.wf (BaseObject.rect lo) ->
  0 < horizontal_speed p ->
  Rect.colliderect (BaseObject.rect lo) (rect p) = true ->
  collide_horizontal p lo =
    with_rect
      (Rect.move_ip (Rect.left (BaseObject.rect lo) - Rect.right (rect p)) 0
         (rect p))
      (with_horizontal_speed 0 p).
Proof.
  intros Hp Ho Hs Hc. unfold collide_horizontal. rewrite Hc.
  pose proof (colliderect_true _ _ Ho Hp Hc) as H.
  replace (horizontal_speed p >? 0) with true
    by (symmetry; apply Z.gtb_lt; lia).
  replace (Rect.right (rect p) >=? Rect.left (BaseObject.rect lo)) with true
    by (symmetry; apply Z.geb_le; lia).
  reflexivity.
Qed.

Lemma collide_horizontal_left p lo :
  Rect.wf (rect p) -> Rect.wf (BaseObject.rect lo) ->
  horizontal_speed p < 0 ->
  Rect.colliderect (BaseObject.rect lo) (rect p) = true ->
  collide_horizontal p lo =
    with_rect
      (Rect.move_ip (Rect.right (BaseObject.rect lo) - Rect.left (rect p)) 0
         (rect p))
      (with_horizontal_speed 0 p).
Proof.
  intros Hp Ho Hs Hc. unfold collide_horizontal. rewrite Hc.
  pose proof (colliderect_true _ _ Ho Hp Hc) as H.
  replace (horizontal_speed p >? 0) with false
    by (symmetry; rewrite Z.gtb_ltb; apply Z.ltb_ge; lia).
  replace (horizontal_speed p <? 0) with true
    by (symmetry; apply Z.ltb_lt; lia).
  replace (Rect.left (rect p) <=? Rect.right (BaseObject.rect lo)) with true
    by (symmetry; apply Z.leb_le; lia).
  reflexivity.
Qed.

(** The horizontal pass leaves the vertical state alone. *)
Lemma collide_horizontal_frame p lo :
  vertical_speed (collide_horizontal p lo) = vertical_speed p
  /\ bottom_collision (collide_horizontal p lo) = bottom_collision p
  /\ Rect.y (rect (collide_horizontal p lo)) = Rect.y (rect p)
  /\ Rect.w (rect (collide_horizontal p lo)) = Rect.w (rect p)
  /\ Rect.h (rect (collide_horizontal p lo)) = Rect.h (rect p).
Proof.
  unfold collide_horizontal.
  repeat case_match; player_simpl; split_and!; lia || done.
Qed.

(** *** One solid, vertical pass *)

Lemma collide_vertical_miss p lo :
  Rect.colliderect (BaseObject.rect lo) (rect p) = false ->
  collide_vertical p lo = p.
Proof. intros H. unfold collide_vertical. by rewrite H. Qed.

Lemma collide_vertical_stopped p lo :
  PyNum.gt0 (vertical_speed p) = false ->
  PyNum.lt0 (vertical_speed p) = false ->
  collide_vertical p lo = p.
Proof.
  intros Hg Hl. unfold collide_vertical. rewrite Hg, Hl. cbn. by case_match.
Qed.

Lemma collide_vertical_down p lo :
  Rect.wf (rect p) -> Rect.wf (BaseObject.rect lo) ->
  PyNum.gt0 (vertical_speed p) = true ->
  Rect.colliderect (BaseObject.rect lo) (rect p) = true ->
  collide_vertical p lo =
    with_rect
      (Rect.move_ip 0 (Rect.top (BaseObject.rect lo) - Rect.bottom (rect p))
         (rect p))
      (with_bottom_collision true
         (with_vertical_speed (PyNum.PyInt 0) p)).
Proof.
  intros Hp Ho Hs Hc. unfold collide_vertical. rewrite Hc, Hs.
  pose proof (colliderect_true _ _ Ho Hp Hc) as H.
  replace (Rect.bottom (rect p) >? Rect.top (BaseObject.rect lo)) with true
    by (symmetry; apply Z.gtb_lt; lia).
  reflexivity.
Qed.

Lemma collide_vertical_up p lo :
  Rect.wf (rect p) -> Rect.wf (BaseObject.rect lo) ->
  PyNum.gt0 (vertical_speed p) = false ->
  PyNum.lt0 (vertical_speed p) = true ->
  Rect.colliderect (BaseObject.rect lo) (rect p) = true ->
  collide_vertical p lo =
    with_rect
      (Rect.move_ip 0 (Rect.bottom (BaseObject.rect lo) - Rect.top (rect p))
         (rect p))
      (with_vertical_speed (PyNum.PyInt 0) p).
Proof.
  intros Hp Ho Hg Hl Hc. unfold collide_vertical. rewrite Hc, Hg, Hl.
  pose proof (colliderect_true _ _ Ho Hp Hc) as H.
  replace (Rect.top (rect p) <=? Rect.bottom (BaseObject.rect lo)) with true
    by (symmetry; apply Z.leb_le; lia).
  reflexivity.
Qed.

(** The vertical pass leaves the horizontal state alone. *)
Lemma collide_vertical_frame p lo :
  horizontal_speed (collide_vertical p lo) = horizontal_speed p
  /\ Rect.x (rect (collide_vertical p lo)) = Rect.x (rect p)
  /\ Rect.w (rect (collide_vertical p lo)) = Rect.w (rect p)
  /\ Rect.h (rect (collide_vertical p lo)) = Rect.h (rect p).
Proof.
  unfold collide_vertical.
  repeat case_match; player_simpl; split_and!; lia || done.
Qed.

(** While the player is not moving down, no solid grounds it, and its
    speed stays as it is or drops to 0. *)
Lemma collide_vertical_not_down p lo :
  PyNum.gt0 (vertical_speed p) = false ->
  bottom_collision (collide_vertical p lo) = bottom_collision p
  /\ (vertical_speed (collide_vertical p lo) = vertical_speed p
      \/ vertical_speed (collide_vertical p lo) = PyNum.PyInt 0).
Proof.
  intros Hg. unfold collide_vertical. rewrite Hg. cbn.
  repeat case_match; cbn; auto.
Qed.

(** *** The loops *)

Lemma foldl_collide_horizontal_miss los p :
  Forall (fun lo =>
    Rect.colliderect (BaseObject.rect lo) (rect p) = false) los ->
  foldl collide_horizontal p los = p.
Proof.
  induction 1 as [| lo los Hlo _ IH]; [done |].
  cbn. by rewrite collide_horizontal_miss.
Qed.

Lemma foldl_collide_horizontal_stopped los p :
  horizontal_speed p = 0 -> foldl collide_horizontal p los = p.
Proof.
  intros H. induction los as [| lo los IH]; [done |].
  cbn. by rewrite collide_horizontal_stopped.
Qed.

Lemma foldl_collide_horizontal_frame los p :
  vertical_speed (foldl collide_horizontal p los) = vertical_speed p
  /\ bottom_collision (foldl collide_horizontal p los) = bottom_collision p
  /\ Rect.y (rect (foldl collide_horizontal p los)) = Rect.y (rect p)
  /\ Rect.w (rect (foldl collide_horizontal p los)) = Rect.w (rect p)
  /\ Rect.h (rect (foldl collide_horizontal p los)) = Rect.h (rect p).
Proof.
  revert p. induction los as [| lo los IH]; intros p; [done |].
  cbn. destruct (IH (collide_horizontal p lo)) as (-> & -> & -> & -> & ->).
  apply collide_horizontal_frame.
Qed.

Lemma foldl_collide_vertical_miss los p :
  Forall (fun lo =>
    Rect.colliderect (BaseObject.rect lo) (rect p) = false) los ->
  foldl collide_vertical p los = p.
Proof.
  induction 1 as [| lo los Hlo _ IH]; [done |].
  cbn. by rewrite collide_vertical_miss.
Qed.

Lemma foldl_collide_vertical_stopped los p :
  PyNum.gt0 (vertical_speed p) = false ->
  PyNum.lt0 (vertical_speed p) = false ->
  foldl collide_vertical p los = p.
Proof.
  intros Hg Hl. induction los as [| lo los IH]; [done |].
  cbn. by rewrite collide_vertical_stopped.
Qed.

Lemma foldl_collide_vertical_frame los p :
  horizontal_speed (foldl collide_vertical p los) = horizontal_speed p
  /\ Rect.x (rect (foldl collide_vertical p los)) = Rect.x (rect p)
  /\ Rect.w (rect (foldl collide_vertical p los)) = Rect.w (rect p)
  /\ Rect.h (rect (foldl collide_vertical p los)) = Rect.h (rect p).
Proof.
  revert p. induction los as [| lo los IH]; intros p; [done |].
  cbn. destruct (IH (collide_vertical p lo)) as (-> & -> & -> & ->).
  apply collide_vertical_frame.
Qed.

Lemma foldl_collide_vertical_not_down los p :
  PyNum.gt0 (vertical_speed p) = false ->
  bottom_collision (foldl collide_vertical p los) = bottom_collision p
  /\ (vertical_speed (foldl collide_vertical p los) = vertical_speed p
      \/ vertical_speed (foldl collide_vertical p los) = PyNum.PyInt 0).
Proof.
  revert p. induction los as [| lo los IH]; intros p Hg; [by auto |].
  cbn. destruct (collide_vertical_not_down p lo Hg) as [Hb Hv].
  destruct (IH (collide_vertical p lo)) as [-> Hv'].
  { by destruct Hv as [-> | ->]. }
  split; [done |].
  destruct Hv' as [-> | ->]; [| by right].
  destruct Hv as [-> | ->]; auto.
Qed.

(** *** The first overlapping solid decides *)

Lemma move_horizontal_first_hit pre o post p :
  Rect.wf (rect p) -> Rect.wf (BaseObject.rect o) ->
  horizontal_speed p <> 0 ->
  Forall (fun lo =>
    Rect.colliderect (BaseObject.rect lo)
      (Rect.move_ip (horizontal_speed p) 0 (rect p)) = false) pre ->
  Rect.colliderect (BaseObject.rect o)
    (Rect.move_ip (horizontal_speed p) 0 (rect p)) = true ->
  move_horizontal (pre ++ o :: post) p =
    let moved := Rect.move_ip (horizontal_speed p) 0 (rect p) in
    with_rect
      (if 0 <? horizontal_speed p
       then Rect.move_ip
              (Rect.left (BaseObject.rect o) - Rect.right moved) 0 moved
       else Rect.move_ip
              (Rect.right (BaseObject.rect o) - Rect.left moved) 0 moved)
      (with_horizontal_speed 0 p).
Proof.
  intros Hp Ho Hs Hpre Hc. unfold move_horizontal.
  set (moved := Rect.move_ip (horizontal_speed p) 0 (rect p)) in *.
  rewrite foldl_app, (foldl_collide_horizontal_miss pre) by exact Hpre.
  cbn [foldl].
  assert (Hm : Rect.wf (rect (with_rect moved p))) by by apply move_ip_wf.
  destruct (Z.ltb_spec 0 (horizontal_speed p)) as [Hpos | Hneg].
  - rewrite collide_horizontal_right by done.
    by rewrite foldl_collide_horizontal_stopped.
  - rewrite collide_horizontal_left by (done || (cbn; lia)).
    by rewrite foldl_collide_horizontal_stopped.
Qed.

Lemma move_vertical_first_hit pre o post p dy :
  Rect.wf (rect p) -> Rect.wf (BaseObject.rect o) ->
  PyNum.to_c_int (vertical_speed p) = Some dy ->
  PyNum.gt0 (vertical_speed p) = true
  \/ PyNum.lt0 (vertical_speed p) = true ->
  Forall (fun lo =>
    Rect.colliderect (BaseObject.rect lo)
      (Rect.move_ip 0 dy (rect p)) = false) pre ->
  Rect.colliderect (BaseObject.rect o) (Rect.move_ip 0 dy (rect p)) = true ->
  move_vertical (pre ++ o :: post) p =
    let moved := Rect.move_ip 0 dy (rect p) in
    Ok (if PyNum.gt0 (vertical_speed p)
        then with_rect
               (Rect.move_ip 0
                  (Rect.top (BaseObject.rect o) - Rect.bottom moved) moved)
               (with_bottom_collision true
                  (with_vertical_speed (PyNum.PyInt 0) p))
        else with_rect
               (Rect.move_ip 0
                  (Rect.bottom (BaseObject.rect o) - Rect.top moved) moved)
               (with_vertical_speed (PyNum.PyInt 0) p)).
Proof.
  intros Hp Ho Hdy Hs Hpre Hc. unfold move_vertical. rewrite Hdy.
  set (moved := Rect.move_ip 0 dy (rect p)) in *.
  rewrite foldl_app, (foldl_collide_vertical_miss pre) by exact Hpre.
  cbn [foldl].
  assert (Hm : Rect.wf (rect (with_rect moved p))) by by apply move_ip_wf.
  cbn zeta. f_equal.
  destruct (PyNum.gt0 (vertical_speed p)) eqn:Hg.
  - rewrite collide_vertical_down by done.
    by rewrite foldl_collide_vertical_stopped.
  - destruct Hs as [Hs | Hs]; [done |].
    rewrite collide_vertical_up by done.
    by rewrite foldl_collide_vertical_stopped.
Qed.

End Collision.

(** C6: a player moving right whose box, moved by the horizontal speed,
    overlaps a solid (the first one it overlaps in iteration order, so in
    particular the only one): after the resolution the horizontal speed is 0,
    the player's right edge is the solid's left edge, and the two boxes do
    not overlap. *)
Theorem right_move_stops_at_left_face
    (pre post : list BaseObject.t) (o : BaseObject.t) (p : Player.t)
    (dy : Z) :
  Rect.wf (Player.rect p) -> Rect.wf (BaseObject.rect o) ->
  0 < Player.horizontal_speed p ->
  PyNum.to_c_int (Player.vertical_speed p) = Some dy ->
  Forall (fun lo =>
    Rect.colliderect (BaseObject.rect lo)
      (Rect.move_ip (Player.horizontal_speed p) 0 (Player.rect p)) = false)
    pre ->
  Rect.colliderect (BaseObject.rect o)
    (Rect.move_ip (Player.horizontal_speed p) 0 (Player.rect p)) = true ->
  exists p',
    Player._movement_with_collision (pre ++ o :: post) p = Ok p'
    /\ Player.horizontal_speed p' = 0
    /\ Rect.right (Player.rect p') = Rect.left (BaseObject.rect o)
    /\ Rect.colliderect (BaseObject.rect o) (Player.rect p') = false.
Proof.
  intros Hp Ho Hs Hdy Hpre Hc.
  unfold Player._movement_with_collision.
  rewrite (move_horizontal_first_hit pre o post
             (Player.with_bottom_collision false p)) by (done || (cbn; lia)).
  cbn zeta. cbn [Player.horizontal_speed Player.with_bottom_collision].
  replace (0 <? Player.horizontal_speed p) with true
    by (symmetry; apply Z.ltb_lt; lia).
  unfold Player.move_vertical.
  cbn [Player.vertical_speed Player.with_rect Player.with_horizontal_speed
       Player.with_bottom_collision].
  rewrite Hdy. eexists. split; [reflexivity |].
  match goal with |- context [foldl Player.collide_vertical ?q ?l] =>
    destruct (foldl_collide_vertical_frame l q) as (Hh & Hx & Hw & Hhh);
    set (p' := foldl Player.collide_vertical q l) in *
  end.
  assert (Hr : Rect.right (Player.rect p') = Rect.left (BaseObject.rect o)).
  { unfold Rect.right. rewrite Hx, Hw. unfold Rect.left, Rect.right.
    player_simpl. lia. }
  split_and!; [by rewrite Hh | done |].
  apply colliderect_apart; [done | | lia].
  destruct Hp as [Hpw Hph]. split; [rewrite Hw | rewrite Hhh]; by player_simpl.
Qed.

(** C7: a player moving down whose box, after the horizontal pass and the
    vertical move, overlaps a solid (the first one it overlaps in iteration
    order, so in particular the only one): after the resolution the vertical
    speed is 0, the player rests on a surface, its bottom edge is the solid's
    top edge, and the two boxes do not overlap. *)
Theorem fall_lands_on_top_face
    (pre post : list BaseObject.t) (o : BaseObject.t) (p : Player.t)
    (dy : Z) :
  Rect.wf (Player.rect p) -> Rect.wf (BaseObject.rect o) ->
  PyNum.gt0 (Player.vertical_speed p) = true ->
  PyNum.to_c_int (Player.vertical_speed p) = Some dy ->
  let p1 := Player.move_horizontal (pre ++ o :: post)
              (Player.with_bottom_collision false p) in
  Forall (fun lo =>
    Rect.colliderect (BaseObject.rect lo)
      (Rect.move_ip 0 dy (Player.rect p1)) = false) pre ->
  Rect.colliderect (BaseObject.rect o)
    (Rect.move_ip 0 dy (Player.rect p1)) = true ->
  exists p',
    Player._movement_with_collision (pre ++ o :: post) p = Ok p'
    /\ Player.vertical_speed p' = PyNum.PyInt 0
    /\ Player.bottom_collision p' = true
    /\ Rect.bottom (Player.rect p') = Rect.top (BaseObject.rect o)
    /\ Rect.colliderect (BaseObject.rect o) (Player.rect p') = false.
Proof.
  intros Hp Ho Hg Hdy p1 Hpre Hc.
  unfold Player._movement_with_collision. fold p1.
  destruct (foldl_collide_horizontal_frame (pre ++ o :: post)
              (Player.with_rect
                 (Rect.move_ip (Player.horizontal_speed p) 0 (Player.rect p))
                 (Player.with_bottom_collision false p)))
    as (Hv & _ & _ & Hw & Hh).
  change (foldl Player.collide_horizontal _ _) with p1 in Hv, Hw, Hh.
  cbn in Hv, Hw, Hh.
  assert (Hp1 : Rect.wf (Player.rect p1)).
  { destruct Hp. split; [rewrite Hw | rewrite Hh]; done. }
  rewrite (move_vertical_first_hit pre o post p1 dy)
    by (done || rewrite Hv; auto).
  cbn zeta. rewrite Hv, Hg. eexists. split; [reflexivity |].
  assert (Hb : Rect.bottom
            (Rect.move_ip 0
               (Rect.top (BaseObject.rect o)
                - Rect.bottom (Rect.move_ip 0 dy (Player.rect p1)))
               (Rect.move_ip 0 dy (Player.rect p1)))
          = Rect.top (BaseObject.rect o)).
  { unfold Rect.bottom, Rect.top. cbn. lia. }
  split_and!; [done | done | exact Hb |].
  apply colliderect_apart; [done | by do 2 apply move_ip_wf |].
  right; right; left. apply Z.eq_le_incl. exact Hb.
Qed.


Lemma right_move_stops_at_left_face_witness :
  let o := sample_object Block 33 0 in
  let p := Player.with_horizontal_speed 2 sample_player in
  Rect.colliderect (BaseObject.rect o)
    (Rect.move_ip (Player.horizontal_speed p) 0 (Player.rect p)) = true
  /\ exists p',
       Player._movement_with_collision [o] p = Ok p'
       /\ Player.horizontal_speed p' = 0
       /\ Rect.right (Player.rect p') = 33
       /\ Rect.colliderect (BaseObject.rect o) (Player.rect p') = false.
Proof.
  intros o p.
  assert (Hc : Rect.colliderect (BaseObject.rect o)
                 (Rect.move_ip (Player.horizontal_speed p) 0 (Player.rect p))
               = true) by reflexivity.
  split; [exact Hc |].
  apply (right_move_stops_at_left_face [] [] o p 0).
  - unfold Rect.wf. cbn. lia.
  - unfold Rect.wf. cbn. lia.
  - cbn. lia.
  - reflexivity.
  - constructor.
  - exact Hc.
Defined.

Lemma fall_lands_on_top_face_witness :
  let o := sample_object Block 0 33 in
  let p := Player.with_vertical_speed (PyNum.PyInt 2) sample_player in
  PyNum.gt0 (Player.vertical_speed p) = true
  /\ exists p',
       Player._movement_with_collision [o] p = Ok p'
       /\ Player.vertical_speed p' = PyNum.PyInt 0
       /\ Player.bottom_collision p' = true
       /\ Rect.bottom (Player.rect p') = 33
       /\ Rect.colliderect (BaseObject.rect o) (Player.rect p') = false.
Proof.
  intros o p. split; [reflexivity |].
  apply (fall_lands_on_top_face [] [] o p 2).
  - unfold Rect.wf. cbn. lia.
  - unfold Rect.wf. cbn. lia.
  - reflexivity.
  - reflexivity.
  - constructor.
  - reflexivity.
Defined.

(** C3, as the code has it: when the moved box overlaps several solids in
    one axis pass, the first overlapping solid in iteration order decides the
    snapped position.  Its branch zeroes the speed of that axis, so the
    solids after it are still tested for overlap but neither branch of the
    pass can fire for them, whatever they overlap. *)
Theorem first_overlapping_solid_wins
    (pre post : list BaseObject.t) (o : BaseObject.t) (p : Player.t) :
  Rect.wf (Player.rect p) -> Rect.wf (BaseObject.rect o) ->
  (Player.horizontal_speed p <> 0 ->
   Forall (fun lo =>
     Rect.colliderect (BaseObject.rect lo)
       (Rect.move_ip (Player.horizontal_speed p) 0 (Player.rect p)) = false)
     pre ->
   Rect.colliderect (BaseObject.rect o)
     (Rect.move_ip (Player.horizontal_speed p) 0 (Player.rect p)) = true ->
   let p' := Player.move_horizontal (pre ++ o :: post) p in
   Player.horizontal_speed p' = 0
   /\ (0 < Player.horizontal_speed p ->
       Rect.right (Player.rect p') = Rect.left (BaseObject.rect o))
   /\ (Player.horizontal_speed p < 0 ->
       Rect.left (Player.rect p') = Rect.right (BaseObject.rect o)))
  /\ (forall dy,
      PyNum.to_c_int (Player.vertical_speed p) = Some dy ->
      PyNum.gt0 (Player.vertical_speed p) = true
      \/ PyNum.lt0 (Player.vertical_speed p) = true ->
      Forall (fun lo =>
        Rect.colliderect (BaseObject.rect lo)
          (Rect.move_ip 0 dy (Player.rect p)) = false) pre ->
      Rect.colliderect (BaseObject.rect o)
        (Rect.move_ip 0 dy (Player.rect p)) = true ->
      exists p',
        Player.move_vertical (pre ++ o :: post) p = Ok p'
        /\ Player.vertical_speed p' = PyNum.PyInt 0
        /\ (PyNum.gt0 (Player.vertical_speed p) = true ->
            Rect.bottom (Player.rect p') = Rect.top (BaseObject.rect o))
        /\ (PyNum.gt0 (Player.vertical_speed p) = false ->
            Rect.top (Player.rect p') = Rect.bottom (BaseObject.rect o))).
Proof.
  intros Hp Ho. split.
  - intros Hs Hpre Hc p'. subst p'.
    rewrite move_horizontal_first_hit by done. cbn zeta.
    split_and!; [done | |]; intros Hd.
    + replace (0 <? Player.horizontal_speed p) with true
        by (symmetry; apply Z.ltb_lt; lia).
      unfold Rect.right, Rect.left. cbn. lia.
    + replace (0 <? Player.horizontal_speed p) with false
        by (symmetry; apply Z.ltb_ge; lia).
      unfold Rect.right, Rect.left. cbn. lia.
  - intros dy Hdy Hs Hpre Hc.
    rewrite (move_vertical_first_hit pre o post p dy) by done. cbn zeta.
    eexists. split; [reflexivity |].
    destruct (PyNum.gt0 (Player.vertical_speed p));
      (split_and!; [done | |]); intros Hd; try done;
      unfold Rect.bottom, Rect.top; cbn; lia.
Qed.

Lemma first_overlapping_solid_wins_witness :
  let o := sample_object Block 20 20 in
  let later := sample_object Block 10 25 in
  let p := Player.with_vertical_speed (PyNum.PyInt 2)
             (Player.with_horizontal_speed 2 sample_player) in
  Rect.right (Player.rect (Player.move_horizontal [o; later] p)) = 20
  /\ exists p', Player.move_vertical [o; later] p = Ok p'
                /\ Rect.bottom (Player.rect p') = 20.
Proof.
  intros o later p.
  assert (Hp : Rect.wf (Player.rect p)) by (unfold Rect.wf; cbn; lia).
  assert (Ho : Rect.wf (BaseObject.rect o)) by (unfold Rect.wf; cbn; lia).
  destruct (first_overlapping_solid_wins [] [later] o p Hp Ho) as [Hh Hv].
  split.
  - destruct Hh as (_ & Hr & _);
      [cbn; lia | constructor | reflexivity | apply Hr; cbn; lia].
  - destruct (Hv 2) as (p' & Hp' & _ & Hb & _);
      [reflexivity | left; reflexivity | constructor | reflexivity |].
    exists p'. split; [exact Hp' | by apply Hb].
Defined.

(** C3 fails as stated: the player touches the left face of solid [B] and
    solid [A] stands one pixel further right; both overlap the box moved by
    [MOVE_SPEED].  [A] comes first in iteration order and the player is
    snapped against it; [B], processed last and still overlapping, moves
    nothing: the player ends one pixel inside [B]. *)
Lemma last_overlapping_solid_does_not_win :
  let A := sample_object Block 33 (-20) in
  let B := sample_object Block 32 16 in
  let moved := Rect.move_ip Player.MOVE_SPEED 0 (Player.rect sample_player) in
  Rect.colliderect (BaseObject.rect A) moved = true
  /\ Rect.colliderect (BaseObject.rect B) moved = true
  /\ exists p',
       Player.update key_right [A; B] sample_player = Ok p'
       /\ Rect.colliderect (BaseObject.rect B) (Player.rect p') = true
       /\ Rect.right (Player.rect p') = Rect.left (BaseObject.rect A)
       /\ Rect.right (Player.rect p') <> Rect.left (BaseObject.rect B).
Proof.
  cbn zeta. split_and!; [reflexivity | reflexivity |].
  eexists. split_and!; [reflexivity | reflexivity | reflexivity |].
  vm_compute. discriminate.
Qed.

(** ** Jumping and gravity *)

Section Update.

Import Player.

Implicit Types (p : Player.t) (lo o : BaseObject.t).
Implicit Types (los : list BaseObject.t) (keys : ScancodeWrapper).

Lemma apply_keys_frame keys p :
  rect (apply_keys keys p) = rect p
  /\ bottom_collision (apply_keys keys p) = bottom_collision p.
Proof. unfold apply_keys. by repeat case_match. Qed.

Lemma apply_keys_no_jump keys p :
  K_UP keys && bottom_collision p = false ->
  vertical_speed (apply_keys keys p) = vertical_speed p.
Proof.
  intros H. unfold apply_keys. player_simpl. rewrite H.
  by repeat case_match.
Qed.

Lemma apply_keys_jump keys p :
  K_UP keys = true -> bottom_collision p = true ->
  vertical_speed (apply_keys keys p) = PyNum.PyInt (- JUMP_SPEED).
Proof.
  intros Hk Hb. unfold apply_keys. player_simpl. rewrite Hk, Hb.
  by repeat case_match.
Qed.

(** A player that is not moving down leaves the resolution ungrounded,
    with its speed unchanged or stopped by a ceiling. *)
Lemma movement_not_down los p dy :
  PyNum.gt0 (vertical_speed p) = false ->
  PyNum.to_c_int (vertical_speed p) = Some dy ->
  exists p1,
    _movement_with_collision los p = Ok p1
    /\ bottom_collision p1 = false
    /\ (vertical_speed p1 = vertical_speed p
        \/ vertical_speed p1 = PyNum.PyInt 0).
Proof.
  intros Hg Hdy. unfold _movement_with_collision, move_vertical.
  set (ph := move_horizontal los (with_bottom_collision false p)).
  destruct (foldl_collide_horizontal_frame los
              (with_rect
                 (Rect.move_ip (horizontal_speed p) 0 (rect p))
                 (with_bottom_collision false p)))
    as (Hv & Hb & _).
  change (foldl collide_horizontal _ _) with ph in Hv, Hb.
  cbn in Hv, Hb. rewrite Hv, Hdy. eexists. split; [reflexivity |].
  match goal with |- context [foldl collide_vertical ?q los] =>
    destruct (foldl_collide_vertical_not_down los q) as [Hb' Hv'];
      [cbn; by rewrite Hv |]
  end.
  rewrite Hb'. cbn in Hv' |- *. by rewrite Hv in Hv'.
Qed.

(** The player is grounded only by landing: if the vertical loop ends with
    the flag set, the player was moving down and now stands exactly on the
    top edge of one of the solids. *)
Lemma foldl_collide_vertical_grounded los p :
  bottom_collision p = false ->
  bottom_collision (foldl collide_vertical p los) = true ->
  PyNum.gt0 (vertical_speed p) = true
  /\ Exists (fun lo =>
       Rect.bottom (rect (foldl collide_vertical p los))
       = Rect.top (BaseObject.rect lo)) los.
Proof.
  revert p. induction los as [| lo los IH]; intros p Hb Hr.
  { cbn in Hr. congruence. }
  destruct (PyNum.gt0 (vertical_speed p)) eqn:Hg.
  2:{ destruct (foldl_collide_vertical_not_down (lo :: los) p Hg) as [E _].
      congruence. }
  split; [done |]. cbn [foldl] in *.
  unfold collide_vertical in *. rewrite Hg in *.
  destruct (Rect.colliderect (BaseObject.rect lo) (rect p)) eqn:Hc.
  2:{ apply Exists_cons_tl. by apply IH. }
  cbn [andb] in *.
  destruct (Rect.bottom (rect p) >? Rect.top (BaseObject.rect lo)) eqn:Hgt.
  - rewrite foldl_collide_vertical_stopped in * by done.
    apply Exists_cons_hd. unfold Rect.bottom, Rect.top. cbn. lia.
  - destruct (PyNum.lt0 (vertical_speed p)
              && (Rect.top (rect p) <=? Rect.bottom (BaseObject.rect lo))).
    + rewrite foldl_collide_vertical_stopped in Hr by done.
      cbn in Hr. congruence.
    + apply Exists_cons_tl. by apply IH.
Qed.

End Update.

(** C10: a player with vertical speed 0 whose bottom edge is the top edge of
    a solid is not in collision with it: the resolution ends with the player
    not resting on a surface, still touching that edge, and, when the frame
    has no jump, [update] ends with the vertical speed [FALL_ACCELERATION]
    (0 plus the fall acceleration). *)
Theorem edge_contact_does_not_ground
    (keys : ScancodeWrapper) (los : list BaseObject.t) (o : BaseObject.t)
    (p : Player.t) :
  Player.vertical_speed p = PyNum.PyInt 0 ->
  Rect.wf (Player.rect p) -> Rect.wf (BaseObject.rect o) ->
  o ∈ los ->
  Rect.bottom (Player.rect p) = Rect.top (BaseObject.rect o) ->
  exists p1,
    Player._movement_with_collision los p = Ok p1
    /\ Player.bottom_collision p1 = false
    /\ Player.vertical_speed p1 = PyNum.PyInt 0
    /\ Rect.bottom (Player.rect p1) = Rect.top (BaseObject.rect o)
    /\ Rect.colliderect (BaseObject.rect o) (Player.rect p1) = false
    /\ (K_UP keys && Player.bottom_collision p = false ->
        exists p',
          Player.update keys los p = Ok p'
          /\ Player.bottom_collision p' = false
          /\ Player.vertical_speed p' = Player.FALL_ACCELERATION).
Proof.
  assert (Hres : forall q,
    Player.vertical_speed q = PyNum.PyInt 0 ->
    Rect.wf (Player.rect q) ->
    Rect.bottom (Player.rect q) = Rect.top (BaseObject.rect o) ->
    Rect.wf (BaseObject.rect o) ->
    exists p1,
      Player._movement_with_collision los q = Ok p1
      /\ Player.bottom_collision p1 = false
      /\ Player.vertical_speed p1 = PyNum.PyInt 0
      /\ Rect.bottom (Player.rect p1) = Rect.top (BaseObject.rect o)
      /\ Rect.colliderect (BaseObject.rect o) (Player.rect p1) = false).
  { intros q Hv Hq Hedge Ho.
    unfold Player._movement_with_collision, Player.move_vertical.
    set (ph := Player.move_horizontal los
                 (Player.with_bottom_collision false q)).
    destruct (foldl_collide_horizontal_frame los
                (Player.with_rect
                   (Rect.move_ip (Player.horizontal_speed q) 0
                      (Player.rect q))
                   (Player.with_bottom_collision false q)))
      as (Hv' & Hb' & Hy & Hw & Hh).
    change (foldl Player.collide_horizontal _ _) with ph
      in Hv', Hb', Hy, Hw, Hh.
    cbn in Hv', Hb', Hy, Hw, Hh.
    rewrite Hv', Hv. cbn [PyNum.to_c_int].
    rewrite foldl_collide_vertical_stopped by (cbn; by rewrite Hv', Hv).
    eexists. split; [reflexivity |].
    assert (Hbot : Rect.bottom
              (Player.rect
                 (Player.with_rect (Rect.move_ip 0 0 (Player.rect ph)) ph))
            = Rect.top (BaseObject.rect o)).
    { rewrite <- Hedge. unfold Rect.bottom. cbn. rewrite Hy, Hh. lia. }
    split_and!; [exact Hb' | cbn; by rewrite Hv', Hv | exact Hbot |].
    apply colliderect_apart; [done | | right; right; left; lia].
    destruct Hq. split; cbn; [rewrite Hw | rewrite Hh]; done. }
  intros Hv Hp Ho _ Hedge.
  destruct (Hres p Hv Hp Hedge Ho) as (p1 & H1 & H2 & H3 & H4 & H5).
  exists p1. split_and!; try done.
  intros Hnj. unfold Player.update.
  destruct (apply_keys_frame keys p) as [Hr Hb].
  destruct (Hres (Player.apply_keys keys p)) as (q1 & Hq1 & Hq2 & Hq3 & _).
  { by rewrite apply_keys_no_jump. }
  { by rewrite Hr. }
  { by rewrite Hr. }
  { done. }
  rewrite Hq1. cbn. rewrite Hq2. cbn. eexists. split; [reflexivity |].
  split; [done |]. cbn. by rewrite Hq3.
Qed.

Lemma edge_contact_does_not_ground_witness :
  let o := sample_object Block 0 32 in
  Rect.bottom (Player.rect sample_player) = Rect.top (BaseObject.rect o)
  /\ exists p',
       Player.update no_keys [o] sample_player = Ok p'
       /\ Player.bottom_collision p' = false
       /\ Player.vertical_speed p' = Player.FALL_ACCELERATION.
Proof.
  intros o. split; [reflexivity |].
  destruct (edge_contact_does_not_ground no_keys [o] o sample_player)
    as (p1 & _ & _ & _ & _ & _ & Hupd).
  - reflexivity.
  - unfold Rect.wf. cbn. lia.
  - unfold Rect.wf. cbn. lia.
  - apply list_elem_of_here.
  - reflexivity.
  - apply Hupd. reflexivity.
Defined.

(** C4, as the code has it: for a player resting on a surface with "up"
    pressed, the frame's vertical move is made at exactly [-JUMP_SPEED], and
    gravity is added before the frame ends: [update] leaves the vertical
    speed at [-JUMP_SPEED + FALL_ACCELERATION], or at [FALL_ACCELERATION]
    when a ceiling stopped the jump.  Resting-on-surface is false already at
    the end of that frame.  After the next frame's [update] it can be true
    only through a floor collision (the player was moving down and ends on
    the top edge of a solid), which cannot happen unless a ceiling stopped
    the jump. *)
Theorem jump_frame
    (keys : ScancodeWrapper) (los : list BaseObject.t) (p : Player.t) :
  K_UP keys = true -> Player.bottom_collision p = true ->
  let p0 := Player.apply_keys keys p in
  let moved :=
    Rect.move_ip 0 (- Player.JUMP_SPEED)
      (Player.rect
         (Player.move_horizontal los
            (Player.with_bottom_collision false p0))) in
  Player.vertical_speed p0 = PyNum.PyInt (- Player.JUMP_SPEED)
  /\ exists p1 p',
       Player._movement_with_collision los p0 = Ok p1
       /\ Player.update keys los p = Ok p'
       /\ (Player.vertical_speed p1 = PyNum.PyInt (- Player.JUMP_SPEED)
           \/ Player.vertical_speed p1 = PyNum.PyInt 0)
       /\ Player.vertical_speed p'
          = PyNum.add (Player.vertical_speed p1) Player.FALL_ACCELERATION
       /\ Player.bottom_collision p' = false
       /\ (Forall (fun lo =>
             Rect.colliderect (BaseObject.rect lo) moved = false) los ->
           Player.vertical_speed p1 = PyNum.PyInt (- Player.JUMP_SPEED)
           /\ Rect.top (Player.rect p')
              = Rect.top (Player.rect p) - Player.JUMP_SPEED)
       /\ (forall keys2 los2,
           exists p'',
             Player.update keys2 los2 p' = Ok p''
             /\ (Player.bottom_collision p'' = true ->
                 PyNum.gt0 (Player.vertical_speed p') = true
                 /\ Exists (fun lo =>
                      Rect.bottom (Player.rect p'')
                      = Rect.top (BaseObject.rect lo)) los2)
             /\ (Player.vertical_speed p1
                 = PyNum.PyInt (- Player.JUMP_SPEED) ->
                 Player.bottom_collision p'' = false)).
Proof.
  intros Hk Hb p0 moved.
  assert (Hv0 : Player.vertical_speed p0 = PyNum.PyInt (- Player.JUMP_SPEED))
    by by apply apply_keys_jump.
  split; [exact Hv0 |].
  destruct (movement_not_down los p0 (- Player.JUMP_SPEED))
    as (p1 & Hp1 & Hb1 & Hv1); [by rewrite Hv0 | by rewrite Hv0 |].
  rewrite Hv0 in Hv1.
  exists p1. eexists.
  split; [exact Hp1 |].
  split; [unfold Player.update; fold p0; rewrite Hp1; cbn; rewrite Hb1;
          reflexivity |].
  cbn [negb].
  split; [exact Hv1 |]. split; [reflexivity |]. split; [exact Hb1 |].
  split.
  - intros Hmiss.
    unfold Player._movement_with_collision, Player.move_vertical in Hp1.
    destruct (foldl_collide_horizontal_frame los
                (Player.with_rect
                   (Rect.move_ip (Player.horizontal_speed p0) 0
                      (Player.rect p0))
                   (Player.with_bottom_collision false p0)))
      as (Hv' & _ & Hy & _).
    set (ph := Player.move_horizontal los
                 (Player.with_bottom_collision false p0)) in *.
    change (foldl Player.collide_horizontal _ _) with ph in Hv', Hy.
    cbn in Hv', Hy. rewrite Hv', Hv0 in Hp1. cbn [PyNum.to_c_int] in Hp1.
    rewrite foldl_collide_vertical_miss in Hp1 by exact Hmiss.
    injection Hp1 as <-. cbn. split; [by rewrite Hv', Hv0 |].
    unfold Rect.top in *. cbn. rewrite Hy.
    destruct (apply_keys_frame keys p) as [Hr _]. fold p0 in Hr.
    rewrite Hr. lia.
  - intros keys2 los2.
    set (p' := Player.with_vertical_speed
                 (PyNum.add (Player.vertical_speed p1)
                    Player.FALL_ACCELERATION) p1).
    assert (Hb' : Player.bottom_collision p' = false) by exact Hb1.
    set (q0 := Player.apply_keys keys2 p').
    assert (Hq0v : Player.vertical_speed q0 = Player.vertical_speed p').
    { apply apply_keys_no_jump. rewrite Hb'. apply andb_false_r. }
    assert (Hdy : exists dy,
      PyNum.to_c_int (Player.vertical_speed q0) = Some dy).
    { rewrite Hq0v. cbn. destruct Hv1 as [-> | ->]; eexists; reflexivity. }
    destruct Hdy as [dy Hdy].
    unfold Player.update. fold q0.
    unfold Player._movement_with_collision, Player.move_vertical.
    destruct (foldl_collide_horizontal_frame los2
                (Player.with_rect
                   (Rect.move_ip (Player.horizontal_speed q0) 0
                      (Player.rect q0))
                   (Player.with_bottom_collision false q0)))
      as (Hv' & Hbq & _).
    set (qh := Player.move_horizontal los2
                 (Player.with_bottom_collision false q0)) in *.
    change (foldl Player.collide_horizontal _ _) with qh in Hv', Hbq.
    cbn in Hv', Hbq. rewrite Hv', Hdy. cbn [mbind result_bind].
    match goal with |- context [foldl Player.collide_vertical ?q los2] =>
      set (s := q) in *; set (r := foldl Player.collide_vertical s los2) in *
    end.
    assert (Hsb : Player.bottom_collision s = false) by exact Hbq.
    assert (Hsv : Player.vertical_speed s = Player.vertical_speed p').
    { cbn. by rewrite Hv', Hq0v. }
    eexists. split; [reflexivity |]. split.
    + destruct (Player.bottom_collision r) eqn:Hr; cbn [negb]; intros Ht.
      * destruct (foldl_collide_vertical_grounded los2 s Hsb Hr) as [Hg He].
        split; [by rewrite <- Hsv | exact He].
      * cbn in Ht. congruence.
    + intros Hnc.
      destruct (foldl_collide_vertical_not_down los2 s) as [Hrb _].
      { rewrite Hsv. subst p'. cbn. rewrite Hnc. reflexivity. }
      fold r in Hrb. rewrite Hrb, Hsb. cbn [negb]. cbn. by rewrite Hrb.
Qed.

Lemma jump_frame_witness :
  let floor := sample_object Block 0 32 in
  let p := Player.with_bottom_collision true sample_player in
  K_UP key_up = true /\ Player.bottom_collision p = true
  /\ exists p',
       Player.update key_up [floor] p = Ok p'
       /\ Player.vertical_speed p'
          = PyNum.add (PyNum.PyInt (- Player.JUMP_SPEED))
              Player.FALL_ACCELERATION
       /\ Player.bottom_collision p' = false
       /\ Rect.top (Player.rect p') = - Player.JUMP_SPEED.
Proof.
  intros floor p. split; [reflexivity |]. split; [reflexivity |].
  destruct (jump_frame key_up [floor] p eq_refl eq_refl)
    as (_ & p1 & p' & _ & Hupd & _ & Hv & Hb & Hfree & _).
  destruct Hfree as [Hv1 Htop]; [repeat constructor |].
  exists p'. split; [exact Hupd |]. rewrite Hv1 in Hv.
  split; [exact Hv |]. split; [exact Hb | exact Htop].
Defined.

(** C4 fails as stated: a player resting on a floor with "up" pressed ends
    the frame with vertical speed -9.7 (the double -10 + 0.3), not
    [-JUMP_SPEED]: the fall acceleration is added in the same [update]. *)
Lemma jump_frame_does_not_end_at_minus_jump_speed :
  let floor := sample_object Block 0 32 in
  let p := Player.with_bottom_collision true sample_player in
  exists p',
    Player.update key_up [floor] p = Ok p'
    /\ Player.vertical_speed p' = PyNum.PyFloat (-0x1.3666666666666p+3)
    /\ Player.vertical_speed p' <> PyNum.PyInt (- Player.JUMP_SPEED)
    /\ PrimFloat.eqb (PyNum.to_float (Player.vertical_speed p'))
         (PyNum.float_of_int (- Player.JUMP_SPEED)) = false
    /\ Player.bottom_collision p' = false.
Proof.
  cbn zeta. eexists. split; [reflexivity |].
  split_and!; [reflexivity | discriminate | reflexivity | reflexivity].
Qed.

(** ** Level loading *)

Section Loading.

Import Level.

Implicit Types (lv : Level.t) (g : Group.t) (W : World).
Implicit Types (done cells : list (Z * Z * ascii)).

Lemma new_object_ok W c x y lv :
  exists o,
    new_object W c x y lv
    = Ok (length (store lv), with_store (store lv ++ [Object o]) lv)
    /\ BaseObject.class_of o = c
    /\ Rect.left (BaseObject.rect o) = x
    /\ Rect.top (BaseObject.rect o) = y.
Proof.
  unfold new_object.
  destruct (__init___ok W c (get_ticks W (length (store lv)))
              (randint W (length (store lv))) x y (_sprite_size lv))
    as (s0 & rest & _ & ->).
  eexists. split; [reflexivity |]. done.
Qed.

Lemma new_player_ok W x y lv :
  exists p,
    new_player W x y lv
    = Ok (length (store lv), with_store (store lv ++ [ThePlayer p]) lv)
    /\ BaseObject.class_of (Player.base p) = PlayerCls
    /\ Rect.left (Player.rect p) = x
    /\ Rect.top (Player.rect p) = y.
Proof.
  unfold new_player, Player.__init__.
  destruct (__init___ok W PlayerCls (get_ticks W (length (store lv)))
              (randint W (length (store lv))) x y (_sprite_size lv))
    as (s0 & rest & _ & ->).
  eexists. split; [reflexivity |]. done.
Qed.

(** *** Descriptions and an append-only store *)

Lemma describe_bound lv g l :
  describe lv g = Some <$> l ->
  Forall (fun r => (r < length (store lv))%nat) g.
Proof.
  revert l. induction g as [| r g IH]; intros [| e l] H; try done.
  injection H as Hr Hg. constructor; [| by eapply IH].
  unfold entity_at in Hr.
  destruct (store lv !! r) eqn:E; [| done]. by eapply lookup_lt_Some.
Qed.

Lemma describe_old lv lv' g ss :
  store lv' = store lv ++ ss ->
  Forall (fun r => (r < length (store lv))%nat) g ->
  describe lv' g = describe lv g.
Proof.
  intros Hs. induction 1 as [| r g Hr _ IH]; [done |].
  cbn. f_equal; [| exact IH].
  unfold entity_at. by rewrite Hs, lookup_app_l.
Qed.

Lemma entity_at_new lv lv' s :
  store lv' = store lv ++ [s] ->
  entity_at lv' (length (store lv))
  = Some (BaseObject.class_of (base_of s),
          (Rect.left (BaseObject.rect (base_of s)),
           Rect.top (BaseObject.rect (base_of s)))).
Proof.
  intros Hs. unfold entity_at.
  by rewrite Hs, lookup_app_r, Nat.sub_diag by done.
Qed.

Lemma describe_extend lv lv' g l s e (b : bool) :
  describe lv g = Some <$> l ->
  store lv' = store lv ++ [s] ->
  e = (BaseObject.class_of (base_of s),
       (Rect.left (BaseObject.rect (base_of s)),
        Rect.top (BaseObject.rect (base_of s)))) ->
  describe lv' (g ++ (if b then [length (store lv)] else []))
  = Some <$> (l ++ (if b then [e] else [])).
Proof.
  intros Hg Hs ->. unfold describe at 1.
  rewrite map_app, fmap_app.
  change (map (entity_at lv') g) with (describe lv' g).
  rewrite (describe_old lv lv' g [s] Hs) by by eapply describe_bound.
  rewrite Hg. f_equal.
  destruct b; [| done]. cbn. by rewrite (entity_at_new lv lv' s Hs).
Qed.

Lemma entities_snoc size keep done row_num column_num cell c :
  cell_class cell = Some c ->
  entities size keep (done ++ [(row_num, column_num, cell)])
  = entities size keep done
    ++ (if keep c then [(c, (column_num * size, row_num * size))] else []).
Proof.
  intros Hc. unfold entities. rewrite omap_app. f_equal.
  cbn. rewrite Hc. cbn. by destruct (keep c).
Qed.

Lemma entities_snoc_none size keep done row_num column_num cell :
  cell_class cell = None ->
  entities size keep (done ++ [(row_num, column_num, cell)])
  = entities size keep done.
Proof.
  intros Hc. unfold entities. rewrite omap_app. cbn. rewrite Hc. cbn.
  apply app_nil_r.
Qed.

Lemma fresh_ref lv g l :
  describe lv g = Some <$> l -> length (store lv) ∉ g.
Proof.
  intros H Hin. apply describe_bound in H.
  rewrite Forall_forall in H. specialize (H _ Hin). lia.
Qed.

Lemma NoDup_extend lv g l (b : bool) :
  describe lv g = Some <$> l -> NoDup g ->
  NoDup (g ++ (if b then [length (store lv)] else [])).
Proof.
  intros H Hn. destruct b; [| by rewrite app_nil_r].
  apply NoDup_app. split_and!; [done | | apply NoDup_singleton].
  intros r Hr ->%list_elem_of_singleton. by eapply fresh_ref.
Qed.

(** *** One cell *)

(** A cell that stands for no class changes nothing. *)
Lemma scanned_skip size nm done lv row_num column_num cell :
  cell_class cell = None ->
  scanned size nm done lv ->
  scanned size nm (done ++ [(row_num, column_num, cell)]) lv.
Proof.
  intros Hc []. split; rewrite ?entities_snoc_none; done.
Qed.

(** A cell of class [c]: one object of that class at the cell's position
    enters the store, and its reference enters the group of its class. *)
Lemma scanned_extend size nm done lv lv' row_num column_num cell c s :
  scanned size nm done lv ->
  cell_class cell = Some c ->
  store lv' = store lv ++ [s] ->
  (BaseObject.class_of (base_of s),
   (Rect.left (BaseObject.rect (base_of s)),
    Rect.top (BaseObject.rect (base_of s))))
  = (c, (column_num * size, row_num * size)) ->
  _sprite_size lv' = _sprite_size lv ->
  name lv' = name lv ->
  all_objects lv' = all_objects lv ->
  safe_objects lv'
  = safe_objects lv ++ (if is_block c then [length (store lv)] else []) ->
  traps lv' = traps lv ++ (if is_trap c then [length (store lv)] else []) ->
  exits lv' = exits lv ++ (if is_exit c then [length (store lv)] else []) ->
  option_list (player lv')
  = option_list (player lv)
    ++ (if is_player c then [length (store lv)] else []) ->
  scanned size nm (done ++ [(row_num, column_num, cell)]) lv'.
Proof.
  intros [] Hc Hs He Hsz Hnm Hall Hsafe Htraps Hexits Hplayer.
  destruct scanned_nodup0 as (Hn1 & Hn2 & Hn3).
  split; rewrite ?(entities_snoc _ _ _ _ _ _ c Hc).
  - congruence.
  - congruence.
  - congruence.
  - rewrite Hsafe. by eapply describe_extend.
  - rewrite Htraps. by eapply describe_extend.
  - rewrite Hexits. by eapply describe_extend.
  - rewrite Hplayer. by eapply describe_extend.
  - rewrite Hs, !length_app, scanned_store0. done.
  - rewrite Hsafe, Htraps, Hexits.
    split_and!; by eapply NoDup_extend.
Qed.

(** [load_cell] by the class of the cell. *)
Lemma load_cell_unfold W row_num column_num cell lv :
  load_cell W row_num column_num cell lv =
  let x := column_num * _sprite_size lv in
  let y := row_num * _sprite_size lv in
  match cell_class cell with
  | None => Ok lv
  | Some Block =>
      '(r, lv) ← new_object W Block x y lv;
      Ok (with_safe_objects (Group.add_internal (safe_objects lv) r) lv)
  | Some Fire =>
      '(r, lv) ← new_object W Fire x y lv;
      Ok (with_traps (Group.add_internal (traps lv) r) lv)
  | Some BlueFire =>
      '(r, lv) ← new_object W BlueFire x y lv;
      Ok (with_traps (Group.add_internal (traps lv) r) lv)
  | Some LevelExit =>
      '(r, lv) ← new_object W LevelExit x y lv;
      Ok (with_exits (Group.add_internal (exits lv) r) lv)
  | Some PlayerCls =>
      match player lv with
      | Some _ =>
          Raise (ValueError only_one_player)
      | None =>
          '(r, lv) ← new_player W x y lv;
          Ok (with_player (Some r) lv)
      end
  end.
Proof.
  unfold load_cell, cell_class.
  repeat case_decide; subst; try discriminate; cbn zeta;
    try reflexivity;
    try (match goal with
         | |- context [new_object ?W ?c ?x ?y ?lv] =>
             destruct (new_object W c x y lv) as [[? ?] | ?]
         end; reflexivity).
Qed.

Lemma add_internal_fresh lv g l :
  describe lv g = Some <$> l ->
  Group.add_internal g (length (store lv)) = g ++ [length (store lv)].
Proof.
  intros H. unfold Group.add_internal.
  rewrite decide_False; [done |]. by eapply fresh_ref.
Qed.

(** A cell of a class other than the player: one object enters the store
    and the group of its class. *)
Lemma load_cell_static W size nm done lv row_num column_num cell c :
  scanned size nm done lv ->
  cell_class cell = Some c -> c <> PlayerCls ->
  exists lv',
    load_cell W row_num column_num cell lv = Ok lv'
    /\ scanned size nm (done ++ [(row_num, column_num, cell)]) lv'.
Proof.
  intros Hsc Hc Hnp. rewrite load_cell_unfold, Hc. cbn zeta.
  pose proof Hsc as [Hsz _ _ Hsafe Htraps Hexits _ _ _]. rewrite Hsz.
  destruct (new_object_ok W c (column_num * size) (row_num * size) lv)
    as (o & Hnew & Hcl & Hl & Ht).
  destruct c; try done; rewrite Hnew; cbn;
    [ rewrite (add_internal_fresh lv _ _ Hsafe)
    | rewrite (add_internal_fresh lv _ _ Hexits)
    | rewrite (add_internal_fresh lv _ _ Htraps)
    | rewrite (add_internal_fresh lv _ _ Htraps) ];
    (eexists; split; [reflexivity |]);
    match type of Hc with
    | _ = Some ?c =>
        eapply (scanned_extend size nm done lv _ row_num column_num cell
                  c (Object o)); try done;
          cbn; rewrite ?app_nil_r, ?Hcl, ?Hl, ?Ht; done
    end.
Qed.

(** The first player cell: the player enters the store and becomes the
    level's player. *)
Lemma load_cell_player W size nm done lv row_num column_num cell :
  scanned size nm done lv ->
  cell_class cell = Some PlayerCls -> player lv = None ->
  exists lv',
    load_cell W row_num column_num cell lv = Ok lv'
    /\ scanned size nm (done ++ [(row_num, column_num, cell)]) lv'.
Proof.
  intros Hsc Hc Hpl. rewrite load_cell_unfold, Hc, Hpl. cbn zeta.
  pose proof Hsc as [Hsz _ _ _ _ _ _ _ _]. rewrite Hsz.
  destruct (new_player_ok W (column_num * size) (row_num * size) lv)
    as (p & -> & Hcl & Hl & Ht).
  cbn. eexists. split; [reflexivity |].
  eapply (scanned_extend size nm done lv _ row_num column_num cell
            PlayerCls (ThePlayer p)); try done;
    cbn; unfold Player.rect in *; rewrite ?app_nil_r, ?Hcl, ?Hl, ?Ht, ?Hpl;
    done.
Qed.

(** One cell of the scan: a second player cell raises the configuration
    error; every other cell is loaded, and the level then describes the
    cells scanned so far. *)
Lemma load_cell_step W size nm done lv row_num column_num cell :
  scanned size nm done lv ->
  match cell_class cell, player lv with
  | Some PlayerCls, Some _ =>
      load_cell W row_num column_num cell lv
      = Raise (ValueError only_one_player)
  | _, _ =>
      exists lv',
        load_cell W row_num column_num cell lv = Ok lv'
        /\ scanned size nm (done ++ [(row_num, column_num, cell)]) lv'
  end.
Proof.
  intros Hsc.
  destruct (cell_class cell) as [c |] eqn:Hc.
  - destruct (decide (c = PlayerCls)) as [-> | Hnp].
    + destruct (player lv) eqn:Hpl.
      * by rewrite load_cell_unfold, Hc, Hpl.
      * by apply load_cell_player.
    + pose proof (load_cell_static W size nm done lv row_num column_num cell
                    c Hsc Hc Hnp) as Hok.
      destruct c; try done; by destruct (player lv).
  - assert (exists lv',
              load_cell W row_num column_num cell lv = Ok lv'
              /\ scanned size nm (done ++ [(row_num, column_num, cell)]) lv')
      as Hok.
    { exists lv. rewrite load_cell_unfold, Hc.
      split; [done | by apply scanned_skip]. }
    by destruct (player lv).
Qed.

(** *** The whole scan *)

Lemma scanned_player_count size nm done lv :
  scanned size nm done lv ->
  length (entities size is_player done)
  = match player lv with Some _ => 1%nat | None => 0%nat end.
Proof.
  intros [_ _ _ _ _ _ H _ _].
  apply (f_equal length) in H. unfold describe in H.
  rewrite length_map, length_fmap in H. rewrite <- H.
  by destruct (player lv).
Qed.

(** Scanning [cells] after [done]: with at most one player cell in all,
    the scan succeeds and the level describes all the cells; with more, it
    raises the configuration error. *)
Lemma load_cells_spec W size nm cells : forall done lv,
  scanned size nm done lv ->
  if decide (length (entities size is_player (done ++ cells)) <= 1)%nat
  then exists lv',
         load_cells W cells lv = Ok lv'
         /\ scanned size nm (done ++ cells) lv'
  else load_cells W cells lv = Raise (ValueError only_one_player).
Proof.
  induction cells as [| [[row_num column_num] cell] cells IH];
    intros done lv Hsc.
  - rewrite app_nil_r, (scanned_player_count _ _ _ _ Hsc).
    rewrite decide_True by (destruct (player lv); lia).
    by exists lv.
  - cbn [load_cells].
    pose proof (load_cell_step W size nm done lv row_num column_num cell Hsc)
      as Hstep.
    pose proof (scanned_player_count _ _ _ _ Hsc) as Hcount.
    replace (done ++ (row_num, column_num, cell) :: cells)
      with ((done ++ [(row_num, column_num, cell)]) ++ cells)
      by (by rewrite <- app_assoc).
    assert (Hnext : (exists lv',
              load_cell W row_num column_num cell lv = Ok lv'
              /\ scanned size nm (done ++ [(row_num, column_num, cell)]) lv')
            -> if decide
                    (length
                       (entities size is_player
                          ((done ++ [(row_num, column_num, cell)]) ++ cells))
                     <= 1)%nat
               then exists lv',
                      (lv0 ← load_cell W row_num column_num cell lv;
                       load_cells W cells lv0) = Ok lv'
                      /\ scanned size nm
                           ((done ++ [(row_num, column_num, cell)]) ++ cells)
                           lv'
               else (lv0 ← load_cell W row_num column_num cell lv;
                     load_cells W cells lv0)
                    = Raise (ValueError only_one_player)).
    { intros (lv1 & -> & Hsc1). exact (IH _ lv1 Hsc1). }
    destruct (cell_class cell) as [c |] eqn:Hc; [| by apply Hnext].
    destruct c; try by apply Hnext.
    destruct (player lv); [| by apply Hnext].
    rewrite Hstep. rewrite decide_False; [done |].
    unfold entities in *. rewrite !omap_app, !length_app.
    cbn. rewrite Hc. cbn. lia.
Qed.

Lemma load_row_cells W row_num row : forall column_num lv,
  load_row W row_num column_num row lv
  = load_cells W (row_cells row_num column_num row) lv.
Proof.
  induction row as [| cell row IH]; intros column_num lv; [done |].
  cbn. destruct (load_cell W row_num column_num cell lv); [| done].
  cbn. apply IH.
Qed.

Lemma load_cells_app W cells1 cells2 : forall lv,
  load_cells W (cells1 ++ cells2) lv
  = (lv' ← load_cells W cells1 lv; load_cells W cells2 lv').
Proof.
  induction cells1 as [| [[row_num column_num] cell] cells1 IH]; intros lv;
    [done |].
  cbn. destruct (load_cell W row_num column_num cell lv); [| done].
  cbn. apply IH.
Qed.

Lemma load_rows_cells W level_map : forall row_num lv,
  load_rows W row_num level_map lv
  = load_cells W (map_cells row_num level_map) lv.
Proof.
  induction level_map as [| row level_map IH]; intros row_num lv; [done |].
  cbn. rewrite load_cells_app, load_row_cells.
  destruct (load_cells W (row_cells row_num 0 row) lv); [| done].
  cbn. apply IH.
Qed.

(** *** Filling [all_objects] *)

Lemma foldl_add_internal_fresh g' : forall g,
  NoDup g' -> (forall r, r ∈ g' -> r ∉ g) ->
  foldl Group.add_internal g g' = g ++ g'.
Proof.
  induction g' as [| r g' IH]; intros g Hn Hd; [by rewrite app_nil_r |].
  apply NoDup_cons in Hn as [Hr Hn]. cbn.
  unfold Group.add_internal at 2.
  rewrite decide_False by (apply Hd; left).
  rewrite IH; [by rewrite <- app_assoc | done |].
  intros r' Hr' [Hin | ->%list_elem_of_singleton]%elem_of_app.
  - by apply (Hd r'); [right |].
  - done.
Qed.

Lemma entities_keep size keep cells e :
  e ∈ entities size keep cells -> keep e.1 = true.
Proof.
  unfold entities. intros [[[row_num column_num] cell] [_ H]]%list_elem_of_omap.
  destruct (cell_class cell) as [c |]; [| done]. cbn in H.
  destruct (keep c) eqn:Hk; [| done]. by injection H as <-.
Qed.

(** Groups of different classes share no sprite. *)
Lemma describe_disjoint lv size cells g1 g2 keep1 keep2 :
  describe lv g1 = Some <$> entities size keep1 cells ->
  describe lv g2 = Some <$> entities size keep2 cells ->
  (forall c, keep1 c = true -> keep2 c = true -> False) ->
  forall r, r ∈ g1 -> r ∉ g2.
Proof.
  intros H1 H2 Hk r Hr1 Hr2.
  assert (Hin : forall g keep,
    describe lv g = Some <$> entities size keep cells -> r ∈ g ->
    exists e, entity_at lv r = Some e /\ keep e.1 = true).
  { intros g keep Hg Hr.
    assert (He : entity_at lv r ∈ describe lv g)
      by (apply list_elem_of_fmap; eauto).
    rewrite Hg in He. apply list_elem_of_fmap in He as (e & -> & He).
    exists e. split; [done |]. by eapply entities_keep. }
  destruct (Hin g1 keep1 H1 Hr1) as (e1 & He1 & Hk1).
  destruct (Hin g2 keep2 H2 Hr2) as (e2 & He2 & Hk2).
  rewrite He1 in He2. injection He2 as <-. eauto.
Qed.

Lemma scanned_nil size nm : scanned size nm [] (blank nm size).
Proof. split; try done. cbn. split_and!; constructor. Qed.

(** [Level(name, map, size)] by the number of player cells of the map: none,
    [self.all_objects.add(None)] raises; one, the level is built, and
    [all_objects] lists the player, the solids, the traps and the exits;
    more, the second player cell raises the configuration error. *)
Lemma __init___spec W nm level_map size :
  match length (entities size is_player (map_cells 0 level_map)) with
  | 0%nat => __init__ W nm level_map size = Raise AttributeError
  | 1%nat =>
      exists lv0 p,
        scanned size nm (map_cells 0 level_map) lv0
        /\ player lv0 = Some p
        /\ __init__ W nm level_map size
           = Ok (with_all_objects
                   (p :: safe_objects lv0 ++ traps lv0 ++ exits lv0) lv0)
  | _ => __init__ W nm level_map size = Raise (ValueError only_one_player)
  end.
Proof.
  unfold __init__, load_map. rewrite load_rows_cells.
  pose proof (load_cells_spec W size nm (map_cells 0 level_map) [] _
                (scanned_nil size nm)) as H.
  rewrite app_nil_l in H.
  destruct (decide (length (entities size is_player (map_cells 0 level_map))
                    <= 1)%nat) as [Hle | Hgt].
  2:{ rewrite H.
      destruct (length (entities size is_player (map_cells 0 level_map)))
        as [| [| n]]; (lia || done). }
  destruct H as (lv0 & -> & Hsc). cbn [mbind result_bind].
  pose proof (scanned_player_count _ _ _ _ Hsc) as Hcount.
  unfold player_arg.
  destruct (player lv0) as [p |] eqn:Hp; rewrite Hcount; [| done].
  exists lv0, p. split; [done |]. split; [done |].
  pose proof Hsc as [_ _ Hall Hsafe Htraps Hexits Hplayer _ (Hn1 & Hn2 & Hn3)].
  rewrite Hp in Hplayer. rewrite Hall. cbn.
  unfold Group.add_internal at 4. rewrite decide_False by apply not_elem_of_nil.
  rewrite app_nil_l.
  assert (Hps : forall r, r ∈ safe_objects lv0 -> r ∉ [p]).
  { eapply describe_disjoint; [exact Hsafe | exact Hplayer |].
    by intros []. }
  assert (Hpt : forall r, r ∈ traps lv0 -> r ∉ [p]).
  { eapply describe_disjoint; [exact Htraps | exact Hplayer |].
    by intros []. }
  assert (Hpe : forall r, r ∈ exits lv0 -> r ∉ [p]).
  { eapply describe_disjoint; [exact Hexits | exact Hplayer |].
    by intros []. }
  assert (Hts : forall r, r ∈ traps lv0 -> r ∉ safe_objects lv0).
  { eapply describe_disjoint; [exact Htraps | exact Hsafe |].
    by intros []. }
  assert (Hes : forall r, r ∈ exits lv0 -> r ∉ safe_objects lv0).
  { eapply describe_disjoint; [exact Hexits | exact Hsafe |].
    by intros []. }
  assert (Het : forall r, r ∈ exits lv0 -> r ∉ traps lv0).
  { eapply describe_disjoint; [exact Hexits | exact Htraps |].
    by intros []. }
  rewrite (foldl_add_internal_fresh (safe_objects lv0)) by done.
  rewrite (foldl_add_internal_fresh (traps lv0)).
  2: done.
  2:{ intros r Hr [H1 | H2]%elem_of_app; [by eapply Hpt | by eapply Hts]. }
  rewrite (foldl_add_internal_fresh (exits lv0)).
  2: done.
  2:{ intros r Hr [[H1 | H2]%elem_of_app | H3]%elem_of_app;
        [by eapply Hpe | by eapply Hes | by eapply Het]. }
  by rewrite <- !app_assoc.
Qed.

(** *** Cells, counts and positions *)

Lemma row_cells_chars row_num row : forall column_num,
  (row_cells row_num column_num row).*2 = row.
Proof.
  induction row as [| cell row IH]; intros column_num; [done |].
  cbn. by rewrite IH.
Qed.

Lemma map_cells_chars level_map : forall row_num,
  (map_cells row_num level_map).*2 = concat level_map.
Proof.
  induction level_map as [| row level_map IH]; intros row_num; [done |].
  cbn. by rewrite fmap_app, row_cells_chars, IH.
Qed.

(** The objects of the classes [keep] are as many as the cells whose
    character stands for such a class. *)
Lemma length_entities size keep cells :
  length (entities size keep cells)
  = length (filter (fun ch => from_option keep false (cell_class ch) = true)
              (cells.*2)).
Proof.
  induction cells as [| [[row_num column_num] cell] cells IH]; [done |].
  rewrite fmap_cons, filter_cons. unfold entities in *.
  cbn [omap list_omap snd].
  destruct (cell_class cell) as [c |]; cbn [from_option mbind option_bind].
  - destruct (keep c) eqn:Hk.
    + rewrite decide_True by done. cbn. by f_equal.
    + by rewrite decide_False.
  - by rewrite decide_False.
Qed.

Lemma count_cells_entities size keep ch level_map :
  (forall ch', from_option keep false (cell_class ch') = true <-> ch' = ch) ->
  length (entities size keep (map_cells 0 level_map))
  = count_cells ch level_map.
Proof.
  intros H. rewrite length_entities, map_cells_chars. unfold count_cells.
  f_equal. by apply list_filter_iff.
Qed.

Lemma cell_class_P ch :
  from_option is_player false (cell_class ch) = true <-> ch = "P"%char.
Proof.
  unfold cell_class. repeat case_decide; subst; cbn; split; done.
Qed.

Lemma cell_class_B ch :
  from_option is_block false (cell_class ch) = true <-> ch = "B"%char.
Proof.
  unfold cell_class. repeat case_decide; subst; cbn; split; done.
Qed.

Lemma cell_class_E ch :
  from_option is_exit false (cell_class ch) = true <-> ch = "E"%char.
Proof.
  unfold cell_class. repeat case_decide; subst; cbn; split; done.
Qed.

Lemma cell_class_entity ch :
  from_option (fun _ => true) false (cell_class ch) = true
  <-> is_entity ch = true.
Proof.
  unfold cell_class.
  repeat case_decide; subst; cbn [from_option]; split; intros He;
    try done; try (by vm_compute).
  unfold is_entity in He. apply bool_decide_eq_true in He.
  rewrite !elem_of_cons, elem_of_nil in He.
  destruct He as [-> | [-> | [-> | [-> | [-> | []]]]]]; done.
Qed.

Lemma row_cells_lookup row_num row c ch : forall column_num,
  row !! c = Some ch ->
  (row_num, column_num + Z.of_nat c, ch) ∈ row_cells row_num column_num row.
Proof.
  revert c. induction row as [| cell row IH]; intros c column_num H; [done |].
  destruct c as [| c]; cbn in *.
  - injection H as ->. rewrite Z.add_0_r. left.
  - right. replace (column_num + Z.of_nat (S c))
      with ((column_num + 1) + Z.of_nat c) by lia.
    by apply IH.
Qed.

Lemma map_cells_lookup level_map r c ch : forall row_num,
  cell_at level_map r c = Some ch ->
  (row_num + Z.of_nat r, Z.of_nat c, ch) ∈ map_cells row_num level_map.
Proof.
  revert r. induction level_map as [| row level_map IH]; intros r row_num H;
    [done |].
  unfold cell_at in H. destruct r as [| r]; cbn in *.
  - apply elem_of_app. left. rewrite Z.add_0_r.
    by apply (row_cells_lookup row_num row c ch 0).
  - apply elem_of_app. right.
    replace (row_num + Z.of_nat (S r))
      with ((row_num + 1) + Z.of_nat r) by lia.
    by apply IH.
Qed.

Lemma entities_at size keep level_map r c ch cl :
  cell_at level_map r c = Some ch ->
  cell_class ch = Some cl -> keep cl = true ->
  (cl, (Z.of_nat c * size, Z.of_nat r * size))
  ∈ entities size keep (map_cells 0 level_map).
Proof.
  intros Hat Hcl Hk. unfold entities. apply list_elem_of_omap.
  exists (Z.of_nat r, Z.of_nat c, ch). split.
  - by apply (map_cells_lookup level_map r c ch 0).
  - cbn. rewrite Hcl. cbn. by rewrite Hk.
Qed.

Lemma singleton_of_length {A} (l : list A) (x : A) :
  length l = 1%nat -> x ∈ l -> l = [x].
Proof.
  destruct l as [| y [| z l]]; try done.
  by intros _ ->%list_elem_of_singleton.
Qed.

End Loading.




Lemma describe_singleton (lv : Level.t) (g : Group.t) (e : cls * (Z * Z)) :
  Level.describe lv g = [Some e] ->
  exists r, g = [r] /\ Level.entity_at lv r = Some e.
Proof.
  destruct g as [| r [| r' g]]; try done.
  intros [= H]. by exists r.
Qed.

(** C2: a map with two or more player cells makes the constructor raise the
    configuration error; the caller gets the exception and no level. *)
Theorem two_players_raise
    (W : World) (name : string) (level_map : list (list ascii)) (size : Z) :
  (2 <= count_cells "P" level_map)%nat ->
  Level.__init__ W name level_map size
  = Raise (ValueError Level.only_one_player)
  /\ forall lv, Level.__init__ W name level_map size <> Ok lv.
Proof.
  intros Hc. pose proof (__init___spec W name level_map size) as H.
  rewrite (count_cells_entities size is_player "P" level_map cell_class_P)
    in H.
  destruct (count_cells "P" level_map) as [| [| n]]; [lia | lia |].
  rewrite H. split; [done |]. intros lv. discriminate.
Qed.

Lemma two_players_raise_witness :
  (2 <= count_cells "P" map_two_players)%nat
  /\ Level.__init__ sample_world "Level 1" map_two_players 32
     = Raise (ValueError Level.only_one_player).
Proof.
  assert (H : (2 <= count_cells "P" map_two_players)%nat)
    by (vm_compute; lia).
  split; [exact H |].
  exact (proj1 (two_players_raise sample_world "Level 1" map_two_players 32 H)).
Defined.

(** C1 on the code: for a map with no player cell, the two loops of
    [load_map] run to their end, leave the player reference unset and fill
    the solid, trap and exit groups from the map; then
    [self.all_objects.add(self.player)] is handed [None] and raises
    [AttributeError], so the constructor fails and returns no level. *)
Theorem no_player_load_raises
    (W : World) (name : string) (level_map : list (list ascii)) (size : Z) :
  count_cells "P" level_map = 0%nat ->
  (exists lv0,
     Level.load_rows W 0 level_map (Level.blank name size) = Ok lv0
     /\ Level.player lv0 = None
     /\ scanned size name (map_cells 0 level_map) lv0)
  /\ Level.__init__ W name level_map size = Raise AttributeError.
Proof.
  intros Hc.
  assert (Hp : length (entities size is_player (map_cells 0 level_map))
               = 0%nat).
  { by rewrite (count_cells_entities size is_player "P" level_map
                  cell_class_P). }
  split.
  - rewrite load_rows_cells.
    pose proof (load_cells_spec W size name (map_cells 0 level_map) [] _
                  (scanned_nil size name)) as H.
    rewrite app_nil_l, Hp in H. cbn in H.
    destruct H as (lv0 & Hl & Hsc). exists lv0. split_and!; try done.
    pose proof (scanned_player_count _ _ _ _ Hsc) as Hn. rewrite Hp in Hn.
    by destruct (Level.player lv0).
  - pose proof (__init___spec W name level_map size) as H.
    by rewrite Hp in H.
Qed.

Lemma no_player_load_raises_witness :
  count_cells "P" map_no_player = 0%nat
  /\ Level.__init__ sample_world "Level 1" map_no_player 32
     = Raise AttributeError.
Proof.
  assert (H : count_cells "P" map_no_player = 0%nat) by reflexivity.
  split; [exact H |].
  exact (proj2 (no_player_load_raises sample_world "Level 1" map_no_player 32
                  H)).
Defined.

(** C8: a map with exactly one "B", one "P" and one "E" loads into a level
    whose solid group, exit group and player reference hold one sprite each,
    of the right class, at (column * size, row * size) of its cell;
    [all_objects] lists the player, the solid, the traps and the exit; the
    store holds one object per cell in "B", "T", "t", "E", "P", and a cell of
    any other character leaves the level as it is. *)
Theorem one_block_player_exit
    (W : World) (name : string) (level_map : list (list ascii)) (size : Z)
    (rB cB rP cP rE cE : nat) :
  cell_at level_map rB cB = Some "B"%char ->
  cell_at level_map rP cP = Some "P"%char ->
  cell_at level_map rE cE = Some "E"%char ->
  count_cells "B" level_map = 1%nat ->
  count_cells "P" level_map = 1%nat ->
  count_cells "E" level_map = 1%nat ->
  exists lv b p e,
    Level.__init__ W name level_map size = Ok lv
    /\ Level.safe_objects lv = [b]
    /\ Level.player lv = Some p
    /\ Level.exits lv = [e]
    /\ Level.entity_at lv b
       = Some (Block, (Z.of_nat cB * size, Z.of_nat rB * size))
    /\ Level.entity_at lv p
       = Some (PlayerCls, (Z.of_nat cP * size, Z.of_nat rP * size))
    /\ Level.entity_at lv e
       = Some (LevelExit, (Z.of_nat cE * size, Z.of_nat rE * size))
    /\ Level.all_objects lv = p :: b :: Level.traps lv ++ [e]
    /\ length (Level.store lv)
       = length (filter (fun ch => is_entity ch = true) (concat level_map))
    /\ (forall W' row_num column_num ch lv0,
        is_entity ch = false ->
        Level.load_cell W' row_num column_num ch lv0 = Ok lv0).
Proof.
  intros HB HP HE HcB HcP HcE.
  pose proof (__init___spec W name level_map size) as H.
  pose proof (count_cells_entities size is_player "P" level_map cell_class_P)
    as HnP.
  pose proof (count_cells_entities size is_block "B" level_map cell_class_B)
    as HnB.
  pose proof (count_cells_entities size is_exit "E" level_map cell_class_E)
    as HnE.
  rewrite HnP, HcP in H. destruct H as (lv0 & p & Hsc & Hp & Hinit).
  pose proof Hsc as [_ _ _ Hsafe _ Hexits Hplayer Hstore _].
  rewrite (singleton_of_length _ _ (eq_trans HnB HcB)
             (entities_at size is_block level_map rB cB "B" Block HB
                eq_refl eq_refl)) in Hsafe.
  rewrite (singleton_of_length _ _ (eq_trans HnE HcE)
             (entities_at size is_exit level_map rE cE "E" LevelExit HE
                eq_refl eq_refl)) in Hexits.
  rewrite (singleton_of_length _ _ (eq_trans HnP HcP)
             (entities_at size is_player level_map rP cP "P" PlayerCls HP
                eq_refl eq_refl)) in Hplayer.
  apply describe_singleton in Hsafe as (b & Hb & Hbe).
  apply describe_singleton in Hexits as (e & He & Hee).
  apply describe_singleton in Hplayer as (p' & Hp' & Hpe).
  rewrite Hp in Hp'. injection Hp' as <-.
  rewrite Hb, He in Hinit.
  exists (Level.with_all_objects (p :: [b] ++ Level.traps lv0 ++ [e]) lv0),
    b, p, e.
  split_and!; try done.
  - cbn. rewrite Hstore, length_entities, map_cells_chars. f_equal.
    apply list_filter_iff. intros ch. apply cell_class_entity.
  - intros W' row_num column_num ch lv1 Hch.
    rewrite load_cell_unfold. cbn zeta.
    destruct (cell_class ch) eqn:Hcl; [| done].
    assert (from_option (fun _ => true) false (cell_class ch) = true)
      as Ht%cell_class_entity by by rewrite Hcl.
    congruence.
Qed.

Lemma one_block_player_exit_witness :
  cell_at map_one_each 1 1 = Some "B"%char
  /\ cell_at map_one_each 0 1 = Some "P"%char
  /\ cell_at map_one_each 0 3 = Some "E"%char
  /\ exists lv b p e,
       Level.__init__ sample_world "Level 1" map_one_each 32 = Ok lv
       /\ Level.safe_objects lv = [b]
       /\ Level.player lv = Some p
       /\ Level.exits lv = [e]
       /\ Level.entity_at lv b = Some (Block, (32, 32))
       /\ Level.entity_at lv p = Some (PlayerCls, (32, 0))
       /\ Level.entity_at lv e = Some (LevelExit, (96, 0))
       /\ length (Level.store lv) = 5%nat.
Proof.
  split_and!; [reflexivity | reflexivity | reflexivity |].
  destruct (one_block_player_exit sample_world "Level 1" map_one_each 32
              1 1 0 1 0 3 eq_refl eq_refl eq_refl eq_refl eq_refl eq_refl)
    as (lv & b & p & e & H1 & H2 & H3 & H4 & H5 & H6 & H7 & _ & H9 & _).
  exists lv, b, p, e. split_and!; done.
Defined.

(** ** Further properties of the frame update *)

(** X1: a single-frame animator never changes, whatever the times of the
    calls. *)
Theorem single_frame_never_advances (times : list Z) (o : BaseObject.t) :
  length (BaseObject.sprites o) = 1%nat ->
  animate_calls times o = o.
Proof.
  intros H. induction times as [| now times IH]; [done |].
  unfold animate_calls in *. cbn [foldl].
  rewrite animate_idle by (left; lia). exact IH.
Qed.

Lemma single_frame_never_advances_witness :
  length (BaseObject.sprites (sample_object Block 0 0)) = 1%nat
  /\ animate_calls [1200; 5000; 9000] (sample_object Block 0 0)
     = sample_object Block 0 0.
Proof.
  split; [reflexivity |].
  apply (single_frame_never_advances [1200; 5000; 9000]
           (sample_object Block 0 0)).
  reflexivity.
Defined.

(** X2: with "left" and "right" both pressed, "right" wins: the player
    faces right and moves at [+MOVE_SPEED]. *)
Theorem right_wins_over_left (keys : ScancodeWrapper) (p : Player.t) :
  K_LEFT keys = true -> K_RIGHT keys = true ->
  Player.horizontal_speed (Player.apply_keys keys p) = Player.MOVE_SPEED
  /\ BaseObject.sprites (Player.base (Player.apply_keys keys p))
     = Player.sprites_right p.
Proof.
  intros Hl Hr. unfold Player.apply_keys. rewrite Hl, Hr.
  by destruct (K_UP keys && _).
Qed.

Lemma right_wins_over_left_witness :
  Player.horizontal_speed
    (Player.apply_keys {| K_UP := false; K_LEFT := true; K_RIGHT := true |}
       sample_player) = 2.
Proof.
  exact (proj1 (right_wins_over_left
                  {| K_UP := false; K_LEFT := true; K_RIGHT := true |}
                  sample_player eq_refl eq_refl)).
Defined.

(** X3: resting-on-surface is earned again in every resolution, and only
    by landing: if the resolution ends with the flag set, the player came in
    moving down and now stands exactly on the top edge of a solid. *)
Theorem grounded_only_by_landing
    (los : list BaseObject.t) (p p' : Player.t) :
  Player._movement_with_collision los p = Ok p' ->
  Player.bottom_collision p' = true ->
  PyNum.gt0 (Player.vertical_speed p) = true
  /\ Exists (fun lo =>
       Rect.bottom (Player.rect p') = Rect.top (BaseObject.rect lo)) los.
Proof.
  unfold Player._movement_with_collision, Player.move_vertical.
  set (ph := Player.move_horizontal los (Player.with_bottom_collision false p)).
  destruct (foldl_collide_horizontal_frame los
              (Player.with_rect
                 (Rect.move_ip (Player.horizontal_speed p) 0 (Player.rect p))
                 (Player.with_bottom_collision false p)))
    as (Hv & Hb & _).
  change (foldl Player.collide_horizontal _ _) with ph in Hv, Hb.
  cbn in Hv, Hb.
  destruct (PyNum.to_c_int (Player.vertical_speed ph)) as [dy |]; [| done].
  intros [= <-] Hg.
  destruct (foldl_collide_vertical_grounded los
              (Player.with_rect (Rect.move_ip 0 dy (Player.rect ph)) ph)
              Hb Hg) as [Hgt He].
  split; [| exact He]. cbn in Hgt. by rewrite Hv in Hgt.
Qed.

Lemma grounded_only_by_landing_witness :
  let o := sample_object Block 0 33 in
  let p := Player.with_vertical_speed (PyNum.PyInt 2) sample_player in
  exists p',
    Player._movement_with_collision [o] p = Ok p'
    /\ Player.bottom_collision p' = true
    /\ Exists (fun lo =>
         Rect.bottom (Player.rect p') = Rect.top (BaseObject.rect lo)) [o].
Proof.
  intros o p. eexists. split; [reflexivity |]. split; [reflexivity |].
  eapply (proj2 (grounded_only_by_landing [o] p _ eq_refl eq_refl)).
Defined.

(** ** Reading the map file *)

Section MapFileFacts.

Import PyStr.

Implicit Types (s line acc body : list ascii) (c ch : ascii).

Lemma isspace_LF : isspace LF = true.
Proof. reflexivity. Qed.

Lemma isspace_CR : isspace CR = true.
Proof. reflexivity. Qed.

(** *** [lstrip] and [rstrip] *)

Lemma lstrip_blank s :
  Forall (fun c => isspace c = true) s -> lstrip s = [].
Proof. induction 1 as [| c s Hc _ IH]; [done |]. cbn. by rewrite Hc. Qed.

Lemma lstrip_app_blank pre s :
  Forall (fun c => isspace c = true) pre -> lstrip (pre ++ s) = lstrip s.
Proof. induction 1 as [| c pre Hc _ IH]; [done |]. cbn. by rewrite Hc. Qed.

Lemma lstrip_fixed s :
  (forall c, head s = Some c -> isspace c = false) -> lstrip s = s.
Proof. destruct s as [| c s]; [done |]. intros H. cbn. by rewrite H. Qed.

Lemma lstrip_head s c : head (lstrip s) = Some c -> isspace c = false.
Proof.
  induction s as [| c' s IH]; [done |]. cbn.
  destruct (isspace c') eqn:E; [done |]. cbn. by intros [= <-].
Qed.

Lemma lstrip_app s1 s2 :
  lstrip (s1 ++ s2)
  = match lstrip s1 with [] => lstrip s2 | r => r ++ s2 end.
Proof.
  induction s1 as [| c s1 IH]; [done |]. cbn.
  by destruct (isspace c).
Qed.

Lemma rstrip_blank s :
  Forall (fun c => isspace c = true) s -> rstrip s = [].
Proof.
  induction 1 as [| c s Hc _ IH]; [done |]. cbn. by rewrite IH, Hc.
Qed.

Lemma rstrip_app_blank s post :
  Forall (fun c => isspace c = true) post -> rstrip (s ++ post) = rstrip s.
Proof.
  intros H. induction s as [| c s IH]; [by apply rstrip_blank |].
  cbn. by rewrite IH.
Qed.

Lemma rstrip_fixed s :
  (forall c, last s = Some c -> isspace c = false) -> rstrip s = s.
Proof.
  induction s as [| c s IH]; [done |]. intros H. cbn.
  destruct s as [| c' s].
  - cbn. by rewrite H.
  - rewrite IH by (intros c0 Hc0; by apply H). done.
Qed.

Lemma rstrip_last s c : last (rstrip s) = Some c -> isspace c = false.
Proof.
  induction s as [| c' s IH]; [done |]. cbn.
  destruct (rstrip s) as [| c'' r] eqn:E.
  - destruct (isspace c') eqn:E'; [done |]. cbn. by intros [= <-].
  - intros H. by apply IH.
Qed.

Lemma rstrip_head s c : head (rstrip s) = Some c -> head s = Some c.
Proof.
  destruct s as [| c' s]; [done |]. cbn.
  destruct (rstrip s); [| done]. by destruct (isspace c').
Qed.

(** Stripping only drops characters, and only blanks. *)
Lemma Forall_lstrip (P : ascii -> Prop) s : Forall P s -> Forall P (lstrip s).
Proof.
  induction 1 as [| c s Hc Hs IH]; [done |]. cbn.
  destruct (isspace c); [done | by constructor].
Qed.

Lemma Forall_rstrip (P : ascii -> Prop) s : Forall P s -> Forall P (rstrip s).
Proof.
  induction 1 as [| c s Hc Hs IH]; [done |]. cbn.
  destruct (rstrip s); [| by constructor].
  destruct (isspace c); [done | by repeat constructor].
Qed.

Lemma filter_lstrip (P : ascii -> Prop) `{!forall c, Decision (P c)} s :
  (forall c, P c -> isspace c = false) ->
  filter P (lstrip s) = filter P s.
Proof.
  intros HP. induction s as [| c s IH]; [done |]. cbn [lstrip].
  destruct (isspace c) eqn:E; [| done].
  rewrite filter_cons, decide_False; [done |].
  intros Hc%HP. congruence.
Qed.

Lemma filter_rstrip (P : ascii -> Prop) `{!forall c, Decision (P c)} s :
  (forall c, P c -> isspace c = false) ->
  filter P (rstrip s) = filter P s.
Proof.
  intros HP. induction s as [| c s IH]; [done |]. cbn [rstrip].
  rewrite filter_cons, <- IH.
  destruct (rstrip s) as [| c' r]; [| by rewrite filter_cons].
  destruct (isspace c) eqn:E.
  - rewrite decide_False; [done |]. intros Hc%HP. congruence.
  - by rewrite filter_cons.
Qed.

(** The newline that ends a line goes with the blanks before it. *)
Lemma strip_line body : strip (body ++ [LF]) = strip body.
Proof.
  unfold strip. rewrite lstrip_app.
  destruct (lstrip body) as [| c r] eqn:E; [done |].
  apply rstrip_app_blank. by repeat constructor.
Qed.

(** A padded row strips to the row. *)
Lemma strip_padded pre row post :
  Forall (fun c => isspace c = true) pre ->
  Forall (fun c => isspace c = true) post ->
  (forall c, head row = Some c -> isspace c = false) ->
  (forall c, last row = Some c -> isspace c = false) ->
  strip (pre ++ row ++ post) = row.
Proof.
  intros Hpre Hpost Hh Hl. unfold strip.
  rewrite lstrip_app_blank, lstrip_app, (lstrip_fixed row) by done.
  destruct row as [| c row].
  - by rewrite lstrip_blank.
  - by rewrite rstrip_app_blank, rstrip_fixed.
Qed.

(** *** Newlines and lines *)

Lemma universal_newlines_id s :
  Forall (fun c => c <> CR) s -> universal_newlines s = s.
Proof.
  induction 1 as [| c s Hc _ IH]; [done |]. cbn.
  by rewrite decide_False, IH.
Qed.

(** Translated text holds no carriage return, and keeps every other
    character but the newlines. *)
Lemma universal_newlines_spec (P : ascii -> Prop)
    `{!forall c, Decision (P c)} s :
  (forall c, P c -> c <> CR /\ c <> LF) ->
  (Forall (fun c => c <> CR) (universal_newlines s)
   /\ filter P (universal_newlines s) = filter P s)
  /\ forall c,
      Forall (fun c => c <> CR) (universal_newlines (c :: s))
      /\ filter P (universal_newlines (c :: s)) = filter P (c :: s).
Proof.
  intros HP.
  assert (HnCR : ~ P CR) by (intros Hx%HP; tauto).
  assert (HnLF : ~ P LF) by (intros Hx%HP; tauto).
  induction s as [| c' s [[IH1 IH2] IH3]].
  - split; [done |]. intros c. cbn.
    destruct (decide (c = CR)) as [-> | Hc].
    + split; [by repeat constructor |].
      by rewrite !filter_cons, !decide_False.
    + split; [by repeat constructor | done].
  - split; [apply IH3 |]. intros c.
    destruct (IH3 c') as [IH4 IH5].
    change (universal_newlines (c :: c' :: s))
      with (if decide (c = CR)
            then LF :: (if decide (c' = LF) then universal_newlines s
                        else universal_newlines (c' :: s))
            else c :: universal_newlines (c' :: s)).
    destruct (decide (c = CR)) as [-> | Hc].
    + destruct (decide (c' = LF)) as [-> | Hc'].
      * split; [by constructor |].
        by rewrite !filter_cons, !decide_False, IH2.
      * split; [by constructor |].
        by rewrite (filter_cons _ LF), (filter_cons _ CR), !decide_False, IH5.
    + split; [by constructor |].
      by rewrite !(filter_cons _ c), IH5.
Qed.

Lemma readlines_from_concat s : forall acc,
  concat (readlines_from acc s) = acc ++ s.
Proof.
  induction s as [| c s IH]; intros acc; cbn.
  - destruct acc; cbn; by rewrite ?app_nil_r.
  - destruct (decide (c = LF)); cbn; rewrite IH; by rewrite <- app_assoc.
Qed.

(** Every line is a newline-free body, closed by a newline but for the last
    line perhaps. *)
Lemma readlines_from_lines (P : ascii -> Prop) s : forall acc,
  Forall P acc -> Forall P s -> LF ∉ acc ->
  Forall (fun line =>
    exists body, (line = body ++ [LF] \/ line = body)
                 /\ (LF ∉ body) /\ Forall P body)
    (readlines_from acc s).
Proof.
  induction s as [| c s IH]; intros acc Hacc Hs Hn; cbn.
  - destruct acc as [| a acc]; [done |].
    constructor; [| done]. exists (a :: acc). auto.
  - apply Forall_cons in Hs as [Hc Hs].
    destruct (decide (c = LF)) as [-> | Hne].
    + constructor; [exists acc; auto |].
      apply IH; [done | done | apply not_elem_of_nil].
    + apply IH; [apply Forall_app; split; [done | by constructor] | done |].
      intros [Hin | Heq%list_elem_of_singleton]%elem_of_app;
        [done | congruence].
Qed.

(** Newline-free lines, each closed by a newline, are read back as they
    are. *)
Lemma readlines_from_written (lines : list (list ascii)) :
  Forall (fun line => LF ∉ line) lines ->
  forall acc body,
    LF ∉ body ->
    readlines_from acc
      (body ++ [LF] ++ concat (map (fun line => line ++ [LF]) lines))
    = (acc ++ body ++ [LF]) :: map (fun line => line ++ [LF]) lines.
Proof.
  induction 1 as [| line lines Hl _ IH]; intros acc body Hb.
  - revert acc. induction body as [| c body IHb]; intros acc; cbn.
    + by rewrite decide_True.
    + rewrite decide_False by (intros ->; apply Hb; left).
      rewrite IHb by (intros H; apply Hb; by right).
      by rewrite <- app_assoc.
  - revert acc. induction body as [| c body IHb]; intros acc.
    + cbn [app]. cbn [readlines_from]. rewrite decide_True by done.
      cbn [map concat].
      rewrite <- (app_assoc line [LF]).
      by rewrite (IH [] line Hl).
    + cbn [app readlines_from].
      rewrite decide_False by (intros ->; apply Hb; left).
      rewrite IHb by (intros H; apply Hb; by right).
      by rewrite <- app_assoc.
Qed.

End MapFileFacts.

(** X4: a map file written row by row, each row between blanks and closed
    by a newline, is read back as exactly the rows: the blanks before a row
    are dropped like those after it, so an indented row starts at column
    0. *)
Theorem read_written_rows
    (rows : list (list ascii * list ascii * list ascii)) :
  Forall (fun '(pre, row, post) =>
    MapFile.padding pre /\ MapFile.padding post /\ MapFile.stripped_row row)
    rows ->
  MapFile._read_from_file (MapFile.write_rows rows) = map (fun r => r.1.2) rows.
Proof.
  intros Hrows. unfold MapFile._read_from_file, MapFile.write_rows.
  set (line := fun r : list ascii * list ascii * list ascii =>
                 r.1.1 ++ r.1.2 ++ r.2).
  assert (Hw : concat (map (fun '(pre, row, post) =>
                 pre ++ row ++ post ++ [PyStr.LF]) rows)
               = concat (map (fun l => l ++ [PyStr.LF]) (map line rows))).
  { f_equal. rewrite map_map. apply map_ext. intros [[pre row] post].
    unfold line. cbn. by rewrite <- !app_assoc. }
  rewrite Hw. clear Hw.
  assert (Hline : Forall (fun l =>
            Forall (fun c => c <> PyStr.LF /\ c <> PyStr.CR) l)
            (map line rows)).
  { apply Forall_map. eapply Forall_impl; [exact Hrows |].
    intros [[pre row] post] (Hpre & Hpost & Hrow & _). unfold line. cbn.
    rewrite !Forall_app. split_and!; [| done |].
    - eapply Forall_impl; [exact Hpre |]. by intros c (_ & ? & ?).
    - eapply Forall_impl; [exact Hpost |]. by intros c (_ & ? & ?). }
  rewrite universal_newlines_id.
  2:{ apply Forall_concat, Forall_map.
      eapply Forall_impl; [exact Hline |]. intros l Hl. cbn.
      apply Forall_app. split; [| by repeat constructor].
      eapply Forall_impl; [exact Hl |]. by intros c [_ ?]. }
  assert (Hread : PyStr.readlines
            (concat (map (fun l => l ++ [PyStr.LF]) (map line rows)))
          = map (fun l => l ++ [PyStr.LF]) (map line rows)).
  { assert (HnoLF : Forall (fun l => PyStr.LF ∉ l) (map line rows)).
    { eapply Forall_impl; [exact Hline |]. intros l Hl Hin.
      rewrite Forall_forall in Hl. by destruct (Hl _ Hin). }
    destruct (map line rows) as [| l ls]; [done |].
    apply Forall_cons in HnoLF as [Hl Hls].
    cbn [map concat]. unfold PyStr.readlines.
    rewrite <- (app_assoc l [PyStr.LF]).
    by rewrite (readlines_from_written ls Hls [] l Hl). }
  rewrite Hread, !map_map. clear Hread Hline.
  induction Hrows
    as [| [[pre row] post] rows (Hpre & Hpost & _ & Hh & Hl) _ IH];
    [done |].
  cbn [map]. f_equal; [| exact IH].
  unfold line. cbn beta. cbn [fst snd]. rewrite strip_line.
  apply strip_padded; try done.
  - eapply Forall_impl; [exact Hpre |]. by intros c [? _].
  - eapply Forall_impl; [exact Hpost |]. by intros c [? _].
Qed.

Lemma read_written_rows_witness :
  let row s := String.list_ascii_of_string s in
  MapFile._read_from_file
    (MapFile.write_rows [(row "  ", row ".P.E", row " ");
                         ([], row "TBt", [])])
  = [row ".P.E"; row "TBt"].
Proof.
  intros row.
  apply (read_written_rows [(row "  ", row ".P.E", row " ");
                            ([], row "TBt", [])]).
  repeat constructor; try discriminate; try reflexivity;
    cbn; intros c [= <-]; reflexivity.
Defined.

(** X5: every row [_read_from_file] returns is stripped: it holds no
    newline and no carriage return, and neither its first nor its last
    character is a blank. *)
Theorem rows_are_stripped (text row : list ascii) :
  row ∈ MapFile._read_from_file text -> MapFile.stripped_row row.
Proof.
  unfold MapFile._read_from_file.
  intros (line & -> & Hline)%list_elem_of_fmap.
  destruct (universal_newlines_spec (fun _ => False) text) as [[HnoCR _] _];
    [done |].
  pose proof (readlines_from_lines (fun c => c <> PyStr.CR)
                (PyStr.universal_newlines text) [] ltac:(done) HnoCR
                ltac:(apply not_elem_of_nil)) as Hlines.
  rewrite Forall_forall in Hlines.
  destruct (Hlines line Hline) as (body & Hb & HnLF & HnCR).
  assert (Hs : PyStr.strip line = PyStr.strip body).
  { destruct Hb as [-> | ->]; [apply strip_line | done]. }
  rewrite Hs. unfold MapFile.stripped_row, PyStr.strip. split_and!.
  - apply Forall_rstrip, Forall_lstrip.
    apply Forall_forall. intros c Hc. split.
    + intros ->. done.
    + rewrite Forall_forall in HnCR. by apply HnCR.
  - intros c Hc%rstrip_head. by eapply lstrip_head.
  - intros c Hc. by eapply rstrip_last.
Qed.

Lemma rows_are_stripped_witness :
  String.list_ascii_of_string ".P.E" ∈ MapFile._read_from_file sample_map_text
  /\ MapFile.stripped_row (String.list_ascii_of_string ".P.E").
Proof.
  assert (H : String.list_ascii_of_string ".P.E"
              ∈ MapFile._read_from_file sample_map_text)
    by (vm_compute; left).
  split; [exact H |].
  exact (rows_are_stripped sample_map_text _ H).
Defined.

Lemma filter_read_from_file (P : ascii -> Prop)
    `{!forall c, Decision (P c)} (text : list ascii) :
  (forall c, P c -> PyStr.isspace c = false) ->
  filter P (concat (MapFile._read_from_file text)) = filter P text.
Proof.
  intros HP. unfold MapFile._read_from_file.
  assert (Hnl : forall c, P c -> c <> PyStr.CR /\ c <> PyStr.LF).
  { intros c Hc%HP. split; intros ->; done. }
  destruct (universal_newlines_spec P text Hnl) as [[_ <-] _].
  set (t := PyStr.universal_newlines text).
  rewrite <- (app_nil_l t) at 2.
  rewrite <- (readlines_from_concat t []).
  fold (PyStr.readlines t).
  induction (PyStr.readlines t) as [| line lines IH]; [done |].
  cbn [map concat]. rewrite !filter_app, IH. f_equal.
  unfold PyStr.strip. by rewrite filter_rstrip, filter_lstrip.
Qed.

(** X6: reading a map file neither drops nor adds a character that is no
    blank: the rows hold each such character as often as the file's text
    does. *)
Theorem reading_keeps_cells (text : list ascii) (ch : ascii) :
  PyStr.isspace ch = false ->
  count_cells ch (MapFile._read_from_file text)
  = length (filter (fun c => c = ch) text).
Proof.
  intros Hch. unfold count_cells. f_equal.
  apply filter_read_from_file. by intros c ->.
Qed.

Lemma reading_keeps_cells_witness :
  count_cells "P" (MapFile._read_from_file sample_map_text) = 1%nat.
Proof.
  rewrite (reading_keeps_cells sample_map_text "P" eq_refl). reflexivity.
Defined.

(** X7: opening a map file, by the number of "P" characters of its text,
    wherever they stand: none, the constructor raises [AttributeError]; one,
    it returns a level; two or more, it raises the configuration error. *)
Theorem open_level_by_player_count
    (W : World) (name : string) (text : list ascii) (size : Z) :
  match length (filter (fun c => c = "P"%char) text) with
  | 0%nat => MapFile.open_level W name text size = Raise AttributeError
  | 1%nat => exists lv, MapFile.open_level W name text size = Ok lv
  | _ => MapFile.open_level W name text size
         = Raise (ValueError Level.only_one_player)
  end.
Proof.
  unfold MapFile.open_level.
  pose proof (__init___spec W name (MapFile._read_from_file text) size) as H.
  rewrite (count_cells_entities size is_player "P" _ cell_class_P) in H.
  unfold count_cells in H.
  rewrite (filter_read_from_file (fun c => c = "P"%char) text) in H
    by (by intros c ->).
  destruct (length (filter (fun c => c = "P"%char) text)) as [| [| n]];
    [done | | done].
  destruct H as (lv0 & p & _ & _ & ->). eauto.
Qed.

(** ** More on the player's frame *)

Section PlayerFrame.

Import Player.

Implicit Types (p q : Player.t) (lo o : BaseObject.t).
Implicit Types (los pre post : list BaseObject.t) (keys : ScancodeWrapper).

Lemma move_ip_0 (r : Rect.t) : Rect.move_ip 0 0 r = r.
Proof. destruct r. unfold Rect.move_ip. cbn. by rewrite !Z.add_0_r. Qed.

Lemma apply_keys_speed keys p :
  horizontal_speed (apply_keys keys p) = key_speed keys.
Proof.
  unfold apply_keys, key_speed.
  destruct (K_RIGHT keys), (K_LEFT keys), (K_UP keys && _); reflexivity.
Qed.

(** The horizontal pass either goes through untouched or ends stopped. *)
Lemma move_horizontal_outcome los p :
  move_horizontal los p
  = with_rect (Rect.move_ip (horizontal_speed p) 0 (rect p)) p
  \/ horizontal_speed (move_horizontal los p) = 0.
Proof.
  unfold move_horizontal.
  set (q := with_rect (Rect.move_ip (horizontal_speed p) 0 (rect p)) p).
  generalize q. clear q.
  induction los as [| lo los IH]; intros q; [by left |].
  cbn [foldl].
  assert (Hstep : collide_horizontal q lo = q
                  \/ horizontal_speed (collide_horizontal q lo) = 0).
  { unfold collide_horizontal. repeat case_match; auto. }
  destruct Hstep as [-> | Hz]; [apply IH |].
  right. by rewrite foldl_collide_horizontal_stopped.
Qed.

(** Collisions change the box, the speeds and the flag, nothing else. *)
Lemma collide_horizontal_look p lo : look (collide_horizontal p lo) = look p.
Proof. unfold collide_horizontal. by repeat case_match. Qed.

Lemma collide_vertical_look p lo : look (collide_vertical p lo) = look p.
Proof. unfold collide_vertical. by repeat case_match. Qed.

Lemma foldl_collide_horizontal_look los p :
  look (foldl collide_horizontal p los) = look p.
Proof.
  revert p. induction los as [| lo los IH]; intros p; [done |].
  cbn. by rewrite IH, collide_horizontal_look.
Qed.

Lemma foldl_collide_vertical_look los p :
  look (foldl collide_vertical p los) = look p.
Proof.
  revert p. induction los as [| lo los IH]; intros p; [done |].
  cbn. by rewrite IH, collide_vertical_look.
Qed.

Lemma movement_look los p p' :
  _movement_with_collision los p = Ok p' -> look p' = look p.
Proof.
  unfold _movement_with_collision, move_vertical, move_horizontal.
  case_match; [| done]. intros [= <-].
  rewrite foldl_collide_vertical_look.
  match goal with
  | |- look (with_rect _ ?q) = _ => change (look q = look p)
  end.
  by rewrite foldl_collide_horizontal_look.
Qed.

(** The first overlapping solid of a list, when there is one. *)
Lemma first_overlap los (r : Rect.t) :
  Exists (fun lo => Rect.colliderect (BaseObject.rect lo) r = true) los ->
  exists pre o post,
    los = pre ++ o :: post
    /\ Forall (fun lo => Rect.colliderect (BaseObject.rect lo) r = false) pre
    /\ Rect.colliderect (BaseObject.rect o) r = true.
Proof.
  induction 1 as [lo los Hlo | lo los _ (pre & o & post & -> & Hpre & Ho)].
  - by exists [], lo, los.
  - destruct (Rect.colliderect (BaseObject.rect lo) r) eqn:E.
    + by exists [], lo, (pre ++ o :: post).
    + exists (lo :: pre), o, post. split_and!; [done | by constructor | done].
Qed.

(** A frame without keys in which the player's box meets no solid and the
    speed is below one pixel: the box stays, the fall acceleration is
    added. *)
Lemma update_hover los p :
  PyNum.to_c_int (vertical_speed p) = Some 0 ->
  Forall (fun lo =>
    Rect.colliderect (BaseObject.rect lo) (rect p) = false) los ->
  exists p',
    update no_keys los p = Ok p'
    /\ rect p' = rect p
    /\ vertical_speed p' = PyNum.add (vertical_speed p) FALL_ACCELERATION
    /\ bottom_collision p' = false.
Proof.
  intros Hdy Hmiss.
  unfold update, _movement_with_collision, move_vertical, move_horizontal.
  change (apply_keys no_keys p) with (with_horizontal_speed 0 p).
  cbn [horizontal_speed with_horizontal_speed with_bottom_collision].
  change (rect (with_bottom_collision false (with_horizontal_speed 0 p)))
    with (rect p).
  rewrite move_ip_0, foldl_collide_horizontal_miss by exact Hmiss.
  set (q := with_rect (rect p)
              (with_bottom_collision false (with_horizontal_speed 0 p))).
  change (vertical_speed q) with (vertical_speed p).
  change (rect q) with (rect p).
  rewrite Hdy, move_ip_0.
  change (with_rect (rect p) q) with q.
  rewrite foldl_collide_vertical_miss by exact Hmiss.
  eexists. split; [reflexivity |]. done.
Qed.

(** A frame without keys in which the player, one pixel per frame fast,
    sinks into solids whose top edge is its bottom edge: it is put back and
    rests. *)
Lemma update_settle los p :
  PyNum.to_c_int (vertical_speed p) = Some 1 ->
  PyNum.gt0 (vertical_speed p) = true ->
  Rect.wf (rect p) ->
  Forall (fun lo => Rect.wf (BaseObject.rect lo)) los ->
  Forall (fun lo =>
    Rect.colliderect (BaseObject.rect lo) (rect p) = false) los ->
  Forall (fun lo =>
    Rect.colliderect (BaseObject.rect lo) (Rect.move_ip 0 1 (rect p)) = true
    -> Rect.top (BaseObject.rect lo) = Rect.bottom (rect p)) los ->
  Exists (fun lo =>
    Rect.colliderect (BaseObject.rect lo) (Rect.move_ip 0 1 (rect p)) = true)
    los ->
  exists p',
    update no_keys los p = Ok p'
    /\ rect p' = rect p
    /\ vertical_speed p' = PyNum.PyInt 0
    /\ bottom_collision p' = true.
Proof.
  intros Hdy Hg Hp Hwf Hmiss Hfloor Hhit.
  destruct (first_overlap los _ Hhit) as (pre & o & post & Hlos & Hpre & Ho).
  assert (Hin : o ∈ los) by (rewrite Hlos; apply elem_of_app; right; left).
  rewrite Forall_forall in Hwf, Hfloor.
  pose proof (Hwf o Hin) as Howf. pose proof (Hfloor o Hin Ho) as Htop.
  unfold update, _movement_with_collision, move_horizontal.
  change (apply_keys no_keys p) with (with_horizontal_speed 0 p).
  cbn [horizontal_speed with_horizontal_speed with_bottom_collision].
  change (rect (with_bottom_collision false (with_horizontal_speed 0 p)))
    with (rect p).
  rewrite move_ip_0, foldl_collide_horizontal_miss by exact Hmiss.
  set (q := with_rect (rect p)
              (with_bottom_collision false (with_horizontal_speed 0 p))).
  rewrite Hlos.
  rewrite (move_vertical_first_hit pre o post q 1) by (done || by left).
  cbn zeta. change (vertical_speed q) with (vertical_speed p).
  change (rect q) with (rect p). rewrite Hg.
  eexists. split; [reflexivity |]. split_and!; [| done | done].
  cbn [mbind result_bind negb bottom_collision with_rect
       with_bottom_collision].
  change (rect (with_rect ?r _)) with r.
  unfold Rect.top, Rect.bottom, Rect.move_ip in *.
  destruct (rect p) as [x y w h]. cbn in *. f_equal; lia.
Qed.

End PlayerFrame.

(** X8: a player moving left whose box, moved by the horizontal speed,
    overlaps a solid (the first one it overlaps in iteration order): after
    the resolution the horizontal speed is 0, the player's left edge is the
    solid's right edge, and the two boxes do not overlap. *)
Theorem left_move_stops_at_right_face
    (pre post : list BaseObject.t) (o : BaseObject.t) (p : Player.t)
    (dy : Z) :
  Rect.wf (Player.rect p) -> Rect.wf (BaseObject.rect o) ->
  Player.horizontal_speed p < 0 ->
  PyNum.to_c_int (Player.vertical_speed p) = Some dy ->
  Forall (fun lo =>
    Rect.colliderect (BaseObject.rect lo)
      (Rect.move_ip (Player.horizontal_speed p) 0 (Player.rect p)) = false)
    pre ->
  Rect.colliderect (BaseObject.rect o)
    (Rect.move_ip (Player.horizontal_speed p) 0 (Player.rect p)) = true ->
  exists p',
    Player._movement_with_collision (pre ++ o :: post) p = Ok p'
    /\ Player.horizontal_speed p' = 0
    /\ Rect.left (Player.rect p') = Rect.right (BaseObject.rect o)
    /\ Rect.colliderect (BaseObject.rect o) (Player.rect p') = false.
Proof.
  intros Hp Ho Hs Hdy Hpre Hc.
  unfold Player._movement_with_collision.
  rewrite (move_horizontal_first_hit pre o post
             (Player.with_bottom_collision false p)) by (done || (cbn; lia)).
  cbn zeta. cbn [Player.horizontal_speed Player.with_bottom_collision].
  replace (0 <? Player.horizontal_speed p) with false
    by (symmetry; apply Z.ltb_ge; lia).
  unfold Player.move_vertical.
  cbn [Player.vertical_speed Player.with_rect Player.with_horizontal_speed
       Player.with_bottom_collision].
  rewrite Hdy. eexists. split; [reflexivity |].
  match goal with |- context [foldl Player.collide_vertical ?q ?l] =>
    destruct (foldl_collide_vertical_frame l q) as (Hh & Hx & Hw & Hhh);
    set (p' := foldl Player.collide_vertical q l) in *
  end.
  assert (Hl : Rect.left (Player.rect p') = Rect.right (BaseObject.rect o)).
  { unfold Rect.left. rewrite Hx. unfold Rect.left, Rect.right.
    player_simpl. lia. }
  split_and!; [by rewrite Hh | done |].
  apply colliderect_apart; [done | | lia].
  destruct Hp as [Hpw Hph]. split; [rewrite Hw | rewrite Hhh]; by player_simpl.
Qed.

Lemma left_move_stops_at_right_face_witness :
  let o := sample_object Block (-33) 0 in
  let p := Player.with_horizontal_speed (-2) sample_player in
  exists p',
    Player._movement_with_collision [o] p = Ok p'
    /\ Player.horizontal_speed p' = 0
    /\ Rect.left (Player.rect p') = -1
    /\ Rect.colliderect (BaseObject.rect o) (Player.rect p') = false.
Proof.
  intros o p.
  apply (left_move_stops_at_right_face [] [] o p 0).
  - unfold Rect.wf. cbn. lia.
  - unfold Rect.wf. cbn. lia.
  - cbn. lia.
  - reflexivity.
  - constructor.
  - reflexivity.
Defined.

(** X9: a player moving up whose box, after the horizontal pass and the
    vertical move, overlaps a solid (the first one it overlaps in iteration
    order): after the resolution the vertical speed is 0, the player's top
    edge is the solid's bottom edge, the boxes do not overlap, and the
    player is not resting on a surface: a ceiling stops the jump and does
    not ground the player. *)
Theorem jump_stops_at_ceiling
    (pre post : list BaseObject.t) (o : BaseObject.t) (p : Player.t)
    (dy : Z) :
  Rect.wf (Player.rect p) -> Rect.wf (BaseObject.rect o) ->
  PyNum.gt0 (Player.vertical_speed p) = false ->
  PyNum.lt0 (Player.vertical_speed p) = true ->
  PyNum.to_c_int (Player.vertical_speed p) = Some dy ->
  let p1 := Player.move_horizontal (pre ++ o :: post)
              (Player.with_bottom_collision false p) in
  Forall (fun lo =>
    Rect.colliderect (BaseObject.rect lo)
      (Rect.move_ip 0 dy (Player.rect p1)) = false) pre ->
  Rect.colliderect (BaseObject.rect o)
    (Rect.move_ip 0 dy (Player.rect p1)) = true ->
  exists p',
    Player._movement_with_collision (pre ++ o :: post) p = Ok p'
    /\ Player.vertical_speed p' = PyNum.PyInt 0
    /\ Player.bottom_collision p' = false
    /\ Rect.top (Player.rect p') = Rect.bottom (BaseObject.rect o)
    /\ Rect.colliderect (BaseObject.rect o) (Player.rect p') = false.
Proof.
  intros Hp Ho Hg Hl Hdy p1 Hpre Hc.
  unfold Player._movement_with_collision. fold p1.
  destruct (foldl_collide_horizontal_frame (pre ++ o :: post)
              (Player.with_rect
                 (Rect.move_ip (Player.horizontal_speed p) 0 (Player.rect p))
                 (Player.with_bottom_collision false p)))
    as (Hv & Hb & _ & Hw & Hh).
  change (foldl Player.collide_horizontal _ _) with p1 in Hv, Hb, Hw, Hh.
  cbn in Hv, Hb, Hw, Hh.
  assert (Hp1 : Rect.wf (Player.rect p1)).
  { destruct Hp. split; [rewrite Hw | rewrite Hh]; done. }
  rewrite (move_vertical_first_hit pre o post p1 dy)
    by (done || rewrite Hv; auto).
  cbn zeta. rewrite Hv, Hg. eexists. split; [reflexivity |].
  assert (Ht : Rect.top
            (Rect.move_ip 0
               (Rect.bottom (BaseObject.rect o)
                - Rect.top (Rect.move_ip 0 dy (Player.rect p1)))
               (Rect.move_ip 0 dy (Player.rect p1)))
          = Rect.bottom (BaseObject.rect o)).
  { unfold Rect.bottom, Rect.top. cbn. lia. }
  split_and!; [done | exact Hb | exact Ht |].
  apply colliderect_apart; [done | by do 2 apply move_ip_wf |].
  right; right; right. apply Z.eq_le_incl. symmetry. exact Ht.
Qed.

Lemma jump_stops_at_ceiling_witness :
  let o := sample_object Block 0 (-40) in
  let p := Player.with_vertical_speed (PyNum.PyInt (-10)) sample_player in
  exists p',
    Player._movement_with_collision [o] p = Ok p'
    /\ Player.vertical_speed p' = PyNum.PyInt 0
    /\ Player.bottom_collision p' = false
    /\ Rect.top (Player.rect p') = -8
    /\ Rect.colliderect (BaseObject.rect o) (Player.rect p') = false.
Proof.
  intros o p.
  apply (jump_stops_at_ceiling [] [] o p (-10)).
  - unfold Rect.wf. cbn. lia.
  - unfold Rect.wf. cbn. lia.
  - reflexivity.
  - reflexivity.
  - reflexivity.
  - constructor.
  - reflexivity.
Defined.



(** X11: no horizontal momentum and no partial horizontal move: [update]
    does not depend on the horizontal speed the player came with, and it
    ends either stopped (speed 0, after a collision or without keys) or with
    the speed the keys ask for and the box moved by exactly that much. *)
Theorem horizontal_outcome
    (keys : ScancodeWrapper) (los : list BaseObject.t) (p p' : Player.t) :
  Player.update keys los p = Ok p' ->
  (forall h, Player.update keys los (Player.with_horizontal_speed h p)
             = Ok p')
  /\ (Player.horizontal_speed p' = 0
      \/ (Player.horizontal_speed p' = key_speed keys
          /\ Rect.x (Player.rect p')
             = Rect.x (Player.rect p) + key_speed keys)).
Proof.
  intros Hupd. split; [intros h; exact Hupd |].
  unfold Player.update, Player._movement_with_collision,
    Player.move_vertical in Hupd.
  destruct (apply_keys_frame keys p) as [Hr _].
  pose proof (apply_keys_speed keys p) as Hs.
  set (p0 := Player.apply_keys keys p) in *.
  set (ph := Player.move_horizontal los (Player.with_bottom_collision false p0))
    in *.
  destruct (PyNum.to_c_int (Player.vertical_speed ph)) as [dy |]; [| done].
  cbn [mbind result_bind] in Hupd.
  match type of Hupd with
  | context [foldl Player.collide_vertical ?q los] =>
      destruct (foldl_collide_vertical_frame los q) as (Hh & Hx & _);
      set (pv := foldl Player.collide_vertical q los) in *
  end.
  assert (Hp' : Player.horizontal_speed p' = Player.horizontal_speed ph
                /\ Rect.x (Player.rect p') = Rect.x (Player.rect ph)).
  { injection Hupd as <-.
    assert (E1 : Player.horizontal_speed pv = Player.horizontal_speed ph)
      by exact Hh.
    assert (E2 : Rect.x (Player.rect pv) = Rect.x (Player.rect ph))
      by (rewrite Hx; cbn; lia).
    destruct (negb (Player.bottom_collision pv)); [| done].
    change (Player.horizontal_speed pv = Player.horizontal_speed ph
            /\ Rect.x (Player.rect pv) = Rect.x (Player.rect ph)).
    done. }
  destruct Hp' as [-> ->].
  destruct (move_horizontal_outcome los (Player.with_bottom_collision false p0))
    as [Hfree | Hstop]; [| by left].
  fold ph in Hfree. right. rewrite Hfree. cbn.
  change (Player.horizontal_speed p0 = key_speed keys
          /\ Rect.x (Player.rect p0) + Player.horizontal_speed p0
             = Rect.x (Player.rect p) + key_speed keys).
  by rewrite Hs, Hr.
Qed.

Lemma horizontal_outcome_witness :
  exists p',
    Player.update key_right [] (Player.with_horizontal_speed 7 sample_player)
    = Ok p'
    /\ Player.horizontal_speed p' = 2
    /\ Rect.x (Player.rect p') = 2.
Proof.
  eexists. split.
  - exact (proj1 (horizontal_outcome key_right [] sample_player _ eq_refl) 7).
  - split; reflexivity.
Defined.

(** X12: a player standing on solid ground with no key pressed is reported
    as resting on a surface in one frame out of five.  From vertical speed 0
    the fall acceleration is added for four frames in which the box does not
    move (the speed is below one pixel) and nothing collides, so the flag is
    false; in the fifth frame the speed is 1.2, the box sinks one pixel into
    the ground and is put back, and the flag is true with the speed back at
    0, where the cycle starts again. *)
Theorem standing_cycle (los : list BaseObject.t) (p : Player.t) :
  Player.vertical_speed p = PyNum.PyInt 0 ->
  Rect.wf (Player.rect p) ->
  Forall (fun lo => Rect.wf (BaseObject.rect lo)) los ->
  Forall (fun lo =>
    Rect.colliderect (BaseObject.rect lo) (Player.rect p) = false) los ->
  Forall (fun lo =>
    Rect.colliderect (BaseObject.rect lo)
      (Rect.move_ip 0 1 (Player.rect p)) = true ->
    Rect.top (BaseObject.rect lo) = Rect.bottom (Player.rect p)) los ->
  Exists (fun lo =>
    Rect.colliderect (BaseObject.rect lo)
      (Rect.move_ip 0 1 (Player.rect p)) = true) los ->
  exists p1 p2 p3 p4 p5,
    player_frames (replicate 5 no_keys) los p = Ok [p1; p2; p3; p4; p5]
    /\ map Player.bottom_collision [p1; p2; p3; p4; p5]
       = [false; false; false; false; true]
    /\ map Player.rect [p1; p2; p3; p4; p5] = replicate 5 (Player.rect p)
    /\ Player.vertical_speed p5 = PyNum.PyInt 0.
Proof.
  intros Hv Hp Hwf Hmiss Hfloor Hhit.
  destruct (update_hover los p) as (p1 & H1 & R1 & V1 & B1);
    [by rewrite Hv | done |].
  rewrite Hv in V1.
  destruct (update_hover los p1) as (p2 & H2 & R2 & V2 & B2);
    [by rewrite V1 | by rewrite R1 |].
  rewrite V1, R1 in *.
  destruct (update_hover los p2) as (p3 & H3 & R3 & V3 & B3);
    [by rewrite V2 | by rewrite R2 |].
  rewrite V2, R2 in *.
  destruct (update_hover los p3) as (p4 & H4 & R4 & V4 & B4);
    [by rewrite V3 | by rewrite R3 |].
  rewrite V3, R3 in *.
  destruct (update_settle los p4) as (p5 & H5 & R5 & V5 & B5);
    rewrite ?V4, ?R4; try done.
  rewrite R4 in R5.
  exists p1, p2, p3, p4, p5. split_and!.
  - cbn [replicate player_frames]. rewrite H1. cbn [mbind result_bind].
    rewrite H2. cbn [mbind result_bind]. rewrite H3. cbn [mbind result_bind].
    rewrite H4. cbn [mbind result_bind]. rewrite H5. reflexivity.
  - cbn. by rewrite B1, B2, B3, B4, B5.
  - cbn. by rewrite R1, R2, R3, R4, R5.
  - exact V5.
Qed.

Lemma standing_cycle_witness :
  let ground := [sample_object Block (-32) 32; sample_object Block 0 32;
                 sample_object Block 64 0] in
  exists p1 p2 p3 p4 p5,
    player_frames (replicate 5 no_keys) ground sample_player
    = Ok [p1; p2; p3; p4; p5]
    /\ map Player.bottom_collision [p1; p2; p3; p4; p5]
       = [false; false; false; false; true]
    /\ Player.vertical_speed p5 = PyNum.PyInt 0.
Proof.
  intros ground.
  destruct (standing_cycle ground sample_player)
    as (p1 & p2 & p3 & p4 & p5 & H1 & H2 & _ & H4).
  - reflexivity.
  - unfold Rect.wf. cbn. lia.
  - repeat constructor; cbn; lia.
  - repeat constructor.
  - repeat constructor; try discriminate.
  - right. left. reflexivity.
  - exists p1, p2, p3, p4, p5. split_and!; done.
Defined.

(** X13: [update] never touches what the player shows: the frame on
    display, the frame index, the animation clock and the two frame sets
    stay; only the frame list in use is switched, to the right-facing set
    when "right" is pressed, else to the left-facing set when "left" is.  A
    new player's frame sets are as long as its frame list, and [update]
    keeps that, so the frame index stays in bounds through every change of
    facing. *)
Theorem update_keeps_look
    (keys : ScancodeWrapper) (los : list BaseObject.t) (p p' : Player.t) :
  Player.update keys los p = Ok p' ->
  BaseObject.surf (Player.base p') = BaseObject.surf (Player.base p)
  /\ BaseObject.sprite_animation_index (Player.base p')
     = BaseObject.sprite_animation_index (Player.base p)
  /\ BaseObject.next_animation_time (Player.base p')
     = BaseObject.next_animation_time (Player.base p)
  /\ Player.sprites_right p' = Player.sprites_right p
  /\ Player.sprites_left p' = Player.sprites_left p
  /\ BaseObject.sprites (Player.base p')
     = (if K_RIGHT keys then Player.sprites_right p
        else if K_LEFT keys then Player.sprites_left p
        else BaseObject.sprites (Player.base p))
  /\ (same_frame_count p ->
      same_frame_count p'
      /\ (BaseObject.index_in_bounds (Player.base p) ->
          BaseObject.index_in_bounds (Player.base p')))
  /\ (forall W now jitter x y size q,
      Player.__init__ W now jitter x y size = Ok q -> same_frame_count q).
Proof.
  intros Hupd. unfold Player.update in Hupd.
  destruct (Player._movement_with_collision los (Player.apply_keys keys p))
    as [p1 |] eqn:Hm; [| done].
  apply movement_look in Hm.
  assert (Hl : look p' = look p1).
  { injection Hupd as <-. by destruct (negb (Player.bottom_collision p1)). }
  rewrite Hm in Hl. clear Hm Hupd.
  assert (Hk : look (Player.apply_keys keys p)
    = ((if K_RIGHT keys then Player.sprites_right p
        else if K_LEFT keys then Player.sprites_left p
        else BaseObject.sprites (Player.base p)),
       BaseObject.sprite_animation_index (Player.base p),
       BaseObject.next_animation_time (Player.base p),
       BaseObject.surf (Player.base p),
       Player.sprites_right p, Player.sprites_left p)).
  { unfold Player.apply_keys.
    destruct (K_RIGHT keys), (K_LEFT keys), (K_UP keys && _); reflexivity. }
  rewrite Hk in Hl. unfold look in Hl.
  injection Hl as Hs Hi Ht Hsurf Hr Hle.
  split_and!; try done.
  - intros [Hcl Hcr]. unfold same_frame_count, BaseObject.index_in_bounds.
    rewrite Hs, Hi, Hr, Hle.
    assert (Hlen : length (if K_RIGHT keys then Player.sprites_right p
                           else if K_LEFT keys then Player.sprites_left p
                           else BaseObject.sprites (Player.base p))
                   = length (BaseObject.sprites (Player.base p))).
    { by destruct (K_RIGHT keys), (K_LEFT keys). }
    rewrite Hlen. done.
  - intros W now jitter x y size q. unfold Player.__init__.
    destruct (__init___ok W PlayerCls now jitter x y size)
      as (s0 & rest & _ & ->).
    intros [= <-]. unfold same_frame_count. cbn.
    by rewrite length_map.
Qed.

Lemma update_keeps_look_witness :
  exists p',
    Player.update {| K_UP := false; K_LEFT := true; K_RIGHT := false |} []
      sample_player = Ok p'
    /\ BaseObject.surf (Player.base p')
       = BaseObject.surf (Player.base sample_player)
    /\ BaseObject.sprites (Player.base p')
       = Player.sprites_left sample_player.
Proof.
  eexists. split; [reflexivity |].
  pose proof (update_keeps_look
                {| K_UP := false; K_LEFT := true; K_RIGHT := false |} []
                sample_player _ eq_refl) as (H1 & _ & _ & _ & _ & H6 & _).
  split; [exact H1 | exact H6].
Defined.

(** ** Levels in play *)

Section LevelUpdate.

Import Level.

Implicit Types (lv : Level.t) (g : Group.t) (st : list sprite).

(** *** What loading stores *)

Lemma load_cell_stored W row_num column_num cell lv lv' :
  stored_by_class lv ->
  load_cell W row_num column_num cell lv = Ok lv' ->
  stored_by_class lv'.
Proof.
  intros Hst. rewrite load_cell_unfold. cbn zeta.
  unfold stored_by_class in *.
  destruct (cell_class cell) as [c |]; [| by intros [= <-]].
  destruct (decide (c = PlayerCls)) as [-> | Hc].
  - destruct (player lv); [done |].
    destruct (new_player_ok W (column_num * _sprite_size lv)
                (row_num * _sprite_size lv) lv) as (p & -> & Hcl & _).
    intros [= <-]. cbn. apply Forall_app. split; [done |]. by constructor.
  - destruct (new_object_ok W c (column_num * _sprite_size lv)
                (row_num * _sprite_size lv) lv) as (o & Hnew & Hcl & _).
    destruct c; try done; rewrite Hnew; intros [= <-]; cbn;
      (apply Forall_app; split; [done |]); constructor; try done;
      by rewrite Hcl.
Qed.

Lemma load_cells_stored W cells : forall lv lv',
  stored_by_class lv -> load_cells W cells lv = Ok lv' ->
  stored_by_class lv'.
Proof.
  induction cells as [| [[row_num column_num] cell] cells IH];
    intros lv lv' Hst; [by intros [= <-] |].
  cbn. destruct (load_cell W row_num column_num cell lv) as [lv1 |] eqn:E;
    [| done].
  cbn. apply IH. by eapply load_cell_stored.
Qed.

Lemma __init___stored W nm level_map size lv :
  __init__ W nm level_map size = Ok lv -> stored_by_class lv.
Proof.
  unfold __init__, load_map. rewrite load_rows_cells.
  destruct (load_cells W (map_cells 0 level_map) (blank nm size))
    as [lv0 |] eqn:E; [| done].
  apply load_cells_stored in E; [| by constructor].
  cbn. destruct (player_arg lv0); cbn; try done; by intros [= <-].
Qed.

(** The sprites of a group are of the group's classes. *)
Lemma describe_class lv size cells g keep r :
  describe lv g = Some <$> entities size keep cells -> r ∈ g ->
  exists s, store lv !! r = Some s
            /\ keep (BaseObject.class_of (base_of s)) = true.
Proof.
  intros Hg Hr.
  assert (He : entity_at lv r ∈ describe lv g)
    by (apply list_elem_of_fmap; eauto).
  rewrite Hg in He. apply list_elem_of_fmap in He as (e & Heq & He).
  apply entities_keep in He. unfold entity_at in Heq.
  destruct (store lv !! r) as [s |]; [| done].
  exists s. split; [done |]. cbn in Heq. by injection Heq as <-.
Qed.

(** *** Animating the whole store *)


Lemma animate_all_other now g r : forall k st,
  r ∉ g -> animate_all now k g st !! r = st !! r.
Proof.
  induction g as [| r0 g IH]; intros k st Hr; [done |].
  apply not_elem_of_cons in Hr as [Hne Hr].
  cbn. rewrite IH by done. by apply list_lookup_alter_ne.
Qed.

(** A sprite at position [i] of a group without repeats is animated once,
    with the clock reading of the [i]-th call. *)
Lemma animate_all_lookup now g r : forall i k st,
  NoDup g -> g !! i = Some r ->
  animate_all now k g st !! r
  = animate_sprite (now (k + i)%nat) <$> st !! r.
Proof.
  induction g as [| r0 g IH]; intros i k st Hn Hi; [done |].
  apply NoDup_cons in Hn as [Hr0 Hn]. destruct i as [| i]; cbn in *.
  - injection Hi as ->. rewrite animate_all_other by done.
    by rewrite Nat.add_0_r, list_lookup_alter_eq.
  - assert (r <> r0).
    { intros ->. apply Hr0. by eapply list_elem_of_lookup_2. }
    rewrite (IH i) by done.
    rewrite list_lookup_alter_ne by done.
    by replace (S k + i)%nat with (k + S i)%nat by lia.
Qed.

Lemma animate_rect now (o : BaseObject.t) :
  BaseObject.rect (BaseObject.animate now o) = BaseObject.rect o
  /\ BaseObject.class_of (BaseObject.animate now o) = BaseObject.class_of o.
Proof. unfold BaseObject.animate. by case_match. Qed.

Lemma animate_sprite_place now (s : sprite) :
  same_place s (animate_sprite now s).
Proof.
  destruct s as [o | p]; cbn; [apply animate_rect |].
  split_and!; try done. unfold Player.rect. cbn. apply animate_rect.
Qed.

Lemma same_place_trans (s1 s2 s3 : sprite) :
  same_place s1 s2 -> same_place s2 s3 -> same_place s1 s3.
Proof.
  destruct s1, s2, s3; cbn; try done.
  - intros [-> ->] [-> ->]. done.
  - intros (-> & -> & -> & ->) (-> & -> & -> & ->). done.
Qed.

(** Animation leaves every sprite in its place. *)
Lemma animate_all_place now g : forall k st r s,
  st !! r = Some s ->
  exists s', animate_all now k g st !! r = Some s' /\ same_place s s'.
Proof.
  induction g as [| r0 g IH]; intros k st r s Hs.
  - exists s. split; [done |]. destruct s; cbn; done.
  - cbn. destruct (decide (r0 = r)) as [-> | Hne].
    + destruct (IH (S k) (alter (animate_sprite (now k)) r st) r
                  (animate_sprite (now k) s))
        as (s' & Hs' & Hp).
      { by rewrite list_lookup_alter_eq, Hs. }
      exists s'. split; [done |].
      eapply same_place_trans; [apply animate_sprite_place | done].
    + apply IH. by rewrite list_lookup_alter_ne.
Qed.


Lemma update_inv now keys lv lv' :
  update now keys lv = Ok lv' ->
  exists r p p1,
    player lv = Some r /\ store lv !! r = Some (ThePlayer p)
    /\ Player.update keys (sprites_of lv (safe_objects lv)) p = Ok p1
    /\ lv' = with_store
               (animate_all now 0 (all_objects lv)
                  (<[r := ThePlayer p1]> (store lv))) lv.
Proof.
  unfold update. destruct (player lv) as [r |]; [| done].
  destruct (store lv !! r) as [[o | p] |] eqn:E; try done.
  destruct (Player.update keys _ p) as [p1 |] eqn:E1; [| done].
  intros [= <-]. by exists r, p, p1.
Qed.



End LevelUpdate.

(** A level the constructor returns is playable. *)
Lemma __init___playable W name level_map size (lv : Level.t) :
  Level.__init__ W name level_map size = Ok lv -> playable lv.
Proof.
  intros Hinit. pose proof (__init___stored _ _ _ _ _ Hinit) as Hst.
  pose proof (__init___spec W name level_map size) as H.
  destruct (length (entities size is_player (map_cells 0 level_map)))
    as [| [| n]]; [congruence | | congruence].
  destruct H as (lv0 & p & Hsc & Hp & Heq). rewrite Hinit in Heq.
  injection Heq as ->.
  pose proof Hsc as [_ _ _ Hsafe Htraps Hexits Hplayer _ (Hn1 & Hn2 & Hn3)].
  rewrite Hp in Hplayer.
  unfold stored_by_class in Hst. rewrite Forall_forall in Hst.
  cbn in Hst.
  assert (Hobj : forall g keep r,
    Level.describe lv0 g = Some <$> entities size keep (map_cells 0 level_map)
    -> keep PlayerCls = false -> r ∈ g ->
    exists o, Level.store lv0 !! r = Some (Level.Object o)).
  { intros g keep r Hg Hk Hr.
    destruct (describe_class _ _ _ _ _ r Hg Hr) as (s & Hs & Hc).
    pose proof (Hst s (list_elem_of_lookup_2 _ _ _ Hs)) as Hcl.
    destruct s as [o | q]; [by exists o |].
    cbn in Hc. rewrite Hcl in Hc. congruence. }
  split.
  - destruct (describe_class _ _ _ _ _ p Hplayer ltac:(left))
      as (s & Hs & Hc).
    pose proof (Hst s (list_elem_of_lookup_2 _ _ _ Hs)) as Hcl.
    destruct s as [o | q].
    + cbn in Hc. destruct (BaseObject.class_of o); done.
    + by exists p, q.
  - cbn. rewrite !Forall_app. split_and!; apply Forall_forall; intros r Hr.
    + by eapply (Hobj _ is_block).
    + by eapply (Hobj _ is_trap).
    + by eapply (Hobj _ is_exit).
  - cbn. apply NoDup_cons. split.
    + intros [H1 | [H2 | H3]%elem_of_app]%elem_of_app.
      * eapply (describe_disjoint _ _ _ _ _ _ _ Hsafe Hplayer);
          [| done | left].
        by intros [].
      * eapply (describe_disjoint _ _ _ _ _ _ _ Htraps Hplayer);
          [| done | left].
        by intros [].
      * eapply (describe_disjoint _ _ _ _ _ _ _ Hexits Hplayer);
          [| done | left].
        by intros [].
    + apply NoDup_app. split_and!; [done | |].
      * intros r Hr [H2 | H3]%elem_of_app.
        -- eapply (describe_disjoint _ _ _ _ _ _ _ Hsafe Htraps); [| done..].
           by intros [].
        -- eapply (describe_disjoint _ _ _ _ _ _ _ Hsafe Hexits); [| done..].
           by intros [].
      * apply NoDup_app. split_and!; [done | | done].
        intros r Hr H3.
        eapply (describe_disjoint _ _ _ _ _ _ _ Htraps Hexits); [| done..].
        by intros [].
Qed.

(** One frame leaves the plain objects where they are. *)
Lemma update_static now keys (lv lv' : Level.t) r o :
  Level.update now keys lv = Ok lv' ->
  Level.store lv !! r = Some (Level.Object o) ->
  exists o',
    Level.store lv' !! r = Some (Level.Object o')
    /\ BaseObject.rect o' = BaseObject.rect o
    /\ BaseObject.class_of o' = BaseObject.class_of o.
Proof.
  intros (r0 & p & p1 & Hr & Hp & _ & ->)%update_inv Ho.
  assert (r0 <> r) by (intros ->; congruence).
  destruct (animate_all_place now (Level.all_objects lv) 0
              (<[r0 := Level.ThePlayer p1]> (Level.store lv)) r
              (Level.Object o))
    as (s' & Hs' & Hpl); [by rewrite list_lookup_insert_ne |].
  destruct s' as [o' |]; [| done]. by exists o'.
Qed.

(** X14: a level the constructor returns is playable: its player reference
    leads to the player, the sprites of the three groups are plain objects,
    and [all_objects] has no repeats.  [all_objects] lists the player first,
    then the solids, the traps and the exits, each group in the reading
    order of the map. *)
Theorem loaded_level_playable
    (W : World) (name : string) (level_map : list (list ascii)) (size : Z)
    (lv : Level.t) :
  Level.__init__ W name level_map size = Ok lv ->
  let cells := map_cells 0 level_map in
  playable lv
  /\ Level.describe lv (Level.all_objects lv)
     = Some <$> (entities size is_player cells ++ entities size is_block cells
                 ++ entities size is_trap cells ++ entities size is_exit cells).
Proof.
  intros Hinit cells. split; [by eapply __init___playable |].
  pose proof (__init___spec W name level_map size) as H.
  destruct (length (entities size is_player (map_cells 0 level_map)))
    as [| [| n]]; [congruence | | congruence].
  destruct H as (lv0 & p & Hsc & Hp & Heq). rewrite Hinit in Heq.
  injection Heq as ->.
  pose proof Hsc as [_ _ _ Hsafe Htraps Hexits Hplayer _ _].
  rewrite Hp in Hplayer. subst cells. rewrite !fmap_app.
  rewrite <- Hsafe, <- Htraps, <- Hexits, <- Hplayer.
  unfold Level.describe. cbn. by rewrite !map_app.
Qed.

Lemma loaded_level_playable_witness :
  exists lv,
    Level.__init__ sample_world "Level 1" map_one_each 32 = Ok lv
    /\ playable lv
    /\ Level.describe lv (Level.all_objects lv)
       = [Some (PlayerCls, (32, 0)); Some (Block, (32, 32));
          Some (Fire, (0, 32)); Some (BlueFire, (64, 32));
          Some (LevelExit, (96, 0))].
Proof.
  eexists. split; [vm_compute; reflexivity |].
  apply (loaded_level_playable sample_world "Level 1" map_one_each 32).
  vm_compute; reflexivity.
Defined.



(** X16: plain level objects never move: after any number of frames, every
    block, trap and exit is still a plain object of the same class with the
    same box; frames change nothing of it but its animation. *)
Theorem statics_never_move
    (frames : list (ScancodeWrapper * (nat -> Z))) (lv lv' : Level.t)
    (r : nat) (o : BaseObject.t) :
  level_frames frames lv = Ok lv' ->
  Level.store lv !! r = Some (Level.Object o) ->
  exists o',
    Level.store lv' !! r = Some (Level.Object o')
    /\ BaseObject.rect o' = BaseObject.rect o
    /\ BaseObject.class_of o' = BaseObject.class_of o.
Proof.
  revert lv o. induction frames as [| [keys now] frames IH]; intros lv o.
  { intros [= <-] Ho. by exists o. }
  cbn [level_frames].
  destruct (Level.update now keys lv) as [lv1 |] eqn:E; [| done].
  cbn [mbind result_bind]. intros Hrun Ho.
  destruct (update_static _ _ _ _ _ _ E Ho) as (o1 & Ho1 & Hr1 & Hc1).
  destruct (IH lv1 o1 Hrun Ho1) as (o' & Ho' & Hr' & Hc').
  exists o'. split_and!; congruence.
Qed.

Lemma statics_never_move_witness :
  exists lv lv' o,
    Level.__init__ sample_world "Level 1" map_one_each 32 = Ok lv
    /\ level_frames
         [(key_right, fun _ => 1200); (key_up, fun _ => 1300)] lv = Ok lv'
    /\ Level.store lv !! 2%nat = Some (Level.Object o)
    /\ exists o',
         Level.store lv' !! 2%nat = Some (Level.Object o')
         /\ BaseObject.rect o' = BaseObject.rect o
         /\ BaseObject.class_of o' = BaseObject.class_of o.
Proof.
  eexists. eexists. eexists. split; [vm_compute; reflexivity |].
  match goal with |- level_frames _ ?lv = _ /\ _ => set (l := lv) end.
  split; [vm_compute; reflexivity |].
  split; [vm_compute; reflexivity |].
  refine (statics_never_move
            [(key_right, fun _ => 1200); (key_up, fun _ => 1300)]
            l _ 2 _ _ _).
  - vm_compute; reflexivity.
  - vm_compute; reflexivity.
Defined.

(** X17: one frame animates every sprite of [all_objects] exactly once.  In
    a playable level, the sprite at position [k] of [all_objects] gets one
    [animate] call with the [k]-th clock reading of the frame: a plain
    object is otherwise unchanged, and the player, who is at position 0, is
    first moved by its own [update] against the solids and then animated. *)
Theorem frame_animates_each_once
    (now : nat -> Z) (keys : ScancodeWrapper) (lv lv' : Level.t)
    (k r : nat) :
  playable lv ->
  Level.update now keys lv = Ok lv' ->
  Level.all_objects lv !! k = Some r ->
  match Level.store lv !! r with
  | Some (Level.Object o) =>
      Level.store lv' !! r
      = Some (Level.Object (BaseObject.animate (now k) o))
  | Some (Level.ThePlayer p) =>
      k = 0%nat
      /\ exists p1,
           Player.update keys
             (Level.sprites_of lv (Level.safe_objects lv)) p = Ok p1
           /\ Level.store lv' !! r
              = Some (Level.animate_sprite (now 0%nat) (Level.ThePlayer p1))
  | None => False
  end.
Proof.
  intros [(r0 & p0 & Hr0 & Hp0 & Hall) Hstatic Hnodup] Hup Hk.
  apply update_inv in Hup as (r1 & p & p1 & Hr & Hp & Hp1 & ->).
  assert (r1 = r0) as -> by congruence.
  assert (p = p0) as -> by congruence.
  cbn [Level.store Level.with_store].
  rewrite (animate_all_lookup now (Level.all_objects lv) r k 0 _ Hnodup Hk).
  rewrite Nat.add_0_l. rewrite Hall in Hk.
  destruct k as [| k].
  - injection Hk as <-. rewrite Hp0. split; [done |]. exists p1.
    split; [done |]. rewrite list_lookup_insert_eq; [done |].
    by eapply lookup_lt_Some.
  - cbn in Hk. apply list_elem_of_lookup_2 in Hk as Hin.
    rewrite Forall_forall in Hstatic. destruct (Hstatic r Hin) as [o Ho].
    rewrite Ho. rewrite list_lookup_insert_ne; [by rewrite Ho |].
    intros ->. congruence.
Qed.

Lemma frame_animates_each_once_witness :
  exists lv lv',
    Level.__init__ sample_world "Level 1" map_one_each 32 = Ok lv
    /\ Level.update (fun k => 1000 + 10 * Z.of_nat k) key_right lv = Ok lv'
    /\ Level.all_objects lv !! 2%nat = Some 2%nat
    /\ match Level.store lv !! 2%nat with
       | Some (Level.Object o) =>
           Level.store lv' !! 2%nat
           = Some (Level.Object (BaseObject.animate (1000 + 10 * Z.of_nat 2) o))
       | Some (Level.ThePlayer p) =>
           2%nat = 0%nat
           /\ exists p1,
                Player.update key_right
                  (Level.sprites_of lv (Level.safe_objects lv)) p = Ok p1
                /\ Level.store lv' !! 2%nat
                   = Some (Level.animate_sprite (1000 + 10 * Z.of_nat 0)
                             (Level.ThePlayer p1))
       | None => False
       end.
Proof.
  eexists. eexists. split; [vm_compute; reflexivity |].
  match goal with |- Level.update _ _ ?lv = _ /\ _ => set (l := lv) end.
  split; [vm_compute; reflexivity |].
  split; [vm_compute; reflexivity |].
  match goal with
  | |- context [Level.store ?lv' !! 2%nat = _] => set (l' := lv')
  end.
  refine (frame_animates_each_once
            (fun k => 1000 + 10 * Z.of_nat k) key_right l l' 2 2 _ _ _).
  - apply (__init___playable sample_world "Level 1" map_one_each 32).
    vm_compute; reflexivity.
  - vm_compute; reflexivity.
  - vm_compute; reflexivity.
Defined.

(** ** The loop of [play] *)

Section PlayFacts.

Import Main.

Lemma spritecollideany_some lv g o :
  spritecollideany lv (Level.player lv) g = Ok (Some o) -> overlaps lv g.
Proof.
  unfold spritecollideany, overlaps.
  destruct (Level.player lv) as [r |]; [| done].
  destruct (Level.store lv !! r) as [s |] eqn:Hs; [| done].
  intros [= [Hin Hc]%find_some]. exists r, s, o.
  split_and!; [done | done | by apply list_elem_of_In | done].
Qed.

Lemma spritecollideany_none lv g :
  spritecollideany lv (Level.player lv) g = Ok None -> ~ overlaps lv g.
Proof.
  unfold spritecollideany, overlaps.
  intros H (r & s & o & Hr & Hs & Hin & Hc). rewrite Hr, Hs in H.
  injection H as H. apply list_elem_of_In in Hin.
  pose proof (find_none _ _ H o Hin) as Hf. cbn in Hf. congruence.
Qed.

(** With a player in the store the test raises nothing, and it finds a
    sprite exactly when the player overlaps one. *)
Lemma spritecollideany_player lv g r s :
  Level.player lv = Some r -> Level.store lv !! r = Some s ->
  (overlaps lv g
   /\ exists o, spritecollideany lv (Level.player lv) g = Ok (Some o))
  \/ (~ overlaps lv g
      /\ spritecollideany lv (Level.player lv) g = Ok None).
Proof.
  intros Hr Hs.
  destruct (spritecollideany lv (Level.player lv) g) as [[o |] | e] eqn:E.
  - left. split; [by eapply spritecollideany_some | by exists o].
  - right. split; [by apply spritecollideany_none | done].
  - unfold spritecollideany in E. by rewrite Hr, Hs in E.
Qed.

Lemma update_name now keys (lv lv' : Level.t) :
  Level.update now keys lv = Ok lv' ->
  Level.name lv' = Level.name lv /\ Level.exits lv' = Level.exits lv
  /\ Level.traps lv' = Level.traps lv.
Proof. by intros (r & p & p1 & _ & _ & _ & ->)%update_inv. Qed.

(** A pass in which nothing is queued and nothing is met draws and
    updates. *)
Lemma play_loop_pass f frames lv lv1 :
  existsb is_QUIT (events f) = false ->
  ~ overlaps lv (Level.exits lv) -> ~ overlaps lv (Level.traps lv) ->
  Level.update (ticks f) (pressed_keys f) lv = Ok lv1 ->
  exists blits,
    play_loop (f :: frames) lv
    = ((play_loop frames lv1).1, Frame blits :: (play_loop frames lv1).2).
Proof.
  intros Hq He Ht Hu.
  pose proof Hu as (r & p & p1 & Hr & Hp & _ & _)%update_inv.
  cbn [play_loop]. rewrite Hq.
  destruct (spritecollideany_player lv (Level.exits lv) r _ Hr Hp)
    as [[? _] | [_ ->]]; [done |].
  destruct (spritecollideany_player lv (Level.traps lv) r _ Hr Hp)
    as [[? _] | [_ ->]]; [done |].
  rewrite Hu. destruct (play_loop frames lv1) as [o out]. by eexists.
Qed.

(** [n] passes without [QUIT] and without contact are [n] drawn frames,
    and the loop goes on from the level they lead to. *)
Lemma play_loop_skip n : forall frames lv lv',
  (n <= length frames)%nat ->
  level_frames (inputs_of (take n frames)) lv = Ok lv' ->
  no_QUIT (take n frames) -> untouched frames lv n ->
  exists blitss,
    length blitss = n
    /\ play_loop frames lv
       = ((play_loop (drop n frames) lv').1,
          map Frame blitss ++ (play_loop (drop n frames) lv').2).
Proof.
  induction n as [| n IH]; intros frames lv lv' Hlen Hrun Hq Hun.
  { exists []. rewrite drop_0. injection Hrun as <-.
    split; [done |]. by destruct (play_loop frames lv). }
  destruct frames as [| f frames]; [cbn in Hlen; lia |].
  cbn in Hlen, Hrun. apply Forall_cons in Hq as [Hqf Hq].
  destruct (Level.update (ticks f) (pressed_keys f) lv) as [lv1 |] eqn:Hu;
    [| done].
  cbn in Hrun.
  destruct (Hun 0%nat lv ltac:(lia) eq_refl) as [He Ht].
  destruct (IH frames lv1 lv' ltac:(lia) Hrun Hq) as (blitss & Hl & Hp).
  { intros k lvk Hk Hk'. apply (Hun (S k) lvk ltac:(lia)).
    cbn. by rewrite Hu. }
  destruct (play_loop_pass f frames lv lv1 Hqf He Ht Hu) as [blits ->].
  exists (blits :: blitss). split; [cbn; by rewrite Hl |].
  rewrite Hp. done.
Qed.

(** Where a returning loop was decided. *)
Lemma play_loop_returns frames : forall lv win out,
  play_loop frames lv = (Returns win, out) ->
  exists n lv' blitss,
    (n < length frames)%nat
    /\ level_frames (inputs_of (take n frames)) lv = Ok lv'
    /\ no_QUIT (take (S n) frames)
    /\ untouched frames lv n
    /\ decided lv' win
    /\ length blitss = n
    /\ out = map Frame blitss ++ [verdict (Level.name lv) win].
Proof.
  induction frames as [| f frames IH]; intros lv win out; [done |].
  cbn [play_loop]. destruct (existsb is_QUIT (events f)) eqn:Hq; [done |].
  assert (Hnow : forall w,
    decided lv w ->
    exists n lv' blitss,
      (n < length (f :: frames))%nat
      /\ level_frames (inputs_of (take n (f :: frames))) lv = Ok lv'
      /\ no_QUIT (take (S n) (f :: frames))
      /\ untouched (f :: frames) lv n
      /\ decided lv' w
      /\ length blitss = n
      /\ [verdict (Level.name lv) w]
         = map Frame blitss ++ [verdict (Level.name lv) w]).
  { intros w Hw. exists 0%nat, lv, []. split_and!; try done.
    - cbn. lia.
    - cbn. rewrite take_0. by repeat constructor.
    - intros k lvk Hk. lia. }
  destruct (spritecollideany lv (Level.player lv) (Level.exits lv))
    as [[o |] | e] eqn:He; [| | done].
  { intros [= <- <-]. apply (Hnow true). by eapply spritecollideany_some. }
  apply spritecollideany_none in He.
  destruct (spritecollideany lv (Level.player lv) (Level.traps lv))
    as [[o |] | e] eqn:Ht; [| | done].
  { intros [= <- <-]. apply (Hnow false).
    split; [by eapply spritecollideany_some | done]. }
  apply spritecollideany_none in Ht.
  destruct (Level.update (ticks f) (pressed_keys f) lv) as [lv1 |] eqn:Hu;
    [| done].
  destruct (play_loop frames lv1) as [o1 out1] eqn:Hp.
  intros [= -> <-].
  destruct (IH lv1 win out1 Hp)
    as (n & lv' & blitss & Hn & Hrun & Hnq & Hun & Hd & Hl & ->).
  destruct (update_name _ _ _ _ Hu) as (Hname & _ & _).
  eexists (S n), lv', (_ :: blitss). split_and!.
  - cbn. lia.
  - cbn. rewrite Hu. exact Hrun.
  - by apply Forall_cons.
  - intros [| k] lvk Hk; cbn.
    + by intros [= <-].
    + rewrite Hu. cbn. apply Hun. lia.
  - done.
  - cbn. by rewrite Hl.
  - cbn. by rewrite Hname.
Qed.


Lemma level_frames_name frames : forall (lv lv' : Level.t),
  level_frames frames lv = Ok lv' -> Level.name lv' = Level.name lv.
Proof.
  induction frames as [| [keys now] frames IH]; intros lv lv'.
  { by intros [= <-]. }
  cbn. destruct (Level.update now keys lv) as [lv1 |] eqn:Hu; [| done].
  cbn. intros ->%IH. by apply update_name in Hu as [-> _].
Qed.

(** The pass in which the level is decided. *)
Lemma play_loop_decided f frames lv win :
  existsb is_QUIT (events f) = false -> decided lv win ->
  play_loop (f :: frames) lv
  = (Returns win, [verdict (Level.name lv) win]).
Proof.
  intros Hq Hd. cbn [play_loop]. rewrite Hq. destruct win; cbn in Hd.
  - pose proof Hd as (r & s & _ & Hr & Hs & _).
    destruct (spritecollideany_player lv (Level.exits lv) r _ Hr Hs)
      as [[_ [o ->]] | [? _]]; done.
  - destruct Hd as [Ht He]. pose proof Ht as (r & s & _ & Hr & Hs & _).
    destruct (spritecollideany_player lv (Level.exits lv) r _ Hr Hs)
      as [[? _] | [_ ->]]; [done |].
    destruct (spritecollideany_player lv (Level.traps lv) r _ Hr Hs)
      as [[_ [o ->]] | [? _]]; done.
Qed.

End PlayFacts.

(** X18: [play] returns only on contact.  If it returns, then for some [n]
    the first [n] passes had no [QUIT], met neither exit nor trap and each
    drew a frame and updated the level; in the level after these [n]
    updates, with no [QUIT] in pass [n] either, the player overlaps an exit
    when the result is [True], and a trap but no exit when it is [False].
    The screen showed the level's name, the [n] frames, and the message of
    the result. *)
Theorem play_returns_on_contact
    (frames : list Main.frame) (lv : Level.t) (win : bool)
    (out : list Main.shown) :
  Main.play frames lv = (Main.Returns win, out) ->
  exists n lv' blitss,
    (n < length frames)%nat
    /\ level_frames (Main.inputs_of (take n frames)) lv = Ok lv'
    /\ Main.no_QUIT (take (S n) frames)
    /\ Main.untouched frames lv n
    /\ Main.decided lv' win
    /\ length blitss = n
    /\ out = Main.Message (Level.name lv) Main.GREEN
             :: map Main.Frame blitss
             ++ [Main.verdict (Level.name lv) win].
Proof.
  unfold Main.play.
  destruct (Main.play_loop frames lv) as [o out1] eqn:Hp.
  intros [= -> <-].
  destruct (play_loop_returns frames lv win out1 Hp)
    as (n & lv' & blitss & H1 & H2 & H3 & H4 & H5 & H6 & ->).
  by exists n, lv', blitss.
Qed.

Lemma play_returns_on_contact_witness :
  exists lv out n lv' blitss,
    Level.__init__ sample_world "Level 1" map_one_each 32 = Ok lv
    /\ Main.play (run_right 30) lv = (Main.Returns true, out)
    /\ (n < length (run_right 30))%nat
    /\ level_frames (Main.inputs_of (take n (run_right 30))) lv = Ok lv'
    /\ Main.no_QUIT (take (S n) (run_right 30))
    /\ Main.untouched (run_right 30) lv n
    /\ Main.decided lv' true
    /\ length blitss = n
    /\ out = Main.Message (Level.name lv) Main.GREEN
             :: map Main.Frame blitss
             ++ [Main.verdict (Level.name lv) true].
Proof.
  eexists. eexists.
  assert (H := fun lv out =>
    play_returns_on_contact (run_right 30) lv true out).
  match goal with
  | |- exists n lv' blitss, ?A /\ ?B /\ _ =>
      assert (Ha : A) by (vm_compute; reflexivity);
      assert (Hb : B) by (vm_compute; reflexivity)
  end.
  destruct (H _ _ Hb) as (n & lv' & blitss & Hrest).
  exists n, lv', blitss. split; [exact Ha |]. split; [exact Hb |].
  exact Hrest.
Defined.



(** X20: contact ends [play] in the pass that sees it.  If the first [n]
    passes have no [QUIT] and meet neither exit nor trap, and in the level
    after these [n] updates the player overlaps an exit, or a trap and no
    exit, then [play] returns in pass [n], provided that pass has no
    [QUIT]: [True] for the exit, also when a trap is overlapped as well,
    [False] for the trap.  That pass neither draws nor updates. *)
Theorem contact_ends_play
    (frames : list Main.frame) (lv lv' : Level.t) (n : nat) (win : bool) :
  (n < length frames)%nat ->
  level_frames (Main.inputs_of (take n frames)) lv = Ok lv' ->
  Main.no_QUIT (take (S n) frames) ->
  Main.untouched frames lv n ->
  Main.decided lv' win ->
  exists blitss,
    length blitss = n
    /\ Main.play frames lv
       = (Main.Returns win,
          Main.Message (Level.name lv) Main.GREEN
          :: map Main.Frame blitss ++ [Main.verdict (Level.name lv) win]).
Proof.
  intros Hn Hrun Hq Hun Hd.
  destruct (lookup_lt_is_Some_2 frames n Hn) as [f Hf].
  rewrite (take_S_r _ _ _ Hf) in Hq. apply Forall_app in Hq as [Hq Hqf].
  apply Forall_cons in Hqf as [Hqf _].
  destruct (play_loop_skip n frames lv lv' ltac:(lia) Hrun Hq Hun)
    as (blitss & Hl & Hp).
  rewrite (drop_S _ _ _ Hf) in Hp.
  rewrite (play_loop_decided f _ lv' win Hqf Hd) in Hp. cbn in Hp.
  rewrite (level_frames_name _ _ _ Hrun) in Hp.
  exists blitss. split; [done |]. unfold Main.play. by rewrite Hp.
Qed.

Lemma contact_ends_play_witness :
  exists lv lv',
    Level.__init__ sample_world "Level 1" map_player_exit 32 = Ok lv
    /\ level_frames (Main.inputs_of (take 1 (run_right 3))) lv = Ok lv'
    /\ exists blitss,
         length blitss = 1%nat
         /\ Main.play (run_right 3) lv
            = (Main.Returns true,
               Main.Message (Level.name lv) Main.GREEN
               :: map Main.Frame blitss
               ++ [Main.verdict (Level.name lv) true]).
Proof.
  eexists. eexists. split; [vm_compute; reflexivity |].
  match goal with |- level_frames _ ?lv = _ /\ _ => set (l := lv) end.
  split; [vm_compute; reflexivity |].
  match goal with
  | |- exists _, _ /\ Main.play _ _ = _ => idtac
  end.
  refine (contact_ends_play (run_right 3) l _ 1 true _ _ _ _ _).
  - vm_compute. lia.
  - vm_compute; reflexivity.
  - repeat constructor.
  - intros k lvk Hk. destruct k as [| k]; [| lia]. intros [= <-].
    split; intros (r & s & o & Hr & Hs & Ho & Hc);
      vm_compute in Hr; injection Hr as <-;
      vm_compute in Hs; injection Hs as <-;
      apply list_elem_of_In in Ho; vm_compute in Ho.
    + destruct Ho as [<- | []]. vm_compute in Hc. discriminate Hc.
    + destruct Ho.
  - eexists 0%nat, _, _. split; [vm_compute; reflexivity |].
    split; [vm_compute; reflexivity |].
    split; [apply list_elem_of_In; vm_compute; left; reflexivity |].
    vm_compute; reflexivity.
Defined.

(** X21: a [QUIT] event ends [play] with [SystemExit] in the pass that
    reads it, before that pass tests for contact: if the first [n] passes
    have no [QUIT] and meet neither exit nor trap, and pass [n] has a
    [QUIT] queued, the process exits after [n] drawn frames, whether or not
    the player overlaps an exit or a trap by then. *)
Theorem quit_ends_play
    (frames : list Main.frame) (lv lv' : Level.t) (n : nat)
    (f : Main.frame) :
  level_frames (Main.inputs_of (take n frames)) lv = Ok lv' ->
  Main.no_QUIT (take n frames) ->
  Main.untouched frames lv n ->
  frames !! n = Some f ->
  existsb Main.is_QUIT (Main.events f) = true ->
  exists blitss,
    length blitss = n
    /\ Main.play frames lv
       = (Main.SystemExit,
          Main.Message (Level.name lv) Main.GREEN :: map Main.Frame blitss).
Proof.
  intros Hrun Hq Hun Hf Hquit.
  assert (Hn : (n < length frames)%nat) by by eapply lookup_lt_Some.
  destruct (play_loop_skip n frames lv lv' ltac:(lia) Hrun Hq Hun)
    as (blitss & Hl & Hp).
  rewrite (drop_S _ _ _ Hf) in Hp. cbn [Main.play_loop] in Hp.
  rewrite Hquit in Hp. cbn in Hp. rewrite app_nil_r in Hp.
  exists blitss. split; [done |]. unfold Main.play. by rewrite Hp.
Qed.

Lemma quit_ends_play_witness :
  exists lv,
    Level.__init__ sample_world "Level 1" map_player_exit 32 = Ok lv
    /\ exists blitss,
         length blitss = 0%nat
         /\ Main.play
              [{| Main.events := [Main.OtherEvent; Main.QUIT];
                  Main.pressed_keys := key_right;
                  Main.ticks := fun _ => 1200 |}] lv
            = (Main.SystemExit,
               Main.Message (Level.name lv) Main.GREEN
               :: map Main.Frame blitss).
Proof.
  eexists. split; [vm_compute; reflexivity |].
  match goal with
  | |- exists _, _ /\ Main.play _ ?lv = _ => set (l := lv)
  end.
  refine (quit_ends_play _ l l 0 _ _ _ _ _ _).
  - reflexivity.
  - constructor.
  - intros k lvk Hk. lia.
  - reflexivity.
  - reflexivity.
Defined.

(** ** The script of main.py *)

Section ScriptFacts.

Import Main.

Lemma open_level_name W nm text size (lv : Level.t) :
  MapFile.open_level W nm text size = Ok lv -> Level.name lv = nm.
Proof.
  unfold MapFile.open_level. intros Hinit.
  pose proof (__init___spec W nm (MapFile._read_from_file text) size) as H.
  destruct (length (entities size is_player
                      (map_cells 0 (MapFile._read_from_file text))))
    as [| [| n]]; [congruence | | congruence].
  destruct H as (lv0 & p & Hsc & _ & Heq). rewrite Hinit in Heq.
  injection Heq as ->. cbn. apply Hsc.
Qed.


Lemma play_loop_shown frames : forall lv,
  Forall (level_shown (Level.name lv)) (play_loop frames lv).2.
Proof.
  induction frames as [| f frames IH]; intros lv; [constructor |].
  cbn [play_loop]. destruct (existsb is_QUIT (events f)); [constructor |].
  destruct (spritecollideany lv (Level.player lv) (Level.exits lv))
    as [[o |] | e]; [| | constructor].
  { cbn. apply Forall_singleton. right; right; left. done. }
  destruct (spritecollideany lv (Level.player lv) (Level.traps lv))
    as [[o |] | e]; [| | constructor].
  { cbn. apply Forall_singleton. right; right; right. done. }
  destruct (Level.update (ticks f) (pressed_keys f) lv) as [lv1 |] eqn:Hu;
    [| constructor].
  apply update_name in Hu as [Hname _]. specialize (IH lv1).
  rewrite Hname in IH. destruct (play_loop frames lv1) as [o out].
  constructor; [| exact IH]. right; left. eauto.
Qed.

Lemma play_shown frames lv :
  Forall (level_shown (Level.name lv)) (play frames lv).2.
Proof.
  pose proof (play_loop_shown frames lv) as H. unfold play.
  destruct (play_loop frames lv) as [o out]. constructor; [by left | done].
Qed.

Lemma play_won frames lv out :
  play frames lv = (Returns true, out) ->
  exists pre, out = pre ++ [verdict (Level.name lv) true].
Proof.
  unfold play. destruct (play_loop frames lv) as [o out1] eqn:Hp.
  intros [= -> <-].
  destruct (play_loop_returns frames lv true out1 Hp)
    as (n & lv' & blitss & _ & _ & _ & _ & _ & _ & ->).
  by exists (Message (Level.name lv) GREEN :: map Frame blitss).
Qed.

(** What the rounds for one level show, and how they end when won. *)
Lemma while_not_win_shown nm fn attempts :
  Forall (level_shown nm) (while_not_win nm fn attempts).1.2.
Proof.
  induction attempts as [| a attempts IH]; [constructor |].
  cbn [while_not_win]. destruct (files a fn) as [text |]; [| constructor].
  destruct (MapFile.open_level (world a) nm text SPRITE_SIZE)
    as [lv |] eqn:Ho; [| constructor].
  apply open_level_name in Ho. pose proof (play_shown (passes a) lv) as Hs.
  rewrite Ho in Hs.
  destruct (play (passes a) lv) as [[[|] | | e | lv'] out]; try exact Hs.
  destruct (while_not_win nm fn attempts) as [[e out'] rest].
  cbn in *. by apply Forall_app.
Qed.

Lemma while_not_win_won nm fn attempts : forall out rest,
  while_not_win nm fn attempts = (None, out, rest) ->
  exists pre, out = pre ++ [verdict nm true].
Proof.
  induction attempts as [| a attempts IH]; intros out rest; [done |].
  cbn [while_not_win]. destruct (files a fn) as [text |]; [| done].
  destruct (MapFile.open_level (world a) nm text SPRITE_SIZE)
    as [lv |] eqn:Ho; [| done].
  apply open_level_name in Ho.
  destruct (play (passes a) lv) as [[[|] | | e | lv'] out0] eqn:Hp;
    try done.
  - intros [= <- <-]. apply play_won in Hp. by rewrite Ho in Hp.
  - destruct (while_not_win nm fn attempts) as [[e out'] rest'].
    intros [= -> <- <-]. destruct (IH out' rest' eq_refl) as [pre ->].
    exists (out0 ++ pre). by rewrite app_assoc.
Qed.

Lemma level_shown_not_VICTORY nm s :
  nm <> "VICTORY! You've finished the game." ->
  level_shown nm s -> s <> VICTORY.
Proof.
  intros Hnm [-> | [[blits ->] | [-> | ->]]]; unfold VICTORY; cbn;
    first [congruence | intros [= H]; cbv in H; discriminate H].
Qed.


End ScriptFacts.

(** X22: the victory screen is shown only after both levels have been
    completed, the first before the second, and it is the last thing
    shown: the script then ends with [SystemExit].  No other ending shows
    it. *)
Theorem victory_after_both_levels
    (attempts : list Main.attempt) (e : Main.ending)
    (out : list Main.shown) :
  Main.main attempts = (e, out) ->
  Main.VICTORY ∈ out ->
  e = Main.Exits
  /\ exists out1 out2,
       out = out1 ++ Main.verdict "Level 1" true
                  :: out2 ++ [Main.verdict "Level 2" true; Main.VICTORY].
Proof.
  unfold Main.main. cbn [Main.enumerate Main.levels Main.for_levels].
  change ("Level " +:+ Main.str 1) with "Level 1".
  change ("Level " +:+ Main.str 2) with "Level 2".
  pose proof (while_not_win_shown "Level 1" "maps/level1.txt" attempts)
    as Hs1.
  destruct (Main.while_not_win "Level 1" "maps/level1.txt" attempts)
    as [[[e1 |] out1] rest1] eqn:E1; cbn in Hs1.
  { intros [= <- <-] Hin. rewrite Forall_forall in Hs1.
    by destruct (level_shown_not_VICTORY "Level 1" _ ltac:(done)
                   (Hs1 _ Hin)). }
  pose proof (while_not_win_shown "Level 2" "maps/level2.txt" rest1)
    as Hs2.
  destruct (Main.while_not_win "Level 2" "maps/level2.txt" rest1)
    as [[[e2 |] out2] rest2] eqn:E2; cbn in Hs2.
  { intros [= <- <-] Hin. rewrite Forall_forall in Hs1, Hs2.
    apply elem_of_app in Hin as [Hin | Hin].
    - by destruct (level_shown_not_VICTORY "Level 1" _ ltac:(done)
                     (Hs1 _ Hin)).
    - by destruct (level_shown_not_VICTORY "Level 2" _ ltac:(done)
                     (Hs2 _ Hin)). }
  intros [= <- <-] _. split; [done |].
  destruct (while_not_win_won _ _ _ _ _ E1) as [pre1 ->].
  destruct (while_not_win_won _ _ _ _ _ E2) as [pre2 ->].
  exists pre1, pre2. by rewrite <- !app_assoc.
Qed.

Lemma victory_after_both_levels_witness :
  exists out out1 out2,
    Main.main [sample_attempt; sample_attempt] = (Main.Exits, out)
    /\ out = out1 ++ Main.verdict "Level 1" true
                  :: out2 ++ [Main.verdict "Level 2" true; Main.VICTORY].
Proof.
  eexists.
  assert (H := fun out =>
    victory_after_both_levels [sample_attempt; sample_attempt]
      Main.Exits out).
  match goal with
  | |- exists out1 out2, ?A /\ _ =>
      assert (Ha : A) by (vm_compute; reflexivity)
  end.
  destruct (H _ Ha) as (_ & out1 & out2 & Hout).
  - apply list_elem_of_In. vm_compute.
    repeat (first [left; reflexivity | right]).
  - exists out1, out2. split; [exact Ha | exact Hout].
Defined.


